(** * The audio delta pipeline of the realtime console (src/pages/ConsolePage.tsx)

    A shallow embedding of the parts of [ConsolePage.tsx] that carry the
    avatar audio: the resampler [resampleAudioData], the readiness gate
    [isSimliDataChannelOpen], the pending audio buffer
    ([simliAudioBufferRef]) with the two event handlers that touch it, and
    the turn controller ([connectConversation], [startRecording],
    [stopRecording], [disconnectConversation]).

    JavaScript numbers are IEEE-754 binary64 values: they are modelled by
    Rocq's primitive floats, whose operations are the same binary64
    operations.  Values that the program only ever holds as integers (array
    lengths, the loop counter, sample values) are kept in [Z] and converted
    with [number_of_Z] where they enter floating-point arithmetic. *)

From Stdlib Require Import String Ascii.
From Stdlib Require Import ZArith List Bool Lia Floats Uint63 Zpower.
From Stdlib Require Import Reals Lra.
Import ListNotations.
Open Scope Z_scope.

(** ** JavaScript numbers *)

Module JS.

(** The number that holds the integer [z] (exact for [|z| <= 2^53]). *)
Definition number_of_Z (z : Z) : float :=
  if z <? 0 then PrimFloat.opp (of_uint63 (of_Z (- z))) else of_uint63 (of_Z z).

(** [truncate x]: the integer part of a finite number, rounding toward
    zero (the "truncate" of ECMAScript's ToIntegerOrInfinity). *)
Definition truncate (s : bool) (m : positive) (e : Z) : Z :=
  if 0 <=? e then cond_Zopp s (Z.pos m * 2 ^ e)
  else cond_Zopp s (Z.pos m / 2 ^ (- e)).

(** [Math.round]: the nearest integer, ties toward +infinity; NaN,
    infinities, zeros and integral values are returned unchanged. *)
Definition Math_round (x : float) : float :=
  match Prim2SF x with
  | S754_finite s m e =>
      if 0 <=? e then x
      else
        let n := (cond_Zopp s (2 * Z.pos m) + 2 ^ (- e)) / 2 ^ (1 - e) in
        if n =? 0 then (if s then neg_zero else zero) else number_of_Z n
  | _ => x
  end.

(** [Math.floor]. *)
Definition Math_floor (x : float) : float :=
  match Prim2SF x with
  | S754_finite s m e =>
      if 0 <=? e then x else number_of_Z (cond_Zopp s (Z.pos m) / 2 ^ (- e))
  | _ => x
  end.

(** [Math.min] of two numbers: NaN if either is NaN, and -0 below +0. *)
Definition Math_min (a b : float) : float :=
  if is_nan a || is_nan b then nan
  else if (a <? b)%float then a
  else if (b <? a)%float then b
  else if get_sign a then a else b.

(** ToInt16, the conversion applied by a store into an [Int16Array]. *)
Definition ToInt16 (x : float) : Z :=
  match Prim2SF x with
  | S754_finite s m e =>
      let r := truncate s m e mod 65536 in
      if 32768 <=? r then r - 65536 else r
  | _ => 0
  end.

(** The array index a number denotes as a property key, if any: a
    non-negative integral value. *)
Definition index_of_number (x : float) : option Z :=
  match Prim2SF x with
  | S754_zero _ => Some 0
  | S754_finite false m e =>
      if 0 <=? e then Some (Z.pos m * 2 ^ e)
      else if Z.pos m mod 2 ^ (- e) =? 0 then Some (Z.pos m / 2 ^ (- e))
      else None
  | _ => None
  end.

(** A sample rate: a finite number above zero. *)
Definition positive_finite (x : float) : bool :=
  match Prim2SF x with
  | S754_finite false _ _ => true
  | _ => false
  end.

End JS.

(** ** Typed arrays

    An [Int16Array] is a list of integers in [-32768, 32767]; an engine
    creates typed arrays of at most [max_array_length] elements and throws a
    [RangeError] beyond that. *)

Definition Int16Array := list Z.
Definition Uint8Array := list Z.

Definition int16 (z : Z) : Prop := -32768 <= z <= 32767.

Module TypedArray.

(** [new Int16Array(n)] for a number [n]: ToIndex, then the allocation of
    a zero-filled array.  [None] is the [RangeError]. *)
Definition ToIndex (max_array_length : Z) (x : float) : option Z :=
  match Prim2SF x with
  | S754_nan => Some 0
  | S754_zero _ => Some 0
  | S754_infinity _ => None
  | S754_finite s m e =>
      let t := JS.truncate s m e in
      if (0 <=? t) && (t <=? max_array_length) then Some t else None
  end.

Definition create (max_array_length : Z) (n : float) : option Int16Array :=
  match ToIndex max_array_length n with
  | Some k => Some (repeat 0 (Z.to_nat k))
  | None => None
  end.

(** [a[idx]] as an operand of arithmetic: the element, or NaN for the
    [undefined] that a read outside the array yields. *)
Definition in_bounds (a : Int16Array) (idx : float) : bool :=
  match JS.index_of_number idx with
  | Some k => k <? Z.of_nat (length a)
  | None => false
  end.

Definition get (a : Int16Array) (idx : float) : float :=
  match JS.index_of_number idx with
  | Some k =>
      if k <? Z.of_nat (length a) then JS.number_of_Z (nth (Z.to_nat k) a 0)
      else nan
  | None => nan
  end.

(** [a[i] = v] for an integer index; a write outside the array is ignored. *)
Fixpoint set_nat (a : Int16Array) (i : nat) (v : Z) : Int16Array :=
  match a, i with
  | [], _ => []
  | _ :: t, O => v :: t
  | h :: t, S i' => h :: set_nat t i' v
  end.

Definition set (a : Int16Array) (i : Z) (v : float) : Int16Array :=
  if i <? 0 then a else set_nat a (Z.to_nat i) (JS.ToInt16 v).

(** [new Uint8Array(a.buffer)]: the bytes of the samples, two per sample,
    low byte first (the byte order of the platforms the page runs on). *)
Definition bytes_of_sample (s : Z) : list Z :=
  let u := s mod 65536 in [u mod 256; u / 256].

Definition buffer_bytes (a : Int16Array) : Uint8Array :=
  flat_map bytes_of_sample a.

End TypedArray.

(** ** resampleAudioData (ConsolePage.tsx, lines 22-42) *)

Section Resampler.

Variable max_array_length : Z.

(** One iteration of the loop body at counter [i]: the two indices read and
    the value stored into [outputData[i]]. *)
Definition interpolate (inputData : Int16Array) (sampleRateRatio : float) (i : Z)
  : float * float * float :=
  let sourceIndex := (JS.number_of_Z i * sampleRateRatio)%float in
  let lowerIndex := JS.Math_floor sourceIndex in
  let upperIndex :=
    JS.Math_min (lowerIndex + 1)%float
      (JS.number_of_Z (Z.of_nat (length inputData) - 1)) in
  let interpolation := (sourceIndex - lowerIndex)%float in
  (lowerIndex, upperIndex,
   ((1 - interpolation) * TypedArray.get inputData lowerIndex
    + interpolation * TypedArray.get inputData upperIndex)%float).

(** The [for] loop with [count] iterations left, the counter at [i]; the
    state is [outputData] and the log of the indices at which [inputData]
    has been read. *)
Fixpoint resample_loop (inputData : Int16Array) (sampleRateRatio : float)
  (count : nat) (i : Z) (st : Int16Array * list float) : Int16Array * list float :=
  match count with
  | O => st
  | S count' =>
      let '(lowerIndex, upperIndex, v) := interpolate inputData sampleRateRatio i in
      resample_loop inputData sampleRateRatio count' (i + 1)
        (TypedArray.set (fst st) i v, snd st ++ [lowerIndex; upperIndex])
  end.

Definition outputLength (inputData : Int16Array) (inputSampleRate outputSampleRate : float)
  : float :=
  let sampleRateRatio := (inputSampleRate / outputSampleRate)%float in
  JS.Math_round (JS.number_of_Z (Z.of_nat (length inputData)) / sampleRateRatio)%float.

(** The function together with its log of reads; [None] when
    [new Int16Array(outputLength)] throws. *)
Definition resampleAudioData_run (inputData : Int16Array)
  (inputSampleRate outputSampleRate : float) : option (Int16Array * list float) :=
  let sampleRateRatio := (inputSampleRate / outputSampleRate)%float in
  match TypedArray.create max_array_length
          (outputLength inputData inputSampleRate outputSampleRate) with
  | None => None
  | Some outputData =>
      Some (resample_loop inputData sampleRateRatio (length outputData) 0 (outputData, []))
  end.

Definition resampleAudioData (inputData : Int16Array)
  (inputSampleRate outputSampleRate : float) : option Int16Array :=
  option_map fst (resampleAudioData_run inputData inputSampleRate outputSampleRate).

Definition resample_reads (inputData : Int16Array)
  (inputSampleRate outputSampleRate : float) : list float :=
  match resampleAudioData_run inputData inputSampleRate outputSampleRate with
  | Some (_, reads) => reads
  | None => []
  end.

End Resampler.

(** ** The component state and its collaborators

    The page is a React component; its [useRef] cells and [useState] values
    are the fields of [Console].  The collaborators (the realtime client,
    the recorder, the stream player, the avatar client, the audio context)
    are outside the repository's own code: a call to one of them is
    recorded in [calls], and what it answers is read from [Env]. *)

Record RTCPeerConnection := { iceConnectionState : string }.
Record RTCDataChannel := { readyState : string }.

(** [SimliClient]: the two fields the page reaches into. *)
Record SimliClient := {
  pc : option RTCPeerConnection;
  dc : option RTCDataChannel
}.

Record WavFile := { url : string }.

Record Formatted := {
  text : option string;
  transcript : option string;
  audio : option Int16Array;
  output : option string;
  file : option WavFile
}.

Record ItemType := {
  id : string;
  role : option string;
  status : option string;
  formatted : Formatted
}.

(** What [wavStreamPlayer.interrupt()] resolves to when it is not [null]. *)
Record TrackSampleOffset := {
  trackId : option string;
  offset : Z
}.

Inductive AudioContextState := suspended | running | closed.

Inductive Call :=
| AudioContext_new
| AudioContext_resume
| AudioContext_close
| Client_connect
| Client_disconnect
| Client_getTurnDetectionType
| Client_cancelResponse (trackId : string) (offset : Z)
| Client_createResponse
| Recorder_begin
| Recorder_record
| Recorder_pause
| Recorder_end
| Player_connect
| Player_interrupt
| Simli_start
| Simli_sendAudioData (bytes : Uint8Array)
| Simli_close
| WavRecorder_decode (audio : Int16Array)
| Audio_new (src : string).

(** The answers of the collaborators. [None] for a constructor or a decoder
    is a thrown exception, [false] a rejected promise. *)
Record Env := {
  new_AudioContext : option AudioContextState;
  resume_ok : bool;
  close_ok : bool;
  connect_ok : bool;
  begin_ok : bool;
  player_connect_ok : bool;
  turnDetectionType : string;
  interrupt_result : option TrackSampleOffset;
  decode : Int16Array -> option WavFile;
  array_limit : Z
}.

(** Conversation items are objects shared between the realtime client's
    list and the event that announces an update: [heap] holds the objects,
    and the lists hold references (positions in [heap]). *)
Record Console := {
  simliClientRef : option SimliClient;
  simliAudioBufferRef : list Uint8Array;
  audioContext : option AudioContextState;
  isConnected : bool;
  isRecording : bool;
  items : list nat;
  heap : list ItemType;
  conversation : list nat;
  calls : list Call
}.

Definition set_simliAudioBufferRef (b : list Uint8Array) (c : Console) : Console :=
  {| simliClientRef := simliClientRef c; simliAudioBufferRef := b;
     audioContext := audioContext c; isConnected := isConnected c;
     isRecording := isRecording c; items := items c; heap := heap c;
     conversation := conversation c; calls := calls c |}.

Definition set_audioContext (a : option AudioContextState) (c : Console) : Console :=
  {| simliClientRef := simliClientRef c; simliAudioBufferRef := simliAudioBufferRef c;
     audioContext := a; isConnected := isConnected c;
     isRecording := isRecording c; items := items c; heap := heap c;
     conversation := conversation c; calls := calls c |}.

Definition set_isConnected (b : bool) (c : Console) : Console :=
  {| simliClientRef := simliClientRef c; simliAudioBufferRef := simliAudioBufferRef c;
     audioContext := audioContext c; isConnected := b;
     isRecording := isRecording c; items := items c; heap := heap c;
     conversation := conversation c; calls := calls c |}.

Definition set_isRecording (b : bool) (c : Console) : Console :=
  {| simliClientRef := simliClientRef c; simliAudioBufferRef := simliAudioBufferRef c;
     audioContext := audioContext c; isConnected := isConnected c;
     isRecording := b; items := items c; heap := heap c;
     conversation := conversation c; calls := calls c |}.

Definition set_items (l : list nat) (c : Console) : Console :=
  {| simliClientRef := simliClientRef c; simliAudioBufferRef := simliAudioBufferRef c;
     audioContext := audioContext c; isConnected := isConnected c;
     isRecording := isRecording c; items := l; heap := heap c;
     conversation := conversation c; calls := calls c |}.

Definition set_heap (h : list ItemType) (c : Console) : Console :=
  {| simliClientRef := simliClientRef c; simliAudioBufferRef := simliAudioBufferRef c;
     audioContext := audioContext c; isConnected := isConnected c;
     isRecording := isRecording c; items := items c; heap := h;
     conversation := conversation c; calls := calls c |}.

Definition add_call (k : Call) (c : Console) : Console :=
  {| simliClientRef := simliClientRef c; simliAudioBufferRef := simliAudioBufferRef c;
     audioContext := audioContext c; isConnected := isConnected c;
     isRecording := isRecording c; items := items c; heap := heap c;
     conversation := conversation c; calls := calls c ++ [k] |}.

(** *** The monad of handlers: state, and completion by return or throw *)

Inductive completion (A : Type) :=
| Normal (a : A)
| Throw.
Arguments Normal {A} a.
Arguments Throw {A}.

Definition M (A : Type) : Type := Console -> completion A * Console.

Definition ret {A} (a : A) : M A := fun c => (Normal a, c).

Definition bind {A B} (m : M A) (k : A -> M B) : M B :=
  fun c =>
    match m c with
    | (Normal a, c') => k a c'
    | (Throw, c') => (Throw, c')
    end.

Definition throw {A} : M A := fun c => (Throw, c).

(** [try { m } catch { handler }]. *)
Definition try_catch {A} (m : M A) (handler : M A) : M A :=
  fun c =>
    match m c with
    | (Normal a, c') => (Normal a, c')
    | (Throw, c') => handler c'
    end.

Definition gets {A} (f : Console -> A) : M A := fun c => (Normal (f c), c).
Definition modify (f : Console -> Console) : M unit := fun c => (Normal tt, f c).
Definition call (k : Call) : M unit := modify (add_call k).

(** A call whose promise may reject. *)
Definition call_ok (k : Call) (ok : bool) : M unit :=
  bind (call k) (fun _ => if ok then ret tt else throw).

Declare Scope handler_scope.
Delimit Scope handler_scope with handler.
Notation "x <- m ;; k" := (bind m (fun x => k))
  (at level 61, m at next level, right associativity) : handler_scope.
Notation "m ;; k" := (bind m (fun _ => k))
  (at level 61, right associativity) : handler_scope.
Open Scope handler_scope.

Fixpoint forEach {A} (l : list A) (f : A -> M unit) : M unit :=
  match l with
  | [] => ret tt
  | x :: l' => f x ;; forEach l' f
  end.

Definition truthy (s : option string) : bool :=
  match s with
  | Some s => negb (String.eqb s "")
  | None => false
  end.

Definition is_string (s : option string) (v : string) : bool :=
  match s with
  | Some s => String.eqb s v
  | None => false
  end.

(** The payload of a [conversation.updated] event next to the item. *)
Record Delta := { delta_audio : option Int16Array }.

Definition set_file (w : WavFile) (it : ItemType) : ItemType :=
  {| id := id it; role := role it; status := status it;
     formatted :=
       {| text := text (formatted it); transcript := transcript (formatted it);
          audio := audio (formatted it); output := output (formatted it);
          file := Some w |} |}.

(** [heap[r] := f heap[r]]: a mutation of the object behind reference [r]. *)
Fixpoint update_object (h : list ItemType) (r : nat) (f : ItemType -> ItemType)
  : list ItemType :=
  match h, r with
  | [], _ => []
  | it :: t, O => f it :: t
  | it :: t, S r' => it :: update_object t r' f
  end.

(** The items a list of references shows. *)
Definition shown (h : list ItemType) (refs : list nat) : list (option ItemType) :=
  map (nth_error h) refs.

(** [new Uint8Array(6000).fill(0)], the silence sent when connecting. *)
Definition initial_silence : Uint8Array := repeat 0 (Z.to_nat 6000).

(** ** The handlers of ConsolePage.tsx *)

Section Handlers.

Variable env : Env.

(** [await context.resume()]: the context is running afterwards. *)
Definition resume : M unit :=
  call_ok AudioContext_resume (resume_ok env) ;;
  modify (set_audioContext (Some running)).

(** initializeAudioContext (lines 97-120): the new context, or [null].
    [setAudioContext(context)] (line 114) is the write of the field; the
    mount effect that React re-runs on that change is not part of the
    function (see [step]). *)
Definition initializeAudioContext : M (option AudioContextState) :=
  try_catch
    (match new_AudioContext env with
     | None => throw
     | Some st =>
         call AudioContext_new ;;
         (match st with
          | suspended => call_ok AudioContext_resume (resume_ok env)
          | _ => ret tt
          end) ;;
         let st' := match st with suspended => running | _ => st end in
         modify (set_audioContext (Some st')) ;;
         ret (Some st')
     end)
    (ret None).

(** isSimliDataChannelOpen (lines 122-129). *)
Definition isSimliDataChannelOpen : M bool :=
  current <- gets simliClientRef ;;
  match current with
  | None => ret false
  | Some client =>
      ret (match pc client with
           | None => false
           | Some p =>
               String.eqb (iceConnectionState p) "connected"
               && match dc client with
                  | None => false
                  | Some d => String.eqb (readyState d) "open"
                  end
           end)
  end.

(** connectConversation (lines 131-188). *)
Definition connectConversation : M unit :=
  a <- gets audioContext ;;
  proceed <-
    match a with
    | None =>
        context <- initializeAudioContext ;;
        ret (match context with Some _ => true | None => false end)
    | Some suspended => try_catch (resume ;; ret true) (ret false)
    | Some _ => ret true
    end ;;
  if proceed : bool then
    modify (set_isConnected true) ;;
    its <- gets conversation ;;
    modify (set_items its) ;;
    current <- gets simliClientRef ;;
    match current with
    | Some _ => call Simli_start ;; call (Simli_sendAudioData initial_silence)
    | None => ret tt
    end ;;
    call_ok Client_connect (connect_ok env) ;;
    call_ok Recorder_begin (begin_ok env) ;;
    call_ok Player_connect (player_connect_ok env) ;;
    call Client_getTurnDetectionType ;;
    if String.eqb (turnDetectionType env) "server_vad"
    then call Recorder_record
    else ret tt
  else ret tt.

(** disconnectConversation (lines 207-240).  [close()] of the avatar
    client is recorded as a call; what it does to the client's connection
    is the library's, and what the page has as avatar client after
    [setAudioContext(null)] (line 235) is the mount effect's: neither is
    part of the handler (see [step]). *)
Definition disconnectConversation : M unit :=
  modify (set_isConnected false) ;;
  modify (set_items []) ;;
  call Client_disconnect ;;
  call Recorder_end ;;
  call Player_interrupt ;;
  current <- gets simliClientRef ;;
  match current with
  | Some _ => call Simli_close
  | None => ret tt
  end ;;
  a <- gets audioContext ;;
  match a with
  | Some _ =>
      try_catch
        (call_ok AudioContext_close (close_ok env) ;; modify (set_audioContext None))
        (ret tt)
  | None => ret tt
  end.

(** startRecording (lines 247-273), the talk button pressed. *)
Definition startRecording : M unit :=
  a <- gets audioContext ;;
  match a with
  | None => _ <- initializeAudioContext ;; ret tt
  | Some suspended => resume
  | Some _ => ret tt
  end ;;
  modify (set_isRecording true) ;;
  call Player_interrupt ;;
  match interrupt_result env with
  | Some trackSampleOffset =>
      match trackId trackSampleOffset with
      | Some t =>
          if truthy (Some t)
          then call (Client_cancelResponse t (offset trackSampleOffset))
          else ret tt
      | None => ret tt
      end
  | None => ret tt
  end ;;
  call Recorder_record.

(** stopRecording (lines 275-284), the talk button released. *)
Definition stopRecording : M unit :=
  modify (set_isRecording false) ;;
  call Recorder_pause ;;
  call Client_createResponse.

(** The [conversation.interrupted] handler (lines 417-420). *)
Definition on_conversation_interrupted : M unit :=
  modify (set_simliAudioBufferRef []).

(** [simliClientRef.current.sendAudioData(bytes)] behind its null check. *)
Definition sendAudioData (bytes : Uint8Array) : M unit :=
  current <- gets simliClientRef ;;
  match current with
  | Some _ => call (Simli_sendAudioData bytes)
  | None => ret tt
  end.

(** The audio delta part of the [conversation.updated] handler
    (lines 426-451). *)
Definition process_audio_delta (delta : option Delta) : M unit :=
  match delta with
  | Some {| delta_audio := Some audioData |} =>
      current <- gets simliClientRef ;;
      match current with
      | Some _ =>
          match resampleAudioData (array_limit env) audioData 24000 16000 with
          | None => throw
          | Some resampledAudioData =>
              open <- isSimliDataChannelOpen ;;
              if open : bool then
                buffered <- gets simliAudioBufferRef ;;
                (if (0 <? Z.of_nat (length buffered))
                 then forEach buffered sendAudioData ;;
                      modify (set_simliAudioBufferRef [])
                 else ret tt) ;;
                call (Simli_sendAudioData (TypedArray.buffer_bytes resampledAudioData))
              else
                modify (fun c =>
                  set_simliAudioBufferRef
                    (simliAudioBufferRef c ++ [TypedArray.buffer_bytes resampledAudioData]) c)
          end
      | None => ret tt
      end
  | _ => ret tt
  end.

Definition deref (r : nat) : M ItemType :=
  h <- gets heap ;;
  match nth_error h r with
  | Some it => ret it
  | None => throw
  end.

(** The decode part of the [conversation.updated] handler (lines 453-498). *)
Definition decode_completed_item (item : nat) : M unit :=
  it <- deref item ;;
  match audio (formatted it) with
  | Some a =>
      if is_string (status it) "completed" && negb (Nat.eqb (length a) 0) then
        try_catch
          (call (WavRecorder_decode a) ;;
           match decode env a with
           | None => throw
           | Some wavFile =>
               modify (fun c => set_heap (update_object (heap c) item (set_file wavFile)) c) ;;
               ctx0 <- gets audioContext ;;
               match ctx0 with
               | Some running | Some closed => ret tt
               | _ =>
                   ctx <- match ctx0 with
                          | Some st => ret (Some st)
                          | None => initializeAudioContext
                          end ;;
                   match ctx with
                   | Some suspended => resume
                   | _ => ret tt
                   end
               end ;;
               call (Audio_new (url wavFile))
           end)
          (ret tt)
      else ret tt
  | None => ret tt
  end.

(** The [conversation.updated] handler (lines 422-500). *)
Definition on_conversation_updated (item : nat) (delta : option Delta) : M unit :=
  its <- gets conversation ;;
  process_audio_delta delta ;;
  decode_completed_item item ;;
  modify (set_items its).

(** *** Events, and runs of the page *)

Inductive Event :=
| conversation_updated (item : nat) (delta : option Delta)
| conversation_interrupted
| talk_pressed
| talk_released
| connect_clicked
| disconnect_clicked
| transport_changed (client : option SimliClient).

Definition set_simliClientRef (s : option SimliClient) (c : Console) : Console :=
  {| simliClientRef := s; simliAudioBufferRef := simliAudioBufferRef c;
     audioContext := audioContext c; isConnected := isConnected c;
     isRecording := isRecording c; items := items c; heap := heap c;
     conversation := conversation c; calls := calls c |}.

Definition handler (ev : Event) : M unit :=
  match ev with
  | conversation_updated item delta => on_conversation_updated item delta
  | conversation_interrupted => on_conversation_interrupted
  | talk_pressed => startRecording
  | talk_released => stopRecording
  | connect_clicked => connectConversation
  | disconnect_clicked => disconnectConversation
  | transport_changed client => modify (set_simliClientRef client)
  end.

(** The event loop.  The handlers are [async] functions; the model
    serialises them: each runs to its end (to its return or to the exception
    that leaves it) before the next event is taken.  For the
    [conversation.interrupted] handler and for the audio delta part of the
    [conversation.updated] handler this is what the program does, since
    neither contains an [await]; the interleavings that the program allows
    at the [await]s of the other handlers are not represented.

    A handler's [setAudioContext] is the write of the field and no more.  In
    the page a change of [audioContext] re-runs the mount effect (its
    dependencies, line 511): the cleanup closes the avatar client, the body
    installs a new one (line 393).  That is not part of any handler; in a
    run it is a [transport_changed] event, which puts an arbitrary client,
    or none, in [simliClientRef]. *)
Definition step (c : Console) (ev : Event) : Console := snd (handler ev c).

Definition run (c : Console) (evs : list Event) : Console := fold_left step evs c.

End Handlers.

(** The frames passed to [sendAudioData], in call order. *)
Definition sent (l : list Call) : list Uint8Array :=
  flat_map (fun k => match k with Simli_sendAudioData b => [b] | _ => [] end) l.

(** The cancellations sent to the session, in call order. *)
Definition cancellations (l : list Call) : list (string * Z) :=
  flat_map (fun k => match k with Client_cancelResponse t o => [(t, o)] | _ => [] end) l.



Definition is_record (k : Call) : bool :=
  match k with Recorder_record => true | _ => false end.

(** ** Vocabulary of the properties *)

(** The gate as a predicate on the avatar client reference. *)
Definition gate_open (current : option SimliClient) : Prop :=
  exists client p d,
    current = Some client /\
    pc client = Some p /\ iceConnectionState p = "connected"%string /\
    dc client = Some d /\ readyState d = "open"%string.

Definition gate_openb (current : option SimliClient) : bool :=
  match current with
  | Some {| pc := Some p; dc := Some d |} =>
      String.eqb (iceConnectionState p) "connected"
      && String.eqb (readyState d) "open"
  | _ => false
  end.

(** The calls a handler added, given the state before and after it. *)
Definition new_calls (c c' : Console) : list Call :=
  skipn (length (calls c)) (calls c').

(** Whether the audio-context guard at the head of [connectConversation]
    lets it go on to connect. *)
Definition audio_ready (env : Env) (c : Console) : bool :=
  match audioContext c with
  | None =>
      match new_AudioContext env with
      | None => false
      | Some suspended => resume_ok env
      | Some _ => true
      end
  | Some suspended => resume_ok env
  | Some _ => true
  end.

(** The bytes that an audio delta becomes on its way to the avatar: the
    delta resampled from 24 kHz to 16 kHz and viewed as bytes. *)
Definition frame (env : Env) (audioData : Int16Array) : option Uint8Array :=
  option_map TypedArray.buffer_bytes
    (resampleAudioData (array_limit env) audioData 24000 16000).

Definition audio_event (d : nat * Int16Array) : Event :=
  conversation_updated (fst d) (Some {| delta_audio := Some (snd d) |}).

(** The frames that handling an event can create. *)
Definition frames_created (env : Env) (ev : Event) : list Uint8Array :=
  match ev with
  | conversation_updated _ (Some {| delta_audio := Some a |}) =>
      match frame env a with
      | Some f => [f]
      | None => []
      end
  | connect_clicked => [initial_silence]
  | _ => []
  end.

(** [effect R m]: whatever state [m] starts in, the state it ends in (by
    return or by throw) is related to it by [R]. *)
Definition effect {A} (R : Console -> Console -> Prop) (m : M A) : Prop :=
  forall c, R c (snd (m c)).

(** The calls added contain none that satisfies [P]. *)
Definition adds_no (P : Call -> bool) (c c' : Console) : Prop :=
  exists l, calls c' = calls c ++ l /\ filter P l = [].

Definition is_send (k : Call) : bool :=
  match k with Simli_sendAudioData _ => true | _ => false end.

Definition is_cancel (k : Call) : bool :=
  match k with Client_cancelResponse _ _ => true | _ => false end.

(** The avatar pipeline is untouched: same client reference, same pending
    buffer, and no frame sent. *)
Definition pipeline_untouched (c c' : Console) : Prop :=
  simliClientRef c' = simliClientRef c /\
  simliAudioBufferRef c' = simliAudioBufferRef c /\
  adds_no is_send c c'.

(** The conversation store is untouched: same objects, same list. *)
Definition store_untouched (c c' : Console) : Prop :=
  heap c' = heap c /\ conversation c' = conversation c.

(** Frames are only sent out of [F]; the pending buffer is as it was. *)
Definition sends_only (F : list Uint8Array) (c c' : Console) : Prop :=
  simliAudioBufferRef c' = simliAudioBufferRef c /\
  exists l, calls c' = calls c ++ l /\ incl (sent l) F.

(** ** Real values of binary64 numbers *)

Definition bpow (e : Z) : R := powerRZ 2 e.

Definition F2R (m e : Z) : R := (IZR m * bpow e)%R.



(** [round(len * outputRate / inputRate)] in exact arithmetic, for integer
    rates: the nearest integer, ties upward. *)
Definition exact_round_ratio (len inputRate outputRate : Z) : Z :=
  (2 * (len * outputRate) + inputRate) / (2 * inputRate).

(** The rounding error allowed on a value [v]: a relative 2^-52 and an
    absolute 2^-1074. *)
Definition err (v : R) : R := (v * bpow (-52) + bpow (-1074))%R.

(** A shift record that has lost nothing: round and sticky bits clear. *)
Definition shr_exact (mrs : shr_record) : Prop :=
  shr_r mrs = false /\ shr_s mrs = false.

(** ** A concrete session

    Collaborators that all answer, a session in server-VAD mode, a stream
    player that is playing track "track-1", and a store holding one
    completed assistant item. *)

Definition example_env : Env :=
  {| new_AudioContext := Some running;
     resume_ok := true;
     close_ok := true;
     connect_ok := true;
     begin_ok := true;
     player_connect_ok := true;
     turnDetectionType := "server_vad";
     interrupt_result := Some {| trackId := Some "track-1"%string; offset := 4800 |};
     decode := fun _ => Some {| url := "blob:wav" |};
     array_limit := 4294967295 |}.

Definition closed_client : SimliClient :=
  {| pc := Some {| iceConnectionState := "new" |}; dc := None |}.

Definition open_client : SimliClient :=
  {| pc := Some {| iceConnectionState := "connected" |};
     dc := Some {| readyState := "open" |} |}.

Definition example_item : ItemType :=
  {| id := "item_1";
     role := Some "assistant"%string;
     status := Some "completed"%string;
     formatted :=
       {| text := Some "hello"%string;
          transcript := Some "hello"%string;
          audio := Some [1; 2; 3];
          output := None;
          file := None |} |}.

Definition example_console (client : option SimliClient) : Console :=
  {| simliClientRef := client;
     simliAudioBufferRef := [];
     audioContext := Some running;
     isConnected := false;
     isRecording := false;
     items := [];
     heap := [example_item];
     conversation := [0%nat];
     calls := [] |}.

(** 75 samples at 24 kHz, and the 100 bytes they make at 16 kHz. *)
Definition example_delta : Int16Array := repeat 1 (Z.to_nat 75).
Definition example_frame : Uint8Array :=
  TypedArray.buffer_bytes (repeat 1 (Z.to_nat 50)).

(** * The rest of the page *)

(** ** The API key (ConsolePage.tsx, lines 45-52 and 88-95)

    [localStorage] is the browser's: a store of strings by key, reached
    through [getItem], [setItem] and [clear].  [prompt(...)] answers with a
    string, or with [null] when the dialog is cancelled; the answer the
    user would give is an argument, and the functions tell whether they
    asked. *)

Definition Storage := string -> option string.

Module localStorage.

Definition getItem (s : Storage) (k : string) : option string := s k.

Definition setItem (s : Storage) (k v : string) : Storage :=
  fun k' => if String.eqb k' k then Some v else s k'.

Definition clear (s : Storage) : Storage := fun _ => None.

End localStorage.

Definition USE_LOCAL_RELAY_SERVER_URL : option string := None.

Definition voice_api_key : string := "tmp::voice_api_key".

(** The string of a value known to be truthy; [''] stands for the rest. *)
Definition string_of (a : option string) : string :=
  match a with
  | Some v => v
  | None => ""
  end.

(** [a || b] where [b] is a string. *)
Definition or_string (a : option string) (b : string) : string :=
  if truthy a then string_of a else b.

Record KeyRender := {
  apiKey : string;
  storage_after : Storage;
  prompted : bool
}.

(** The head of [ConsolePage] (lines 45-52): the key the page works with,
    the storage it leaves, and whether the user was asked. *)
Definition ConsolePage_apiKey (storage : Storage) (prompt : option string) : KeyRender :=
  let '(key, asked) :=
    if truthy USE_LOCAL_RELAY_SERVER_URL then (""%string, false)
    else
      let stored := localStorage.getItem storage voice_api_key in
      if truthy stored then (string_of stored, false)
      else (or_string prompt "", true) in
  {| apiKey := key;
     storage_after :=
       if negb (String.eqb key "")
       then localStorage.setItem storage voice_api_key key
       else storage;
     prompted := asked |}.

(** resetAPIKey (lines 88-95): the storage it leaves and whether the page
    is reloaded. *)
Definition resetAPIKey (storage : Storage) (prompt : option string) : Storage * bool :=
  match prompt with
  | Some key =>
      (localStorage.setItem (localStorage.clear storage) voice_api_key key, true)
  | None => (storage, false)
  end.

(** ** changeVoiceType (lines 190-201): the voice passed to [updateSession] *)

Definition allowedVoices : list string := ["shimmer"; "alloy"; "echo"]%string.

Definition includes (l : list string) (v : string) : bool :=
  existsb (String.eqb v) l.

Definition changeVoiceType (REACT_APP_VOICE : option string) : string :=
  let voice := or_string REACT_APP_VOICE "shimmer" in
  if includes allowedVoices voice then voice else "shimmer"%string.

(** ** The log of realtime events (lines 403-413)

    Of [event: Record<string, unknown>] the page reads [type] only; it is
    a string, or [undefined] when the record has none.  [count] is a
    number that the page only ever sets to an integer. *)

Record RealtimeEvent := {
  time : string;
  source : string;
  count : option Z;
  event_type : option string
}.

(** [realtimeEvents[realtimeEvents.length - 1]], [undefined] on an empty array. *)
Definition lastEvent (realtimeEvents : list RealtimeEvent) : option RealtimeEvent :=
  match realtimeEvents with
  | [] => None
  | e :: l => Some (last l e)
  end.

(** [a === b] on values that are strings or [undefined]. *)
Definition strict_eq (a b : option string) : bool :=
  match a, b with
  | Some x, Some y => String.eqb x y
  | None, None => true
  | _, _ => false
  end.

(** [count || 0]. *)
Definition count_or_0 (e : RealtimeEvent) : Z :=
  match count e with
  | Some n => n
  | None => 0
  end.

Definition set_count (n : Z) (e : RealtimeEvent) : RealtimeEvent :=
  {| time := time e; source := source e; count := Some n;
     event_type := event_type e |}.

(** The state updater given to [setRealtimeEvents]; [None] is the
    [TypeError] of [lastEvent.count = ...] on an [undefined] [lastEvent]. *)
Definition on_realtime_event (realtimeEvents : list RealtimeEvent)
  (realtimeEvent : RealtimeEvent) : option (list RealtimeEvent) :=
  match lastEvent realtimeEvents with
  | Some l =>
      if strict_eq (event_type l) (event_type realtimeEvent)
      then Some (removelast realtimeEvents ++ [set_count (count_or_0 l + 1) l])
      else Some (realtimeEvents ++ [realtimeEvent])
  | None =>
      if strict_eq None (event_type realtimeEvent)
      then None
      else Some (realtimeEvents ++ [realtimeEvent])
  end.

(** The log after a stream of events, each passed to the updater. *)
Fixpoint realtime_log (realtimeEvents : list RealtimeEvent)
  (stream : list RealtimeEvent) : option (list RealtimeEvent) :=
  match stream with
  | [] => Some realtimeEvents
  | e :: stream' =>
      match on_realtime_event realtimeEvents e with
      | Some l => realtime_log l stream'
      | None => None
      end
  end.

(** What a log stands for: each entry's type, once plus [count] times. *)
Definition occurrences (e : RealtimeEvent) : list (option string) :=
  repeat (event_type e) (Z.to_nat (count_or_0 e + 1)).

Definition expand (realtimeEvents : list RealtimeEvent) : list (option string) :=
  flat_map occurrences realtimeEvents.

(** No two neighbours of the same type. *)
Fixpoint merged (types : list (option string)) : Prop :=
  match types with
  | a :: (b :: _) as rest => strict_eq a b = false /\ merged rest
  | _ => True
  end.

(** ** The mount effect (lines 373-511) and its cleanup *)

Record Mount := {
  videoRef_current : bool;
  audioRef_current : bool;
  REACT_APP_SIMLI_API_KEY : option string;
  REACT_APP_SIMLI_FACE_ID : option string;
  new_SimliClient : SimliClient
}.

Inductive SetupCall :=
| console_error
| SimliClient_new
| SimliClient_Initialize (apiKey faceID : string)
| Client_updateSession_instructions
| Client_updateSession_input_audio_transcription
| Client_on (event : string)
| Client_reset
| SimliClient_close.

(** The avatar part of the effect (lines 377-398). *)
Definition initialize_simli (m : Mount) (c : Console) : list SetupCall * Console :=
  if videoRef_current m && audioRef_current m then
    if negb (truthy (REACT_APP_SIMLI_API_KEY m)) || negb (truthy (REACT_APP_SIMLI_FACE_ID m))
    then ([console_error], c)
    else
      ([SimliClient_new;
        SimliClient_Initialize (string_of (REACT_APP_SIMLI_API_KEY m))
          (string_of (REACT_APP_SIMLI_FACE_ID m))],
       set_simliClientRef (Some (new_SimliClient m)) c)
  else ([], c).

Definition ConsolePage_effect (m : Mount) (c : Console) : list SetupCall * Console :=
  let '(l, c1) := initialize_simli m c in
  (l ++ [Client_updateSession_instructions;
         Client_updateSession_input_audio_transcription;
         Client_on "realtime.event"; Client_on "error";
         Client_on "conversation.interrupted"; Client_on "conversation.updated"],
   set_items (conversation c1) c1).

Definition ConsolePage_cleanup (c : Console) : list SetupCall :=
  Client_reset ::
  match simliClientRef c with
  | Some _ => [SimliClient_close]
  | None => []
  end.

(** ** What the page shows (lines 558-640) *)

(** [s.replaceAll('_', ' ')]. *)
Fixpoint replaceAll_underscore (s : string) : string :=
  match s with
  | EmptyString => EmptyString
  | String a s' =>
      String (if Ascii.eqb a "_" then " "%char else a) (replaceAll_underscore s')
  end.

(** Line 561; [type] is the item's [type] field. *)
Definition displayText (role type : option string) : string :=
  replaceAll_underscore (or_string role (or_string type "")).

(** [audio?.length], as a condition. *)
Definition has_samples (a : option Int16Array) : bool :=
  match a with
  | Some (_ :: _) => true
  | _ => false
  end.

(** The text of a user's item (lines 588-592). *)
Definition user_content (f : Formatted) : string :=
  or_string (transcript f)
    (if has_samples (audio f) then "(awaiting transcript)"%string
     else or_string (text f) "(item sent)").

(** The text of an assistant's item (lines 598-600). *)
Definition assistant_content (f : Formatted) : string :=
  or_string (transcript f) (or_string (text f) "(truncated)").

(** The connect button (lines 632-640): its label and what a click runs. *)
Definition connect_button_label (c : Console) : string :=
  if isConnected c then "Disconnect"%string else "Connect"%string.

Definition connect_button_onClick (env : Env) : M unit :=
  fun c =>
    if isConnected c then disconnectConversation env c
    else connectConversation env c.

(** ** Vocabulary of the further properties *)

Definition is_audio_context_call (k : Call) : bool :=
  match k with
  | AudioContext_new | AudioContext_resume | AudioContext_close => true
  | _ => false
  end.

Definition is_createResponse (k : Call) : bool :=
  match k with Client_createResponse => true | _ => false end.

(** Events that neither connect the page (which sends the initial
    silence), nor interrupt the conversation, nor take the avatar client
    away. *)
Definition keeps_order (ev : Event) : bool :=
  match ev with
  | conversation_updated _ _ => true
  | talk_pressed | talk_released | disconnect_clicked => true
  | transport_changed (Some _) => true
  | _ => false
  end.

Definition is_conversation_updated (ev : Event) : bool :=
  match ev with
  | conversation_updated _ _ => true
  | _ => false
  end.

(** ** The resampler at the rates of the page, 24000 to 16000 *)

(** Two thirds of [n], rounded to the nearest integer. *)
Definition two_thirds (n : Z) : Z := (2 * n + 1) / 3.

(** Sample [i] of the output as a ratio of 3/2 places it: the input
    sample at [3 * i / 2] when [i] is even, and for an odd [i] the mean of
    the two input samples around [3 * i / 2], the upper one no further
    than the last, with the fraction dropped (toward zero). *)
Definition sample_3_2 (inputData : Int16Array) (i : Z) : Z :=
  let k := 3 * i / 2 in
  let upper := Z.min (k + 1) (Z.of_nat (length inputData) - 1) in
  if Z.even i then nth (Z.to_nat k) inputData 0
  else Z.quot (nth (Z.to_nat k) inputData 0 + nth (Z.to_nat upper) inputData 0) 2.

Fixpoint samples_3_2 (inputData : Int16Array) (i : Z) (count : nat) : Int16Array :=
  match count with
  | O => []
  | S count' => sample_3_2 inputData i :: samples_3_2 inputData (i + 1) count'
  end.

(** [x] is the binary64 number of [k / 2]. *)
Definition is_half (x : float) (k : Z) : Prop :=
  match Prim2SF x with
  | S754_zero _ => k = 0
  | S754_finite s m e =>
      k <> 0 /\ s = (k <? 0) /\ F2R (Z.pos m) e = F2R (Z.abs k) (-1)
  | _ => False
  end.

(** ** Further concrete sessions

    Collaborators that fail where they can: no audio context to be had, a
    session that rejects [connect()], a player that plays nothing, a
    decoder that throws. *)

Definition failing_env : Env :=
  {| new_AudioContext := None;
     resume_ok := false;
     close_ok := false;
     connect_ok := false;
     begin_ok := true;
     player_connect_ok := true;
     turnDetectionType := "none";
     interrupt_result := None;
     decode := fun _ => None;
     array_limit := 4294967295 |}.

(** A page that has no audio context yet. *)
Definition fresh_console : Console :=
  set_audioContext None (example_console None).

(** An item still being received. *)
Definition pending_item : ItemType :=
  {| id := "item_2";
     role := Some "assistant"%string;
     status := Some "in_progress"%string;
     formatted :=
       {| text := None; transcript := None; audio := Some [4; 5];
          output := None; file := None |} |}.

Definition example_event (type : string) : RealtimeEvent :=
  {| time := "2024-11-01T00:00:00.000Z"; source := "server"; count := None;
     event_type := Some type |}.

(** A mount with the video and audio elements in place, but no face id. *)
Definition example_mount : Mount :=
  {| videoRef_current := true;
     audioRef_current := true;
     REACT_APP_SIMLI_API_KEY := Some "key"%string;
     REACT_APP_SIMLI_FACE_ID := None;
     new_SimliClient := closed_client |}.

(** The model is speaking, so that the stream player has a track to
    interrupt, and the browser refuses to resume the audio context. *)
Definition resume_rejected_env : Env :=
  {| new_AudioContext := Some suspended;
     resume_ok := false;
     close_ok := true;
     connect_ok := true;
     begin_ok := true;
     player_connect_ok := true;
     turnDetectionType := "none";
     interrupt_result := Some {| trackId := Some "t1"%string; offset := 240 |};
     decode := fun _ => Some {| url := "blob:wav" |};
     array_limit := 4294967295 |}.

(** A connected page whose audio context the browser has suspended. *)
Definition suspended_console : Console :=
  set_isConnected true (set_audioContext (Some suspended) (example_console (Some open_client))).

(** ** An interruption in the course of a drain (lines 417-420, 436-441)

    The drain is [simliAudioBufferRef.current.forEach(...)]: it walks the
    array that the reference held when [forEach] was called.  The handlers
    run one at a time, so another handler runs in the course of a drain only
    if a send re-enters the session's dispatch.  [during bytes] is what runs
    in the course of the send of [bytes]; the interruption handler can only
    rebind the reference (line 419), and the walk goes on over the array it
    started with. *)
Definition sendAudioData_during (during : Uint8Array -> M unit) (bytes : Uint8Array)
  : M unit :=
  sendAudioData bytes ;; during bytes.

(** The audio delta part of the [conversation.updated] handler, with
    [during] in the course of each send of the drain. *)
Definition process_audio_delta_during (env : Env) (during : Uint8Array -> M unit)
  (delta : option Delta) : M unit :=
  match delta with
  | Some {| delta_audio := Some audioData |} =>
      current <- gets simliClientRef ;;
      match current with
      | Some _ =>
          match resampleAudioData (array_limit env) audioData 24000 16000 with
          | None => throw
          | Some resampledAudioData =>
              open <- isSimliDataChannelOpen ;;
              if open : bool then
                buffered <- gets simliAudioBufferRef ;;
                (if (0 <? Z.of_nat (length buffered))
                 then forEach buffered (sendAudioData_during during) ;;
                      modify (set_simliAudioBufferRef [])
                 else ret tt) ;;
                call (Simli_sendAudioData (TypedArray.buffer_bytes resampledAudioData))
              else
                modify (fun c =>
                  set_simliAudioBufferRef
                    (simliAudioBufferRef c ++ [TypedArray.buffer_bytes resampledAudioData]) c)
          end
      | None => ret tt
      end
  | _ => ret tt
  end.

(** The [conversation.interrupted] handler, run in the course of the send
    of the frames that [at_frame] selects. *)
Definition interrupted_during (at_frame : Uint8Array -> bool) (bytes : Uint8Array) : M unit :=
  if at_frame bytes then on_conversation_interrupted else ret tt.

(** Three buffered frames of different lengths, and the page that holds
    them behind an open channel. *)
Definition three_frames : list Uint8Array := [[1]; [2; 2]; [3; 3; 3]].

Definition draining_console : Console :=
  set_simliAudioBufferRef three_frames (example_console (Some open_client)).

(** The interruption arrives in the course of the send of the second
    frame. *)
Definition after_second (bytes : Uint8Array) : bool := (length bytes =? 2)%nat.

(** * Properties of the handlers *)

Ltac handler_unfold :=
  unfold on_conversation_updated, on_conversation_interrupted, process_audio_delta,
    decode_completed_item, deref, connectConversation, disconnectConversation,
    startRecording, stopRecording, sendAudioData, initializeAudioContext, resume,
    call_ok, call, modify, try_catch, bind, gets, ret, throw in *.

Ltac calls_appended :=
  cbn; repeat rewrite <- app_assoc; cbn;
  try (rewrite app_nil_r); try reflexivity.

Lemma new_calls_app (c c' : Console) (l : list Call) :
  calls c' = calls c ++ l -> new_calls c c' = l.
Proof.
  unfold new_calls. intros ->.
  rewrite skipn_app, skipn_all, Nat.sub_diag. reflexivity.
Qed.

Lemma sent_app (l1 l2 : list Call) : sent (l1 ++ l2) = sent l1 ++ sent l2.
Proof. unfold sent. apply flat_map_app. Qed.

Lemma sent_map_send (l : list Uint8Array) : sent (map Simli_sendAudioData l) = l.
Proof. induction l as [|x l IH]; cbn; [reflexivity|]. now f_equal. Qed.

Lemma cancellations_app (l1 l2 : list Call) :
  cancellations (l1 ++ l2) = cancellations l1 ++ cancellations l2.
Proof. unfold cancellations. apply flat_map_app. Qed.

Lemma gate_openb_iff (current : option SimliClient) :
  gate_openb current = true <-> gate_open current.
Proof.
  unfold gate_open. split.
  - destruct current as [[[p|] [d|]]|]; cbn; try discriminate.
    intros H. apply andb_true_iff in H as [H1 H2].
    apply String.eqb_eq in H1, H2.
    exists {| pc := Some p; dc := Some d |}, p, d. auto.
  - intros (client & p & d & -> & Ep & Hp & Ed & Hd).
    destruct client as [pc0 dc0]. cbn in Ep, Ed. subst pc0 dc0. cbn.
    apply andb_true_iff. split; now apply String.eqb_eq.
Qed.

Lemma isSimliDataChannelOpen_eq (c : Console) :
  isSimliDataChannelOpen c = (Normal (gate_openb (simliClientRef c)), c).
Proof.
  unfold isSimliDataChannelOpen, bind, gets, ret.
  destruct (simliClientRef c) as [[[p|] [d|]]|]; cbn; try reflexivity.
  now rewrite andb_false_r.
Qed.

(** The drain: with the avatar client present, [forEach] over the buffer
    calls [sendAudioData] once per frame, head to tail, and nothing else. *)
Lemma forEach_sendAudioData (l : list Uint8Array) (c : Console) :
  simliClientRef c <> None ->
  exists c',
    forEach l sendAudioData c = (Normal tt, c') /\
    calls c' = calls c ++ map Simli_sendAudioData l /\
    simliClientRef c' = simliClientRef c /\
    simliAudioBufferRef c' = simliAudioBufferRef c /\
    heap c' = heap c /\ conversation c' = conversation c /\
    audioContext c' = audioContext c /\ items c' = items c /\
    isConnected c' = isConnected c /\ isRecording c' = isRecording c.
Proof.
  revert c. induction l as [|x l IH]; intros c Hc.
  - exists c. cbn. rewrite app_nil_r. repeat split; reflexivity.
  - cbn [forEach]. unfold bind at 1. unfold sendAudioData at 1.
    unfold bind, gets, call, modify.
    destruct (simliClientRef c) as [cl|] eqn:E; [|contradiction].
    destruct (IH (add_call (Simli_sendAudioData x) c)) as (c' & H1 & H2 & H3 & H4 & H5).
    { cbn. rewrite E. discriminate. }
    exists c'. split; [exact H1|]. cbn in *. rewrite <- app_assoc in H2.
    rewrite E in *. repeat split; try tauto.
Qed.

(** The audio delta part of the handler, case by case. *)
Lemma process_audio_delta_no_client (env : Env) (delta : option Delta) (c : Console) :
  simliClientRef c = None -> process_audio_delta env delta c = (Normal tt, c).
Proof.
  intros H. handler_unfold. destruct delta as [[[a|]]|]; try reflexivity.
  now rewrite H.
Qed.

Lemma process_audio_delta_closed (env : Env) (a : Int16Array) (f : Uint8Array)
  (c : Console) :
  simliClientRef c <> None -> gate_openb (simliClientRef c) = false ->
  frame env a = Some f ->
  process_audio_delta env (Some {| delta_audio := Some a |}) c =
    (Normal tt, set_simliAudioBufferRef (simliAudioBufferRef c ++ [f]) c).
Proof.
  intros Hc Hg Hf. unfold frame in Hf.
  unfold process_audio_delta. unfold bind at 1. unfold gets at 1.
  destruct (simliClientRef c) as [cl|] eqn:E; [|contradiction].
  destruct (resampleAudioData _ a _ _) as [r|]; [|discriminate].
  cbn in Hf. injection Hf as <-.
  unfold bind. rewrite isSimliDataChannelOpen_eq, E, Hg. reflexivity.
Qed.

Lemma process_audio_delta_open (env : Env) (a : Int16Array) (f : Uint8Array)
  (c : Console) :
  gate_openb (simliClientRef c) = true ->
  frame env a = Some f ->
  exists c',
    process_audio_delta env (Some {| delta_audio := Some a |}) c = (Normal tt, c') /\
    calls c' = calls c ++ map Simli_sendAudioData (simliAudioBufferRef c ++ [f]) /\
    simliAudioBufferRef c' = [] /\
    simliClientRef c' = simliClientRef c /\
    heap c' = heap c /\ conversation c' = conversation c /\
    audioContext c' = audioContext c.
Proof.
  intros Hg Hf. unfold frame in Hf.
  assert (Hc : simliClientRef c <> None).
  { intros E. rewrite E in Hg. discriminate. }
  unfold process_audio_delta. unfold bind at 1. unfold gets at 1.
  destruct (simliClientRef c) as [cl|] eqn:E; [|contradiction].
  destruct (resampleAudioData _ a _ _) as [r|]; [|discriminate].
  cbn in Hf. injection Hf as <-.
  unfold bind at 1. rewrite isSimliDataChannelOpen_eq, E, Hg.
  unfold bind at 1. unfold gets at 1.
  destruct (simliAudioBufferRef c) as [|x l] eqn:Eb.
  - cbn. eexists. split; [reflexivity|]. cbn. rewrite E, Eb. repeat split; reflexivity.
  - replace (0 <? Z.of_nat (length (x :: l))) with true
      by (symmetry; apply Z.ltb_lt; cbn [length]; lia).
    destruct (forEach_sendAudioData (x :: l) c) as (c' & H1 & H2 & H3 & H4 & H5 & H6 & H7 & _).
    { rewrite E. discriminate. }
    unfold bind. rewrite H1. unfold modify, call, modify. cbn [fst snd].
    eexists. split; [reflexivity|]. cbn. rewrite H2, H3, H5, H6, H7, E.
    rewrite map_app, <- app_assoc. repeat split; reflexivity.
Qed.

(** ** Effects of the monad's operations, for a preorder on states *)

Section Effects.

Variable R : Console -> Console -> Prop.
Hypothesis R_refl : forall c, R c c.
Hypothesis R_trans : forall c1 c2 c3, R c1 c2 -> R c2 c3 -> R c1 c3.

Lemma effect_ret {A} (a : A) : effect R (ret a).
Proof. intros c. apply R_refl. Qed.

Lemma effect_throw {A} : effect R (@throw A).
Proof. intros c. apply R_refl. Qed.

Lemma effect_gets {A} (f : Console -> A) : effect R (gets f).
Proof. intros c. apply R_refl. Qed.

Lemma effect_modify (f : Console -> Console) :
  (forall c, R c (f c)) -> effect R (modify f).
Proof. intros H c. apply H. Qed.

Lemma effect_bind {A B} (m : M A) (k : A -> M B) :
  effect R m -> (forall a, effect R (k a)) -> effect R (bind m k).
Proof.
  intros Hm Hk c. unfold bind. specialize (Hm c).
  destruct (m c) as [[a|] c']; cbn in *; [|exact Hm].
  eapply R_trans; [exact Hm|apply Hk].
Qed.

Lemma effect_try_catch {A} (m h : M A) :
  effect R m -> effect R h -> effect R (try_catch m h).
Proof.
  intros Hm Hh c. unfold try_catch. specialize (Hm c).
  destruct (m c) as [[a|] c']; cbn in *; [exact Hm|].
  eapply R_trans; [exact Hm|apply Hh].
Qed.

Lemma effect_call_ok (k : Call) (ok : bool) :
  (forall c, R c (add_call k c)) -> effect R (call_ok k ok).
Proof.
  intros H. unfold call_ok, call. apply effect_bind.
  - now apply effect_modify.
  - intros _. destruct ok; [apply effect_ret|apply effect_throw].
Qed.

Lemma effect_forEach {A} (l : list A) (f : A -> M unit) :
  (forall x, effect R (f x)) -> effect R (forEach l f).
Proof.
  intros H. induction l as [|x l IH]; cbn.
  - apply effect_ret.
  - apply effect_bind; auto.
Qed.

End Effects.

Lemma adds_no_refl (P : Call -> bool) (c : Console) : adds_no P c c.
Proof. exists []. now rewrite app_nil_r. Qed.

Lemma adds_no_trans (P : Call -> bool) (c1 c2 c3 : Console) :
  adds_no P c1 c2 -> adds_no P c2 c3 -> adds_no P c1 c3.
Proof.
  intros (l1 & E1 & F1) (l2 & E2 & F2). exists (l1 ++ l2).
  rewrite E2, E1, <- app_assoc, filter_app, F1, F2. auto.
Qed.

Lemma adds_no_add_call (P : Call -> bool) (k : Call) (c : Console) :
  P k = false -> adds_no P c (add_call k c).
Proof. intros H. exists [k]. cbn. now rewrite H. Qed.

Lemma pipeline_untouched_refl (c : Console) : pipeline_untouched c c.
Proof. repeat split. apply adds_no_refl. Qed.

Lemma pipeline_untouched_trans (c1 c2 c3 : Console) :
  pipeline_untouched c1 c2 -> pipeline_untouched c2 c3 -> pipeline_untouched c1 c3.
Proof.
  intros (A1 & B1 & C1) (A2 & B2 & C2). repeat split; try congruence.
  eapply adds_no_trans; eauto.
Qed.

Lemma pipeline_untouched_add_call (k : Call) (c : Console) :
  is_send k = false -> pipeline_untouched c (add_call k c).
Proof. intros H. repeat split. now apply adds_no_add_call. Qed.

Lemma sent_filter (l : list Call) : filter is_send l = [] -> sent l = [].
Proof.
  induction l as [|k l IH]; cbn; [reflexivity|].
  destruct k; cbn; try exact IH. discriminate.
Qed.

(** Decomposing a handler into the monad's operations. *)
Ltac effect_step R_refl R_trans :=
  cbv beta zeta;
  lazymatch goal with
  | |- effect _ (ret _) => apply (effect_ret _ R_refl)
  | |- effect _ throw => apply (effect_throw _ R_refl)
  | |- effect _ (gets _) => apply (effect_gets _ R_refl)
  | |- effect _ (call_ok _ _) => apply (effect_call_ok _ R_refl R_trans); intros ?
  | |- effect _ (forEach _ _) => apply (effect_forEach _ R_refl R_trans); intros ?
  | |- effect _ (bind _ _) => apply (effect_bind _ R_trans); [|intros ?]
  | |- effect _ (try_catch _ _) => apply (effect_try_catch _ R_trans)
  | |- effect _ (modify _) => apply effect_modify; intros ?
  | |- effect _ (match ?x with _ => _ end) => destruct x
  end.

Ltac effect_steps R_refl R_trans := repeat effect_step R_refl R_trans.

Ltac untouched :=
  first
    [ apply pipeline_untouched_refl
    | apply pipeline_untouched_add_call; reflexivity
    | (repeat split; cbn; try reflexivity; exists []; cbn;
       rewrite app_nil_r; split; reflexivity) ].

Lemma resume_untouched (env : Env) : effect pipeline_untouched (resume env).
Proof.
  unfold resume, call.
  effect_steps pipeline_untouched_refl pipeline_untouched_trans; untouched.
Qed.

Lemma initializeAudioContext_untouched (env : Env) :
  effect pipeline_untouched (initializeAudioContext env).
Proof.
  unfold initializeAudioContext, call.
  effect_steps pipeline_untouched_refl pipeline_untouched_trans; untouched.
Qed.

Lemma decode_completed_item_untouched (env : Env) (item : nat) :
  effect pipeline_untouched (decode_completed_item env item).
Proof.
  unfold decode_completed_item, deref, call.
  effect_steps pipeline_untouched_refl pipeline_untouched_trans;
    try apply resume_untouched; try apply initializeAudioContext_untouched;
    untouched.
Qed.

Lemma store_untouched_refl (c : Console) : store_untouched c c.
Proof. split; reflexivity. Qed.

Lemma store_untouched_trans (c1 c2 c3 : Console) :
  store_untouched c1 c2 -> store_untouched c2 c3 -> store_untouched c1 c3.
Proof. intros [A1 B1] [A2 B2]. split; congruence. Qed.

Lemma sendAudioData_store (env : Env) (b : Uint8Array) :
  effect store_untouched (sendAudioData b).
Proof.
  unfold sendAudioData, call.
  repeat effect_step store_untouched_refl store_untouched_trans; split; reflexivity.
Qed.

Lemma process_audio_delta_store (env : Env) (delta : option Delta) :
  effect store_untouched (process_audio_delta env delta).
Proof.
  unfold process_audio_delta, isSimliDataChannelOpen, call.
  repeat effect_step store_untouched_refl store_untouched_trans;
    try apply (sendAudioData_store env); try (split; reflexivity).
Qed.

(** *** The pending buffer across a [conversation.updated] event *)

Lemma on_conversation_updated_eq (env : Env) (item : nat) (delta : option Delta)
  (c : Console) :
  on_conversation_updated env item delta c =
    match process_audio_delta env delta c with
    | (Normal _, c1) =>
        match decode_completed_item env item c1 with
        | (Normal _, c2) => (Normal tt, set_items (conversation c) c2)
        | (Throw, c2) => (Throw, c2)
        end
    | (Throw, c1) => (Throw, c1)
    end.
Proof.
  unfold on_conversation_updated, bind, gets, modify.
  destruct (process_audio_delta env delta c) as [[[]|] c1]; [|reflexivity].
  destruct (decode_completed_item env item c1) as [[[]|] c2]; reflexivity.
Qed.

Lemma step_updated_pipeline (env : Env) (item : nat) (delta : option Delta)
  (c : Console) :
  let c1 := snd (process_audio_delta env delta c) in
  let c2 := step env c (conversation_updated item delta) in
  simliClientRef c2 = simliClientRef c1 /\
  simliAudioBufferRef c2 = simliAudioBufferRef c1 /\
  exists l, calls c2 = calls c1 ++ l /\ sent l = [].
Proof.
  cbn zeta. unfold step, handler. rewrite on_conversation_updated_eq.
  destruct (process_audio_delta env delta c) as [[[]|] c1]; cbn [snd].
  - pose proof (decode_completed_item_untouched env item c1) as H.
    unfold pipeline_untouched, adds_no in H. cbv beta in H.
    destruct H as (A & B & l & C & D).
    destruct (decode_completed_item env item c1) as [[[]|] c2]; cbn [snd] in *.
    + cbn. repeat split; auto. exists l. split; [assumption|now apply sent_filter].
    + repeat split; auto. exists l. split; [assumption|now apply sent_filter].
  - repeat split. exists []. now rewrite app_nil_r.
Qed.

Lemma run_app (env : Env) (c : Console) (l1 l2 : list Event) :
  run env c (l1 ++ l2) = run env (run env c l1) l2.
Proof. unfold run. apply fold_left_app. Qed.

(** While the gate is closed, audio deltas are only appended. *)
Lemma run_closed (env : Env) (deltas : list (nat * Int16Array))
  (frames : list Uint8Array) (c : Console) :
  simliClientRef c <> None ->
  gate_openb (simliClientRef c) = false ->
  Forall2 (fun d f => frame env (snd d) = Some f) deltas frames ->
  let c1 := run env c (map audio_event deltas) in
  simliClientRef c1 = simliClientRef c /\
  simliAudioBufferRef c1 = simliAudioBufferRef c ++ frames /\
  sent (calls c1) = sent (calls c).
Proof.
  intros Hc Hg HF. revert c Hc Hg.
  induction HF as [|d f deltas frames Hd HF IH]; intros c Hc Hg; cbn zeta.
  - cbn. now rewrite app_nil_r.
  - cbn [map run fold_left]. fold (run env).
    pose proof (step_updated_pipeline env (fst d) (Some {| delta_audio := Some (snd d) |}) c)
      as (A & B & l & C & D).
    rewrite (process_audio_delta_closed env _ f c Hc Hg Hd) in A, B, C.
    cbn [snd] in A, B, C. cbn in A, B, C.
    fold (audio_event d) in A, B, C.
    set (c' := step env c (audio_event d)) in *.
    destruct (IH c') as (A' & B' & C').
    + now rewrite A.
    + now rewrite A.
    + cbn zeta in *. change (fold_left (step env) ?l ?x) with (run env x l).
      rewrite A', B', C', A, B, C, sent_app, D, app_nil_r, <- app_assoc.
      auto.
Qed.

(** *** Handlers that leave the avatar pipeline alone *)

Lemma startRecording_untouched (env : Env) : effect pipeline_untouched (startRecording env).
Proof.
  unfold startRecording, call.
  repeat effect_step pipeline_untouched_refl pipeline_untouched_trans;
    try apply resume_untouched; try apply initializeAudioContext_untouched;
    untouched.
Qed.

Lemma stopRecording_untouched (env : Env) : effect pipeline_untouched stopRecording.
Proof.
  unfold stopRecording, call.
  repeat effect_step pipeline_untouched_refl pipeline_untouched_trans; untouched.
Qed.

Lemma disconnectConversation_untouched (env : Env) :
  effect pipeline_untouched (disconnectConversation env).
Proof.
  unfold disconnectConversation, call.
  repeat effect_step pipeline_untouched_refl pipeline_untouched_trans; untouched.
Qed.

Lemma sends_only_refl (F : list Uint8Array) (c : Console) : sends_only F c c.
Proof. split; [reflexivity|]. exists []. rewrite app_nil_r. split; [reflexivity|]. intros x []. Qed.

Lemma sends_only_trans (F : list Uint8Array) (c1 c2 c3 : Console) :
  sends_only F c1 c2 -> sends_only F c2 c3 -> sends_only F c1 c3.
Proof.
  intros (A1 & l1 & E1 & I1) (A2 & l2 & E2 & I2). split; [congruence|].
  exists (l1 ++ l2). rewrite E2, E1, <- app_assoc, sent_app. split; [reflexivity|].
  now apply incl_app.
Qed.

Lemma pipeline_untouched_sends_only (F : list Uint8Array) (c c' : Console) :
  pipeline_untouched c c' -> sends_only F c c'.
Proof.
  intros (A & B & l & C & D). split; [exact B|]. exists l. split; [exact C|].
  rewrite (sent_filter l D). intros x [].
Qed.

Lemma effect_weaken {A} (R R' : Console -> Console -> Prop) (m : M A) :
  (forall c c', R c c' -> R' c c') -> effect R m -> effect R' m.
Proof. intros H Hm c. apply H, Hm. Qed.

Lemma connectConversation_sends (env : Env) :
  effect (sends_only [initial_silence]) (connectConversation env).
Proof.
  set (F := [initial_silence]).
  unfold connectConversation, call.
  repeat effect_step (sends_only_refl F) (sends_only_trans F);
    try (apply (effect_weaken pipeline_untouched);
         [apply pipeline_untouched_sends_only
         |first [apply resume_untouched|apply initializeAudioContext_untouched]]);
    try (apply pipeline_untouched_sends_only; untouched).
  split; [reflexivity|]. eexists [_]. split; [reflexivity|]. cbn. intros x H. exact H.
Qed.

(** What one event can send, and what it can leave in the buffer. *)
Lemma step_frames (env : Env) (ev : Event) (c : Console) (P : Uint8Array -> Prop) :
  (forall x, In x (simliAudioBufferRef c) -> P x) ->
  (forall x, In x (frames_created env ev) -> P x) ->
  exists l,
    calls (step env c ev) = calls c ++ l /\
    (forall x, In x (sent l) -> P x) /\
    (forall x, In x (simliAudioBufferRef (step env c ev)) -> P x).
Proof.
  intros Hb He.
  assert (Hs : forall F, incl F (frames_created env ev) ->
             forall c', sends_only F c c' ->
             exists l, calls c' = calls c ++ l /\
               (forall x, In x (sent l) -> P x) /\
               (forall x, In x (simliAudioBufferRef c') -> P x)).
  { intros F HF c' (A & l & B & C). exists l. split; [exact B|]. split.
    - intros x Hx. apply He, HF, C, Hx.
    - rewrite A. exact Hb. }
  destruct ev as [item delta| | | | | |client].
  - (* conversation.updated *)
    destruct (step_updated_pipeline env item delta c) as (A & B & l & C & D).
    cbn zeta in A, B, C.
    assert (Hp : exists l1, calls (snd (process_audio_delta env delta c)) = calls c ++ l1 /\
               (forall x, In x (sent l1) -> P x) /\
               (forall x, In x (simliAudioBufferRef (snd (process_audio_delta env delta c))) -> P x)).
    { destruct delta as [[[a|]]|];
        try (exists []; cbn; rewrite app_nil_r; repeat split; [intros x []|exact Hb]).
      destruct (simliClientRef c) as [cl|] eqn:Ecl.
      2:{ rewrite process_audio_delta_no_client by exact Ecl.
          exists []; cbn; rewrite app_nil_r; repeat split; [intros x []|exact Hb]. }
      destruct (frame env a) as [f|] eqn:Ef.
      - assert (Pf : P f). { apply He. cbn. rewrite Ef. now left. }
        destruct (gate_openb (simliClientRef c)) eqn:Eg.
        + destruct (process_audio_delta_open env a f c Eg Ef) as (c' & H1 & H2 & H3 & _).
          rewrite H1. cbn [snd]. eexists. split; [exact H2|]. split.
          * rewrite sent_map_send. intros x Hx. apply in_app_or in Hx as [Hx|[<-|[]]]; auto.
          * rewrite H3. intros x [].
        + rewrite (process_audio_delta_closed env a f c); auto.
          2:{ rewrite Ecl. discriminate. }
          cbn. exists []. rewrite app_nil_r. repeat split; [intros x []|].
          intros x Hx. apply in_app_or in Hx as [Hx|[<-|[]]]; auto.
      - unfold frame in Ef. unfold process_audio_delta, bind, gets. rewrite Ecl.
        destruct (resampleAudioData _ a _ _); [discriminate|]. cbn.
        exists []; rewrite app_nil_r; repeat split; [intros x []|exact Hb]. }
    destruct Hp as (l1 & H1 & H2 & H3).
    exists (l1 ++ l). rewrite C, H1, <- app_assoc. split; [reflexivity|]. split.
    + rewrite sent_app, D, app_nil_r. exact H2.
    + rewrite B. exact H3.
  - exists []. cbn. rewrite app_nil_r. repeat split; intros x [].
  - apply (Hs []); [intros x []|].
    apply pipeline_untouched_sends_only, startRecording_untouched.
  - apply (Hs []); [intros x []|].
    apply pipeline_untouched_sends_only, (stopRecording_untouched env).
  - apply (Hs [initial_silence]); [intros x Hx; exact Hx|].
    apply connectConversation_sends.
  - apply (Hs []); [intros x []|].
    apply pipeline_untouched_sends_only, disconnectConversation_untouched.
  - exists []. cbn. rewrite app_nil_r. repeat split; [intros x []|exact Hb].
Qed.

Lemma run_frames (env : Env) (evs : list Event) (c : Console) (P : Uint8Array -> Prop) :
  (forall x, In x (simliAudioBufferRef c) -> P x) ->
  (forall x, In x (flat_map (frames_created env) evs) -> P x) ->
  exists l,
    calls (run env c evs) = calls c ++ l /\
    (forall x, In x (sent l) -> P x) /\
    (forall x, In x (simliAudioBufferRef (run env c evs)) -> P x).
Proof.
  revert c. induction evs as [|ev evs IH]; intros c Hb He.
  - exists []. cbn. rewrite app_nil_r. repeat split; [intros x []|exact Hb].
  - cbn [flat_map] in He.
    destruct (step_frames env ev c P Hb) as (l1 & A1 & B1 & C1).
    { intros x Hx. apply He, in_or_app. now left. }
    destruct (IH (step env c ev) C1) as (l2 & A2 & B2 & C2).
    { intros x Hx. apply He, in_or_app. now right. }
    exists (l1 ++ l2). cbn [run fold_left]. change (fold_left (step env) ?l ?x) with (run env x l).
    rewrite A2, A1, <- app_assoc, sent_app. repeat split; auto.
    intros x Hx. apply in_app_or in Hx as [Hx|Hx]; auto.
Qed.

(** ** The readiness gate *)

(** C7. [isSimliDataChannelOpen] returns [true] exactly when the avatar
    client exists, its peer connection is present and reports
    iceConnectionState 'connected', and its data channel is present and
    reports readyState 'open'; it returns [false] when the client, the peer
    connection or the data channel is absent; it always returns normally
    and leaves the whole state as it found it. *)
Theorem isSimliDataChannelOpen_spec (c : Console) :
  exists b : bool,
    isSimliDataChannelOpen c = (Normal b, c) /\
    (b = true <-> gate_open (simliClientRef c)) /\
    (simliClientRef c = None -> b = false) /\
    (forall client, simliClientRef c = Some client ->
       pc client = None \/ dc client = None -> b = false).
Proof.
  exists (gate_openb (simliClientRef c)).
  split; [apply isSimliDataChannelOpen_eq|].
  split; [apply gate_openb_iff|].
  split.
  - now intros ->.
  - intros [p d] -> [H|H]; cbn in H; subst; cbn; [reflexivity|].
    now destruct p.
Qed.

(** ** The pending audio buffer *)

(** C2. Frames that arrive while the gate is closed are only appended to
    the pending buffer and none is sent; the first delta that arrives with
    the gate open has every buffered frame passed to [sendAudioData] once,
    in insertion order, then the new frame, and leaves the buffer empty. *)
Theorem buffered_frames_flushed_in_order (env : Env) (c : Console)
  (deltas : list (nat * Int16Array)) (frames : list Uint8Array)
  (d : nat * Int16Array) (f : Uint8Array) (client' : SimliClient) :
  simliClientRef c <> None ->
  ~ gate_open (simliClientRef c) ->
  Forall2 (fun d f => frame env (snd d) = Some f) deltas frames ->
  frame env (snd d) = Some f ->
  gate_open (Some client') ->
  let c1 := run env c (map audio_event deltas) in
  let c2 := run env c1 [transport_changed (Some client'); audio_event d] in
  sent (calls c1) = sent (calls c) /\
  simliAudioBufferRef c1 = simliAudioBufferRef c ++ frames /\
  sent (calls c2) = sent (calls c) ++ (simliAudioBufferRef c ++ frames) ++ [f] /\
  simliAudioBufferRef c2 = [].
Proof.
  intros Hc Hg HF Hf Hg' c1 c2.
  assert (Hgb : gate_openb (simliClientRef c) = false).
  { destruct (gate_openb (simliClientRef c)) eqn:E; [|reflexivity].
    apply gate_openb_iff in E. contradiction. }
  apply gate_openb_iff in Hg'.
  destruct (run_closed env deltas frames c Hc Hgb HF) as (A & B & C).
  fold c1 in A, B, C.
  split; [exact C|]. split; [exact B|].
  subst c2. cbn [run fold_left].
  change (step env c1 (transport_changed (Some client')))
    with (set_simliClientRef (Some client') c1).
  set (c1' := set_simliClientRef (Some client') c1).
  destruct (step_updated_pipeline env (fst d) (Some {| delta_audio := Some (snd d) |}) c1')
    as (A2 & B2 & l & C2 & D2).
  destruct (process_audio_delta_open env (snd d) f c1' Hg' Hf) as (c' & H1 & H2 & H3 & _).
  rewrite H1 in A2, B2, C2. cbn [snd] in A2, B2, C2.
  fold (audio_event d) in A2, B2, C2.
  rewrite B2, H3, C2, H2. split; [|reflexivity].
  rewrite !sent_app, D2, app_nil_r, sent_map_send.
  change (calls c1') with (calls c1).
  change (simliAudioBufferRef c1') with (simliAudioBufferRef c1).
  rewrite C, B. reflexivity.
Qed.

(** The drain with interruptions in the course of its sends: every frame
    of the array being walked is sent all the same. *)
Lemma forEach_sendAudioData_during (at_frame : Uint8Array -> bool)
  (l : list Uint8Array) (c : Console) :
  simliClientRef c <> None ->
  exists c',
    forEach l (sendAudioData_during (interrupted_during at_frame)) c = (Normal tt, c') /\
    calls c' = calls c ++ map Simli_sendAudioData l /\
    simliClientRef c' = simliClientRef c.
Proof.
  revert c. induction l as [|x l IH]; intros c Hc.
  - exists c. cbn. rewrite app_nil_r. repeat split; reflexivity.
  - cbn [forEach]. unfold bind at 1. unfold sendAudioData_during at 1.
    unfold bind at 1. unfold sendAudioData at 1.
    unfold bind, gets, call, modify.
    destruct (simliClientRef c) as [cl|] eqn:E; [|contradiction].
    unfold interrupted_during at 1, on_conversation_interrupted, modify, ret.
    destruct (at_frame x).
    + destruct (IH (set_simliAudioBufferRef [] (add_call (Simli_sendAudioData x) c)))
        as (c' & H1 & H2 & H3).
      { cbn. rewrite E. discriminate. }
      exists c'. split; [exact H1|]. cbn in *. rewrite <- app_assoc in H2.
      rewrite E in *. split; assumption.
    + destruct (IH (add_call (Simli_sendAudioData x) c)) as (c' & H1 & H2 & H3).
      { cbn. rewrite E. discriminate. }
      exists c'. split; [exact H1|]. cbn in *. rewrite <- app_assoc in H2.
      rewrite E in *. split; assumption.
Qed.

Lemma process_audio_delta_during_open (env : Env) (at_frame : Uint8Array -> bool)
  (a : Int16Array) (f : Uint8Array) (c : Console) :
  gate_openb (simliClientRef c) = true ->
  frame env a = Some f ->
  exists c',
    process_audio_delta_during env (interrupted_during at_frame)
      (Some {| delta_audio := Some a |}) c = (Normal tt, c') /\
    calls c' = calls c ++ map Simli_sendAudioData (simliAudioBufferRef c ++ [f]) /\
    simliAudioBufferRef c' = [].
Proof.
  intros Hg Hf. unfold frame in Hf.
  assert (Hc : simliClientRef c <> None).
  { intros E. rewrite E in Hg. discriminate. }
  unfold process_audio_delta_during. unfold bind at 1. unfold gets at 1.
  destruct (simliClientRef c) as [cl|] eqn:E; [|contradiction].
  destruct (resampleAudioData _ a _ _) as [r|]; [|discriminate].
  cbn in Hf. injection Hf as <-.
  unfold bind at 1. rewrite isSimliDataChannelOpen_eq, E, Hg.
  unfold bind at 1. unfold gets at 1.
  destruct (simliAudioBufferRef c) as [|x l] eqn:Eb.
  - cbn. eexists. split; [reflexivity|]. cbn. rewrite Eb. split; reflexivity.
  - replace (0 <? Z.of_nat (length (x :: l))) with true
      by (symmetry; apply Z.ltb_lt; cbn [length]; lia).
    destruct (forEach_sendAudioData_during at_frame (x :: l) c) as (c' & H1 & H2 & H3).
    { rewrite E. discriminate. }
    unfold bind. rewrite H1. unfold modify, call, modify. cbn [fst snd].
    eexists. split; [reflexivity|]. cbn. rewrite H2.
    rewrite map_app, <- app_assoc. split; reflexivity.
Qed.

(** With nothing in the course of the sends, the handler is the one of the
    page. *)
Lemma forEach_sendAudioData_during_nothing (l : list Uint8Array) (c : Console) :
  forEach l (sendAudioData_during (fun _ => ret tt)) c = forEach l sendAudioData c.
Proof.
  revert c. induction l as [|x l IH]; intros c; [reflexivity|].
  cbn [forEach]. unfold sendAudioData_during. unfold bind, ret.
  destruct (sendAudioData x c) as [[[]|] c']; [apply IH|reflexivity].
Qed.

Lemma process_audio_delta_during_nothing (env : Env) (delta : option Delta) (c : Console) :
  process_audio_delta_during env (fun _ => ret tt) delta c = process_audio_delta env delta c.
Proof.
  unfold process_audio_delta_during, process_audio_delta.
  destruct delta as [[[a|]]|]; try reflexivity.
  unfold bind, gets.
  destruct (simliClientRef c); [|reflexivity].
  destruct (resampleAudioData _ a _ _) as [r|]; [|reflexivity].
  destruct (isSimliDataChannelOpen c) as [[[]|] c1]; try reflexivity.
  destruct (0 <? _); [|reflexivity].
  rewrite forEach_sendAudioData_during_nothing. reflexivity.
Qed.

(** C4 (amended). Handling [conversation.interrupted] leaves the pending
    buffer empty, whatever it held, and the state it leaves does not depend
    on what was buffered; whatever events follow, every frame passed to
    [sendAudioData] afterwards, and every frame left in the buffer, is a
    frame created by one of those later events.  That is for an
    interruption handled between two handlers, which is how the page's
    handlers run.  An interruption handled in the course of a drain does
    not stop the drain: it rebinds the reference, the [forEach] goes on over
    the array it started with, and every frame that was buffered is sent,
    followed by the frame of the delta. *)
Theorem interruption_discards_buffer (env : Env) (c : Console) :
  let c0 := step env c conversation_interrupted in
  simliAudioBufferRef c0 = [] /\
  (forall b, step env (set_simliAudioBufferRef b c) conversation_interrupted = c0) /\
  (forall evs x,
     In x (sent (new_calls c0 (run env c0 evs))) ->
     In x (flat_map (frames_created env) evs)) /\
  (forall evs x,
     In x (simliAudioBufferRef (run env c0 evs)) ->
     In x (flat_map (frames_created env) evs)) /\
  (forall (at_frame : Uint8Array -> bool) (a : Int16Array) (f : Uint8Array),
     gate_open (simliClientRef c) -> frame env a = Some f ->
     let c' := snd (process_audio_delta_during env (interrupted_during at_frame)
                      (Some {| delta_audio := Some a |}) c) in
     sent (new_calls c c') = simliAudioBufferRef c ++ [f] /\
     simliAudioBufferRef c' = []).
Proof.
  cbn zeta. split; [reflexivity|]. split; [reflexivity|].
  set (c0 := step env c conversation_interrupted).
  assert (H : forall evs, exists l,
             calls (run env c0 evs) = calls c0 ++ l /\
             (forall x, In x (sent l) -> In x (flat_map (frames_created env) evs)) /\
             (forall x, In x (simliAudioBufferRef (run env c0 evs)) ->
                        In x (flat_map (frames_created env) evs))).
  { intros evs. apply run_frames; [intros x []|auto]. }
  split; [|split].
  - intros evs x. destruct (H evs) as (l & A & B & C).
    rewrite (new_calls_app _ _ _ A). apply B.
  - intros evs x. destruct (H evs) as (l & A & B & C). apply C.
  - intros at_frame a f Hg Hf. apply gate_openb_iff in Hg.
    destruct (process_audio_delta_during_open env at_frame a f c Hg Hf) as (c' & E & A & B).
    rewrite E. cbn [snd]. split; [|exact B].
    rewrite (new_calls_app _ _ _ A). apply sent_map_send.
Qed.

(** The scenario of C4, where the claim fails: three frames are buffered
    behind an open channel, a delta starts the drain, and the interruption
    is handled in the course of the send of the second frame.  At that
    point two frames have been sent and the reference holds an empty
    buffer; the third frame is sent all the same, before the frame of the
    delta. *)
Lemma interruption_inside_drain :
  gate_open (simliClientRef draining_console) /\
  simliAudioBufferRef draining_console = [[1]; [2; 2]; [3; 3; 3]] /\
  (let c1 := snd (forEach [[1]; [2; 2]]
                    (sendAudioData_during (interrupted_during after_second))
                    draining_console) in
   sent (new_calls draining_console c1) = [[1]; [2; 2]] /\
   simliAudioBufferRef c1 = []) /\
  (let c' := snd (process_audio_delta_during example_env (interrupted_during after_second)
                    (Some {| delta_audio := Some example_delta |}) draining_console) in
   sent (new_calls draining_console c') = [[1]; [2; 2]; [3; 3; 3]; example_frame] /\
   In [3; 3; 3] (sent (new_calls draining_console c'))).
Proof.
  split; [apply gate_openb_iff; reflexivity|].
  split; [reflexivity|].
  split; [vm_compute; split; reflexivity|].
  cbv zeta.
  assert (E : sent (new_calls draining_console
                (snd (process_audio_delta_during example_env
                        (interrupted_during after_second)
                        (Some {| delta_audio := Some example_delta |}) draining_console)))
              = [[1]; [2; 2]; [3; 3; 3]; example_frame])
    by (vm_compute; reflexivity).
  split; [exact E|]. rewrite E. cbn. tauto.
Qed.

(** C10. With no avatar client ([simliClientRef.current] null) an audio
    delta is dropped: the audio part of the handler returns at once with
    the state unchanged, also for a delta whose resampling would throw,
    so the handler does what it does for an event without a delta; nothing
    is sent and the pending buffer is as it was. *)
Theorem delta_dropped_without_client (env : Env) (c : Console) (item : nat)
  (delta : option Delta) :
  simliClientRef c = None ->
  process_audio_delta env delta c = (Normal tt, c) /\
  on_conversation_updated env item delta c = on_conversation_updated env item None c /\
  simliAudioBufferRef (step env c (conversation_updated item delta)) = simliAudioBufferRef c /\
  sent (calls (step env c (conversation_updated item delta))) = sent (calls c).
Proof.
  intros H.
  pose proof (process_audio_delta_no_client env delta c H) as E.
  split; [exact E|]. split.
  - rewrite !on_conversation_updated_eq, E. reflexivity.
  - destruct (step_updated_pipeline env item delta c) as (_ & B & l & C & D).
    rewrite E in B, C. cbn [snd] in B, C. split; [exact B|].
    rewrite C, sent_app, D. apply app_nil_r.
Qed.

(** ** The turn controller *)

(** C3 (amended). When [startRecording] reaches its [interrupt()] call,
    which it does unless the page's audio context is suspended and refuses
    to resume, and the call
    answers with a track ([trackId] truthy, as it is while the model is
    speaking), the handler issues exactly one [cancelResponse], directly
    after the [interrupt()], with exactly the track id and offset that
    [interrupt()] returned, and then starts the capture. *)
Theorem startRecording_cancels_interrupted_track (env : Env) (c : Console)
  (t : string) (o : Z) :
  interrupt_result env = Some {| trackId := Some t; offset := o |} ->
  t <> ""%string ->
  (audioContext c = Some suspended -> resume_ok env = true) ->
  exists before,
    new_calls c (snd (startRecording env c)) =
      before ++ [Player_interrupt; Client_cancelResponse t o; Recorder_record] /\
    cancellations before = [] /\
    ~ In Player_interrupt before /\
    cancellations (new_calls c (snd (startRecording env c))) = [(t, o)].
Proof.
  intros Hi Ht Hr.
  assert (H : exists before,
             calls (snd (startRecording env c)) =
               calls c ++ before ++ [Player_interrupt; Client_cancelResponse t o; Recorder_record]
             /\ cancellations before = [] /\ ~ In Player_interrupt before).
  { handler_unfold. rewrite Hi. cbn.
    destruct (String.eqb t "") eqn:E; [apply String.eqb_eq in E; contradiction|]. cbn.
    destruct (audioContext c) as [[]|] eqn:Ha.
    - rewrite Hr by reflexivity. cbn.
      exists [AudioContext_resume]. repeat split; [calls_appended|].
      intros [H|[]]; discriminate.
    - cbn. exists []. repeat split; [calls_appended|intros []].
    - cbn. exists []. repeat split; [calls_appended|intros []].
    - destruct (new_AudioContext env) as [[]|]; cbn.
      + destruct (resume_ok env); cbn.
        * exists [AudioContext_new; AudioContext_resume]. repeat split; [calls_appended|].
          intros [H|[H|[]]]; discriminate.
        * exists [AudioContext_new; AudioContext_resume]. repeat split; [calls_appended|].
          intros [H|[H|[]]]; discriminate.
      + exists [AudioContext_new]. repeat split; [calls_appended|].
        intros [H|[]]; discriminate.
      + exists [AudioContext_new]. repeat split; [calls_appended|].
        intros [H|[]]; discriminate.
      + exists []. repeat split; [calls_appended|intros []]. }
  destruct H as (before & A & B & C). exists before.
  rewrite (new_calls_app _ _ _ A). repeat split; auto.
  rewrite cancellations_app, B. reflexivity.
Qed.

(** C3, as stated, fails: the model is speaking, but the page's audio
    context is suspended and [resume()] rejects.  [startRecording] throws
    at the [await] of line 254, before it reaches [interrupt()]: nothing is
    cancelled and the capture does not start. *)
Lemma startRecording_resume_rejected :
  interrupt_result resume_rejected_env =
    Some {| trackId := Some "t1"%string; offset := 240 |} /\
  audioContext suspended_console = Some suspended /\
  fst (startRecording resume_rejected_env suspended_console) = Throw /\
  new_calls suspended_console (snd (startRecording resume_rejected_env suspended_console))
    = [AudioContext_resume] /\
  cancellations
    (new_calls suspended_console (snd (startRecording resume_rejected_env suspended_console)))
    = [] /\
  isRecording (snd (startRecording resume_rejected_env suspended_console)) = false.
Proof. repeat split; vm_compute; reflexivity. Qed.

(** *** Where the capture is started *)











(** ** The decode step *)

Lemma nth_error_update_object_eq (h : list ItemType) (r : nat) (f : ItemType -> ItemType) :
  nth_error (update_object h r f) r = option_map f (nth_error h r).
Proof.
  revert r. induction h as [|x h IH]; intros [|r]; cbn; auto.
Qed.

Lemma nth_error_update_object_ne (h : list ItemType) (r r' : nat) (f : ItemType -> ItemType) :
  r' <> r -> nth_error (update_object h r f) r' = nth_error h r'.
Proof.
  revert r r'. induction h as [|x h IH]; intros [|r] [|r'] H; cbn; auto.
  contradiction.
Qed.

(** The heap after the decode step: the item's object with the file
    attached when the decoder answered, the heap as it was when it threw. *)
Lemma decode_completed_item_heap (env : Env) (c : Console) (item : nat)
  (it : ItemType) (a : Int16Array) :
  nth_error (heap c) item = Some it ->
  status it = Some "completed"%string ->
  audio (formatted it) = Some a -> a <> [] ->
  exists c',
    decode_completed_item env item c = (Normal tt, c') /\
    conversation c' = conversation c /\
    heap c' = match decode env a with
              | Some w => update_object (heap c) item (set_file w)
              | None => heap c
              end.
Proof.
  intros Hn Hs Ha Hne.
  unfold decode_completed_item, deref. unfold bind at 1. unfold bind at 1.
  unfold gets at 1. rewrite Hn. unfold ret at 1. rewrite Ha, Hs.
  replace (is_string (Some "completed"%string) "completed") with true by reflexivity.
  destruct a as [|s a]; [contradiction|]. cbn [length Nat.eqb negb andb].
  handler_unfold.
  destruct (decode env (s :: a)) as [w|]; cbn.
  - destruct (audioContext c) as [[]|]; cbn;
      try (destruct (new_AudioContext env) as [[]|]; cbn);
      try (destruct (resume_ok env); cbn);
      eexists; split; try reflexivity; split; reflexivity.
  - eexists; split; try reflexivity; split; reflexivity.
Qed.

(** C9. For a completed item with non-empty audio the
    [conversation.updated] handler (past its audio delta part) changes, in
    the whole store of items, only that item's [formatted.file]: every
    other item and every other field of the item, its text and transcript
    among them, is as before; the file is the decoder's result when the
    decoder answers, and when the decoder throws the item is unchanged (no
    file is attached).  Either way the item list is published, so the item
    is shown in it whenever the session lists it. *)
Theorem decode_attaches_only_file (env : Env) (c : Console) (item : nat)
  (delta : option Delta) (it : ItemType) (a : Int16Array) :
  nth_error (heap c) item = Some it ->
  status it = Some "completed"%string ->
  audio (formatted it) = Some a -> a <> [] ->
  fst (process_audio_delta env delta c) = Normal tt ->
  let c' := step env c (conversation_updated item delta) in
  items c' = conversation c /\
  (forall r, r <> item -> nth_error (heap c') r = nth_error (heap c) r) /\
  exists it',
    nth_error (heap c') item = Some it' /\
    id it' = id it /\ role it' = role it /\ status it' = status it /\
    text (formatted it') = text (formatted it) /\
    transcript (formatted it') = transcript (formatted it) /\
    audio (formatted it') = audio (formatted it) /\
    output (formatted it') = output (formatted it) /\
    file (formatted it') =
      match decode env a with
      | Some w => Some w
      | None => file (formatted it)
      end /\
    (decode env a = None -> it' = it) /\
    (In item (conversation c) -> In (Some it') (shown (heap c') (items c'))).
Proof.
  intros Hn Hs Ha Hne Hp. cbn zeta. unfold step, handler.
  rewrite on_conversation_updated_eq.
  pose proof (process_audio_delta_store env delta c) as [Hh Hc].
  destruct (process_audio_delta env delta c) as [[[]|] c1]; [|discriminate].
  cbn [snd] in Hh, Hc. rewrite <- Hh in Hn.
  destruct (decode_completed_item_heap env c1 item it a Hn Hs Ha Hne) as (c2 & E & Ec & Eh).
  rewrite E. cbn [snd]. cbn [items set_items heap].
  change (heap (set_items (conversation c) c2)) with (heap c2).
  assert (Hit : exists it',
             nth_error (heap c2) item = Some it' /\
             it' = match decode env a with Some w => set_file w it | None => it end).
  { rewrite Eh. destruct (decode env a) as [w|].
    - rewrite nth_error_update_object_eq, Hn. cbn. eauto.
    - eauto. }
  destruct Hit as (it' & Hit & Eit).
  split; [reflexivity|]. split.
  - intros r Hr. rewrite Eh, <- Hh. destruct (decode env a); [|reflexivity].
    now apply nth_error_update_object_ne.
  - exists it'. split; [exact Hit|].
    assert (Hf : id it' = id it /\ role it' = role it /\ status it' = status it /\
                 text (formatted it') = text (formatted it) /\
                 transcript (formatted it') = transcript (formatted it) /\
                 audio (formatted it') = audio (formatted it) /\
                 output (formatted it') = output (formatted it) /\
                 file (formatted it') =
                   match decode env a with Some w => Some w | None => file (formatted it) end).
    { rewrite Eit. destruct (decode env a); cbn; repeat split; reflexivity. }
    destruct Hf as (F1 & F2 & F3 & F4 & F5 & F6 & F7 & F8).
    repeat (split; [assumption|]). split.
    + intros Hd. rewrite Eit, Hd. reflexivity.
    + intros Hi. unfold shown. rewrite <- Hit. now apply in_map.
Qed.

(** * Binary64 arithmetic: what the rounding of [SpecFloat] computes *)

Local Abbreviation fexp := (SpecFloat.fexp prec emax).

Lemma fexp_eq (z : Z) : fexp z = Z.max (z - 53) (-1074).
Proof. reflexivity. Qed.

(** ** Number of binary digits *)

Lemma digits2_pos_bounds (p : positive) :
  2 ^ (Z.pos (digits2_pos p) - 1) <= Z.pos p < 2 ^ Z.pos (digits2_pos p).
Proof.
  induction p as [p IH|p IH|]; cbn [digits2_pos].
  - rewrite Pos2Z.inj_succ.
    replace (Z.succ (Z.pos (digits2_pos p)) - 1) with (Z.succ (Z.pos (digits2_pos p) - 1)) by lia.
    rewrite !Z.pow_succ_r by lia. lia.
  - rewrite Pos2Z.inj_succ.
    replace (Z.succ (Z.pos (digits2_pos p)) - 1) with (Z.succ (Z.pos (digits2_pos p) - 1)) by lia.
    rewrite !Z.pow_succ_r by lia. lia.
  - cbn. lia.
Qed.

Lemma Zdigits2_bounds (m : Z) :
  0 < m -> 2 ^ (Zdigits2 m - 1) <= m < 2 ^ Zdigits2 m.
Proof.
  destruct m as [|p|p]; try lia. intros _. apply digits2_pos_bounds.
Qed.

Lemma Zdigits2_nonneg (m : Z) : 0 <= Zdigits2 m.
Proof. destruct m; cbn; lia. Qed.

Lemma Zdigits2_pos (m : Z) : 0 < m -> 0 < Zdigits2 m.
Proof. destruct m; cbn; lia. Qed.

(** [m < 2^d] bounds the digits of [m] by [d]. *)
Lemma Zdigits2_le (m d : Z) : 0 <= m -> 0 <= d -> m < 2 ^ d -> Zdigits2 m <= d.
Proof.
  intros Hm Hd H. destruct (Z.eq_dec m 0) as [->|Hz]; [cbn; lia|].
  destruct (Zdigits2_bounds m ltac:(lia)) as [L _].
  destruct (Z_lt_le_dec d (Zdigits2 m)) as [Hlt|]; [|lia].
  assert (2 ^ d <= 2 ^ (Zdigits2 m - 1)) by (apply Z.pow_le_mono_r; lia). lia.
Qed.

(** [2^(d-1) <= m] bounds them from below. *)
Lemma Zdigits2_ge (m d : Z) : 0 < d -> 2 ^ (d - 1) <= m -> d <= Zdigits2 m.
Proof.
  intros Hd H.
  assert (0 < m) by (pose proof (Z.pow_pos_nonneg 2 (d - 1)); lia).
  destruct (Zdigits2_bounds m ltac:(lia)) as [_ U].
  destruct (Z_lt_le_dec (Zdigits2 m) d) as [Hlt|]; [|lia].
  assert (2 ^ Zdigits2 m <= 2 ^ (d - 1)).
  { apply Z.pow_le_mono_r; [lia|]. lia. }
  lia.
Qed.

Lemma Zdigits2_mono (a b : Z) : 0 <= a <= b -> Zdigits2 a <= Zdigits2 b.
Proof.
  intros [Ha Hab]. destruct (Z.eq_dec a 0) as [->|Hz]; [apply Zdigits2_nonneg|].
  apply Zdigits2_le; [lia|apply Zdigits2_nonneg|].
  destruct (Zdigits2_bounds b ltac:(lia)). lia.
Qed.

Lemma Zdigits2_div_pow (m k : Z) :
  0 <= m -> 0 <= k -> Zdigits2 (m / 2 ^ k) <= Z.max (Zdigits2 m - k) 0.
Proof.
  intros Hm Hk.
  assert (Hp : 0 < 2 ^ k) by (apply Z.pow_pos_nonneg; lia).
  destruct (Z.eq_dec m 0) as [->|Hz].
  { rewrite Z.div_0_l by lia. cbn. lia. }
  destruct (Zdigits2_bounds m ltac:(lia)) as [_ U].
  destruct (Z_lt_le_dec (Zdigits2 m) k) as [Hlt|Hge].
  - assert (2 ^ Zdigits2 m <= 2 ^ k) by (apply Z.pow_le_mono_r; lia).
    rewrite Z.div_small by lia. cbn. lia.
  - apply Zdigits2_le.
    + apply Z.div_pos; lia.
    + lia.
    + rewrite Z.max_l by lia.
      apply Z.div_lt_upper_bound; [lia|].
      rewrite <- Z.pow_add_r by lia. replace (k + (Zdigits2 m - k)) with (Zdigits2 m) by lia.
      exact U.
Qed.

(** Adding one gains at most one digit, and gains it only on reaching a
    power of two. *)
Lemma Zdigits2_succ (q : Z) :
  0 <= q -> Zdigits2 (q + 1) <= Zdigits2 q + 1 /\
            (Zdigits2 (q + 1) = Zdigits2 q + 1 -> q + 1 = 2 ^ Zdigits2 q).
Proof.
  intros Hq. destruct (Z.eq_dec q 0) as [->|Hz]; [cbn; lia|].
  destruct (Zdigits2_bounds q ltac:(lia)) as [L U].
  pose proof (Zdigits2_pos q ltac:(lia)) as Hd.
  split.
  - apply Zdigits2_le; [lia|lia|]. rewrite Z.pow_add_r, Z.pow_1_r by lia. lia.
  - intros E. destruct (Zdigits2_bounds (q + 1) ltac:(lia)) as [L' _].
    rewrite E in L'. replace (Zdigits2 q + 1 - 1) with (Zdigits2 q) in L' by lia. lia.
Qed.

(** ** The shift with round and sticky bits *)

Lemma shr_1_m (mrs : shr_record) :
  0 <= shr_m mrs -> shr_m (shr_1 mrs) = shr_m mrs / 2.
Proof.
  destruct mrs as [m r s]. cbn [shr_m]. intros Hm.
  destruct m as [|[p|p|]|p]; cbn [shr_1 shr_m]; try lia.
  - reflexivity.
  - rewrite (Pos2Z.inj_xI p). apply Z.div_unique with (r := 1); lia.
  - rewrite (Pos2Z.inj_xO p). apply Z.div_unique with (r := 0); lia.
  - reflexivity.
Qed.

Lemma pow2_xI (p : positive) : 2 ^ Z.pos p~1 = 2 * (2 ^ Z.pos p * 2 ^ Z.pos p).
Proof.
  rewrite (Pos2Z.inj_xI p).
  replace (2 * Z.pos p + 1) with (1 + (Z.pos p + Z.pos p)) by lia.
  rewrite Z.pow_add_r, Z.pow_1_r, Z.pow_add_r by lia. reflexivity.
Qed.

Lemma pow2_xO (p : positive) : 2 ^ Z.pos p~0 = 2 ^ Z.pos p * 2 ^ Z.pos p.
Proof.
  rewrite (Pos2Z.inj_xO p).
  replace (2 * Z.pos p) with (Z.pos p + Z.pos p) by lia.
  rewrite Z.pow_add_r by lia. reflexivity.
Qed.

Lemma two_pow_pos (k : Z) : 0 <= k -> 0 < 2 ^ k.
Proof. intros. apply Z.pow_pos_nonneg; lia. Qed.

Lemma iter_pos_shr_1_m (p : positive) (mrs : shr_record) :
  0 <= shr_m mrs ->
  shr_m (SpecFloat.iter_pos shr_1 p mrs) = shr_m mrs / 2 ^ Z.pos p.
Proof.
  revert mrs. induction p as [p IH|p IH|]; intros mrs Hm; cbn [SpecFloat.iter_pos].
  - pose proof (two_pow_pos (Z.pos p) ltac:(lia)) as Hpp.
    assert (H1 : 0 <= shr_m (shr_1 mrs)) by (rewrite shr_1_m by lia; apply Z.div_pos; lia).
    assert (H2 : 0 <= shr_m (SpecFloat.iter_pos shr_1 p (shr_1 mrs))).
    { rewrite IH by lia. apply Z.div_pos; lia. }
    rewrite IH, IH, shr_1_m by lia.
    rewrite pow2_xI, !Z.div_div by lia. reflexivity.
  - pose proof (two_pow_pos (Z.pos p) ltac:(lia)) as Hpp.
    assert (H2 : 0 <= shr_m (SpecFloat.iter_pos shr_1 p mrs)).
    { rewrite IH by lia. apply Z.div_pos; lia. }
    rewrite IH, IH by lia.
    rewrite pow2_xO, !Z.div_div by lia. reflexivity.
  - rewrite shr_1_m by lia. reflexivity.
Qed.

Lemma shr_1_exact (mrs : shr_record) :
  0 <= shr_m mrs -> shr_exact mrs -> shr_m mrs mod 2 = 0 -> shr_exact (shr_1 mrs).
Proof.
  destruct mrs as [m r s]. unfold shr_exact. cbn [shr_m shr_r shr_s].
  intros Hm [-> ->] Hmod.
  destruct m as [|[p|p|]|p]; cbn; try lia; try (split; reflexivity).
  - rewrite (Pos2Z.inj_xI p) in Hmod. exfalso.
    replace (2 * Z.pos p + 1) with (1 + Z.pos p * 2) in Hmod by lia.
    rewrite Z.mod_add in Hmod by lia. discriminate.
  - cbn in Hmod. discriminate.
Qed.

Lemma iter_pos_shr_1_exact (p : positive) (mrs : shr_record) :
  0 <= shr_m mrs -> shr_exact mrs -> shr_m mrs mod 2 ^ Z.pos p = 0 ->
  shr_exact (SpecFloat.iter_pos shr_1 p mrs).
Proof.
  revert mrs. induction p as [p IH|p IH|]; intros mrs Hm He Hmod; cbn [SpecFloat.iter_pos].
  - pose proof (two_pow_pos (Z.pos p) ltac:(lia)) as Hpp.
    rewrite pow2_xI in Hmod.
    apply Z.mod_divide in Hmod; [|lia]. destruct Hmod as [t Ht].
    assert (E1 : shr_m (shr_1 mrs) = t * 2 ^ Z.pos p * 2 ^ Z.pos p).
    { rewrite shr_1_m by lia. rewrite Ht.
      replace (t * (2 * (2 ^ Z.pos p * 2 ^ Z.pos p))) with ((t * 2 ^ Z.pos p * 2 ^ Z.pos p) * 2) by ring.
      apply Z.div_mul. lia. }
    assert (X1 : shr_exact (shr_1 mrs)).
    { apply shr_1_exact; auto. rewrite Ht.
      replace (t * (2 * (2 ^ Z.pos p * 2 ^ Z.pos p))) with ((t * 2 ^ Z.pos p * 2 ^ Z.pos p) * 2) by ring.
      apply Z.mod_mul. lia. }
    assert (N1 : 0 <= shr_m (shr_1 mrs)) by (rewrite shr_1_m by lia; apply Z.div_pos; lia).
    assert (E2 : shr_m (SpecFloat.iter_pos shr_1 p (shr_1 mrs)) = t * 2 ^ Z.pos p).
    { rewrite iter_pos_shr_1_m, E1 by lia. apply Z.div_mul. lia. }
    apply IH.
    + rewrite E2. rewrite E1 in N1. nia.
    + apply IH; auto. rewrite E1. apply Z.mod_mul. lia.
    + rewrite E2. apply Z.mod_mul. lia.
  - pose proof (two_pow_pos (Z.pos p) ltac:(lia)) as Hpp.
    rewrite pow2_xO in Hmod.
    apply Z.mod_divide in Hmod; [|lia]. destruct Hmod as [t Ht].
    assert (E2 : shr_m (SpecFloat.iter_pos shr_1 p mrs) = t * 2 ^ Z.pos p).
    { rewrite iter_pos_shr_1_m, Ht by lia.
      replace (t * (2 ^ Z.pos p * 2 ^ Z.pos p)) with ((t * 2 ^ Z.pos p) * 2 ^ Z.pos p) by ring.
      apply Z.div_mul. lia. }
    apply IH.
    + rewrite E2. nia.
    + apply IH; auto. rewrite Ht.
      replace (t * (2 ^ Z.pos p * 2 ^ Z.pos p)) with ((t * 2 ^ Z.pos p) * 2 ^ Z.pos p) by ring.
      apply Z.mod_mul. lia.
    + rewrite E2. apply Z.mod_mul. lia.
  - apply shr_1_exact; auto.
Qed.

Lemma round_nearest_even_bounds (m : Z) (l : location) :
  m <= round_nearest_even m l <= m + 1.
Proof.
  destruct l as [|[]]; cbn; try lia. destruct (Z.even m); lia.
Qed.

Lemma loc_of_shr_exact (mrs : shr_record) :
  shr_exact mrs -> loc_of_shr_record mrs = loc_Exact.
Proof. destruct mrs as [m r s]. intros [H1 H2]. cbn in *. now subst. Qed.

(** ** The two stages of [binary_round_aux] *)

Lemma shr_m_record_of_loc (m : Z) (l : location) : shr_m (shr_record_of_loc m l) = m.
Proof. destruct l as [|[]]; reflexivity. Qed.

(** One [shr_fexp]: the exponent reached, and the mantissa truncated to it. *)
Lemma shr_fexp_spec (mx ex : Z) (lx : location) :
  0 <= mx ->
  let e' := Z.max ex (fexp (Zdigits2 mx + ex)) in
  exists mrs,
    shr_fexp prec emax mx ex lx = (mrs, e') /\
    shr_m mrs = mx / 2 ^ (e' - ex) /\
    (lx = loc_Exact -> mx mod 2 ^ (e' - ex) = 0 -> shr_exact mrs).
Proof.
  intros Hm e'. unfold shr_fexp, shr.
  destruct (fexp (Zdigits2 mx + ex) - ex) as [|p|p] eqn:Ek.
  - assert (E : e' = ex) by (unfold e'; lia).
    rewrite E, Z.sub_diag, Z.div_1_r.
    eexists. split; [reflexivity|]. split; [apply shr_m_record_of_loc|].
    intros -> _. split; reflexivity.
  - assert (E : e' = ex + Z.pos p) by (unfold e'; lia).
    rewrite E. replace (ex + Z.pos p - ex) with (Z.pos p) by lia.
    eexists. split; [reflexivity|]. split.
    + rewrite iter_pos_shr_1_m; rewrite shr_m_record_of_loc; auto.
    + intros -> Hmod. apply iter_pos_shr_1_exact; cbn; auto. split; reflexivity.
  - assert (E : e' = ex) by (unfold e'; lia).
    rewrite E, Z.sub_diag, Z.div_1_r.
    eexists. split; [reflexivity|]. split; [apply shr_m_record_of_loc|].
    intros -> _. split; reflexivity.
Qed.

Lemma fexp_succ (z : Z) : fexp (z + 1) <= fexp z + 1.
Proof. rewrite !fexp_eq. lia. Qed.

Lemma fexp_mono (a b : Z) : a <= b -> fexp a <= fexp b.
Proof. rewrite !fexp_eq. lia. Qed.

(** The second shift moves by at most one place, and only off an even
    mantissa: it does not change the value. *)
Lemma second_shift (mx ex m1 : Z) :
  0 <= mx ->
  let e1 := Z.max ex (fexp (Zdigits2 mx + ex)) in
  let q := mx / 2 ^ (e1 - ex) in
  q <= m1 <= q + 1 ->
  let e2 := Z.max e1 (fexp (Zdigits2 m1 + e1)) in
  e1 <= e2 /\ (m1 / 2 ^ (e2 - e1)) * 2 ^ (e2 - e1) = m1.
Proof.
  intros Hm e1 q Hq e2.
  assert (Hk : 0 <= e1 - ex) by (unfold e1; lia).
  assert (Hq0 : 0 <= q) by (apply Z.div_pos; [lia|apply two_pow_pos; lia]).
  pose proof (Zdigits2_div_pow mx (e1 - ex) Hm Hk) as Hdq. fold q in Hdq.
  pose proof (Zdigits2_nonneg mx) as Hdn.
  assert (He1 : -1074 <= e1) by (unfold e1; rewrite fexp_eq; lia).
  assert (Hfq : fexp (Zdigits2 q + e1) <= e1).
  { unfold e1 in *. rewrite !fexp_eq in *. lia. }
  destruct (Zdigits2_succ q Hq0) as [Hs1 Hs2].
  assert (Hd1 : Zdigits2 m1 <= Zdigits2 q + 1).
  { assert (m1 = q \/ m1 = q + 1) as [->| ->] by lia; lia. }
  destruct (Z_le_gt_dec (fexp (Zdigits2 m1 + e1)) e1) as [Hle|Hgt].
  - assert (E : e2 = e1) by (unfold e2; lia).
    rewrite E, Z.sub_diag, Z.div_1_r. lia.
  - (* a shift by one: m1 is the power of two just reached *)
    assert (Hm1 : m1 = q + 1 /\ Zdigits2 (q + 1) = Zdigits2 q + 1).
    { assert (m1 = q \/ m1 = q + 1) as [->| ->] by lia; [lia|].
      split; [reflexivity|].
      destruct (Z.eq_dec (Zdigits2 (q + 1)) (Zdigits2 q + 1)); [assumption|].
      assert (Zdigits2 (q + 1) <= Zdigits2 q) by lia.
      pose proof (fexp_mono (Zdigits2 (q + 1) + e1) (Zdigits2 q + e1) ltac:(lia)). lia. }
    destruct Hm1 as [-> Hdig]. specialize (Hs2 Hdig).
    assert (E : e2 = e1 + 1).
    { unfold e2. rewrite Hdig in *. rewrite !fexp_eq in *. lia. }
    assert (Hdq1 : 1 <= Zdigits2 q).
    { destruct (Z.eq_dec (Zdigits2 q) 0) as [Z0|]; [|pose proof (Zdigits2_nonneg q); lia].
      exfalso. rewrite Hdig, Z0 in Hgt. rewrite fexp_eq in Hgt. lia. }
    rewrite E. replace (e1 + 1 - e1) with 1 by lia. split; [lia|].
    rewrite Hs2. change (2 ^ 1) with 2.
    replace (2 ^ Zdigits2 q) with (2 ^ (Zdigits2 q - 1) * 2).
    2:{ replace (Zdigits2 q) with (Z.succ (Zdigits2 q - 1)) at 2 by lia.
        rewrite Z.pow_succ_r by lia. ring. }
    rewrite Z.div_mul by lia. reflexivity.
Qed.

(** [binary_round_aux] on [(mx, ex)]: the exponent [e1] it rounds at, the
    truncated mantissa [q], and a result whose value is [q] or [q + 1]
    units of [2^e1] -- exactly [q] when nothing is lost. *)
Lemma binary_round_aux_spec (s : bool) (mx ex : Z) (lx : location) :
  0 <= mx ->
  let e1 := Z.max ex (fexp (Zdigits2 mx + ex)) in
  let q := mx / 2 ^ (e1 - ex) in
  exists m1,
    q <= m1 <= q + 1 /\
    (lx = loc_Exact -> mx mod 2 ^ (e1 - ex) = 0 -> m1 = q) /\
    match binary_round_aux prec emax s mx ex lx with
    | S754_zero s' => s' = s /\ m1 = 0
    | S754_finite s' m e => s' = s /\ e1 <= e /\ Z.pos m * 2 ^ (e - e1) = m1
    | S754_infinity s' => s' = s /\ exists e, 971 < e /\ e1 <= e /\ 2 ^ (e - e1) <= m1
    | S754_nan => False
    end.
Proof.
  intros Hm e1 q.
  destruct (shr_fexp_spec mx ex lx Hm) as (mrs & E1 & M1 & X1).
  fold e1 in E1, M1, X1. fold q in M1.
  set (m1 := round_nearest_even (shr_m mrs) (loc_of_shr_record mrs)).
  assert (Hq0 : 0 <= q).
  { apply Z.div_pos; [lia|apply two_pow_pos; unfold e1; lia]. }
  assert (B1 : q <= m1 <= q + 1).
  { unfold m1. rewrite <- M1. apply round_nearest_even_bounds. }
  exists m1. split; [exact B1|]. split.
  { intros Hl Hmod. unfold m1. rewrite (loc_of_shr_exact mrs (X1 Hl Hmod)). cbn. exact M1. }
  unfold binary_round_aux. rewrite E1. fold m1.
  destruct (shr_fexp_spec m1 e1 loc_Exact ltac:(lia)) as (mrs2 & E2 & M2 & _).
  rewrite E2.
  destruct (second_shift mx ex m1 Hm B1) as [Hle Hval].
  fold e1 in Hle, Hval.
  set (e2 := Z.max e1 (fexp (Zdigits2 m1 + e1))) in *.
  rewrite <- M2 in Hval.
  pose proof (two_pow_pos (e2 - e1) ltac:(lia)) as Hp.
  destruct (shr_m mrs2) as [|m|m] eqn:Em.
  - split; [reflexivity|]. lia.
  - destruct (e2 <=? emax - prec) eqn:Eb.
    + repeat split; auto.
    + split; [reflexivity|]. exists e2. apply Z.leb_gt in Eb.
      change (emax - prec) with 971 in Eb. repeat split; try lia.
      rewrite <- Hval. nia.
  - exfalso. assert (0 <= Z.neg m).
    { rewrite M2. apply Z.div_pos; lia. }
    lia.
Qed.

(** ** Powers of two as reals *)

Lemma bpow_pos (e : Z) : (0 < bpow e)%R.
Proof. unfold bpow. apply powerRZ_lt. lra. Qed.

Lemma bpow_add (a b : Z) : bpow (a + b) = (bpow a * bpow b)%R.
Proof. unfold bpow. apply powerRZ_add. lra. Qed.

Lemma bpow_0 : bpow 0 = 1%R.
Proof. reflexivity. Qed.

Lemma bpow_1 : bpow 1 = 2%R.
Proof. unfold bpow. simpl. lra. Qed.

Lemma bpow_opp (a : Z) : (bpow a * bpow (- a) = 1)%R.
Proof. rewrite <- bpow_add, Z.add_opp_diag_r. apply bpow_0. Qed.

Lemma bpow_IZR (k : Z) : 0 <= k -> bpow k = IZR (2 ^ k).
Proof.
  intros Hk. pattern k. apply natlike_ind; [reflexivity| |exact Hk].
  intros x Hx IH. rewrite Z.pow_succ_r by lia. rewrite mult_IZR, <- IH.
  replace (Z.succ x) with (1 + x) by lia. rewrite bpow_add, bpow_1. reflexivity.
Qed.

Lemma bpow_le (a b : Z) : a <= b -> (bpow a <= bpow b)%R.
Proof.
  intros H. replace b with (a + (b - a)) by lia. rewrite bpow_add.
  rewrite (bpow_IZR (b - a)) by lia.
  pose proof (bpow_pos a). pose proof (two_pow_pos (b - a) ltac:(lia)) as Hp.
  assert (1 <= IZR (2 ^ (b - a)))%R by (apply IZR_le; lia).
  nra.
Qed.

Lemma bpow_lt (a b : Z) : a < b -> (bpow a < bpow b)%R.
Proof.
  intros H. replace b with (a + (b - a)) by lia. rewrite bpow_add.
  rewrite (bpow_IZR (b - a)) by lia.
  pose proof (bpow_pos a).
  assert (2 ^ 1 <= 2 ^ (b - a)) by (apply Z.pow_le_mono_r; lia).
  assert (2 <= IZR (2 ^ (b - a)))%R by (apply IZR_le; lia).
  nra.
Qed.

Lemma bpow_lt_inv (a b : Z) : (bpow a < bpow b)%R -> a < b.
Proof.
  intros H. destruct (Z_lt_le_dec a b) as [|Hge]; [assumption|].
  apply bpow_le in Hge. lra.
Qed.

(** ** Values *)

Lemma F2R_shift (m e k : Z) : 0 <= k -> F2R (m * 2 ^ k) e = F2R m (e + k).
Proof.
  intros Hk. unfold F2R. rewrite mult_IZR, bpow_add, (bpow_IZR k) by lia.
  rewrite (Rmult_comm (bpow e)). rewrite Rmult_assoc. reflexivity.
Qed.

Lemma F2R_opp (m e : Z) : F2R (- m) e = (- F2R m e)%R.
Proof. unfold F2R. rewrite opp_IZR. ring. Qed.

Lemma F2R_cond_Zopp (s : bool) (m e : Z) :
  F2R (cond_Zopp s m) e = if s then (- F2R m e)%R else F2R m e.
Proof. destruct s; cbn; [apply F2R_opp|reflexivity]. Qed.

Lemma F2R_pos (m e : Z) : 0 < m -> (0 < F2R m e)%R.
Proof.
  intros H. unfold F2R. apply Rmult_lt_0_compat; [|apply bpow_pos].
  now apply IZR_lt.
Qed.

Lemma F2R_le (m m' e : Z) : m <= m' -> (F2R m e <= F2R m' e)%R.
Proof.
  intros H. unfold F2R. apply Rmult_le_compat_r; [|now apply IZR_le].
  apply Rlt_le, bpow_pos.
Qed.

Lemma F2R_lt (m m' e : Z) : m < m' -> (F2R m e < F2R m' e)%R.
Proof.
  intros H. unfold F2R. apply Rmult_lt_compat_r; [apply bpow_pos|now apply IZR_lt].
Qed.

Lemma F2R_eq_inv (m m' e : Z) : F2R m e = F2R m' e -> m = m'.
Proof.
  unfold F2R. intros H. pose proof (bpow_pos e).
  apply eq_IZR. apply Rmult_eq_reg_r with (bpow e); [exact H|lra].
Qed.

(** A value lies in the binade its digits and exponent name. *)
Lemma F2R_magnitude (m e : Z) :
  0 < m ->
  (bpow (Zdigits2 m + e - 1) <= F2R m e < bpow (Zdigits2 m + e))%R.
Proof.
  intros Hm. destruct (Zdigits2_bounds m Hm) as [L U].
  pose proof (Zdigits2_pos m Hm) as Hd.
  replace (Zdigits2 m + e - 1) with ((Zdigits2 m - 1) + e) by lia.
  rewrite !bpow_add.
  rewrite (bpow_IZR (Zdigits2 m - 1)), (bpow_IZR (Zdigits2 m)) by lia.
  pose proof (bpow_pos e). unfold F2R.
  apply IZR_le in L. apply IZR_lt in U.
  split.
  - apply Rmult_le_compat_r; lra.
  - apply Rmult_lt_compat_r; lra.
Qed.

Lemma canonical_mantissa_eq (m : positive) (e : Z) :
  canonical_mantissa prec emax m e = true -> fexp (Zdigits2 (Z.pos m) + e) = e.
Proof. unfold canonical_mantissa. intros H. now apply Z.eqb_eq in H. Qed.

(** Two canonical mantissas of one value are one. *)
Lemma canonical_unique (m m' : positive) (e e' : Z) :
  canonical_mantissa prec emax m e = true ->
  canonical_mantissa prec emax m' e' = true ->
  F2R (Z.pos m) e = F2R (Z.pos m') e' ->
  m = m' /\ e = e'.
Proof.
  intros C C' H. apply canonical_mantissa_eq in C, C'.
  destruct (F2R_magnitude (Z.pos m) e ltac:(lia)) as [L U].
  destruct (F2R_magnitude (Z.pos m') e' ltac:(lia)) as [L' U'].
  rewrite H in L, U.
  assert (Zdigits2 (Z.pos m) + e - 1 < Zdigits2 (Z.pos m') + e') by (apply bpow_lt_inv; lra).
  assert (Zdigits2 (Z.pos m') + e' - 1 < Zdigits2 (Z.pos m) + e) by (apply bpow_lt_inv; lra).
  assert (E : Zdigits2 (Z.pos m) + e = Zdigits2 (Z.pos m') + e') by lia.
  assert (e = e') by (rewrite <- C, <- C', E; reflexivity).
  subst e'. split; [|reflexivity].
  apply F2R_eq_inv in H. now injection H.
Qed.

Lemma valid_binary_canonical (s : bool) (m : positive) (e : Z) :
  valid_binary (S754_finite s m e) = true ->
  canonical_mantissa prec emax m e = true /\ e <= 971.
Proof.
  cbn. unfold bounded. intros H. apply andb_true_iff in H as [H1 H2].
  apply Z.leb_le in H2. auto.
Qed.

(** Valid finite numbers of one sign and one value are equal. *)
Lemma finite_unique (x y : float) (s : bool) (m m' : positive) (e e' : Z) :
  Prim2SF x = S754_finite s m e ->
  Prim2SF y = S754_finite s m' e' ->
  F2R (Z.pos m) e = F2R (Z.pos m') e' ->
  x = y.
Proof.
  intros Hx Hy H. apply Prim2SF_inj. rewrite Hx, Hy.
  pose proof (Prim2SF_valid x) as Vx. pose proof (Prim2SF_valid y) as Vy.
  rewrite Hx in Vx. rewrite Hy in Vy.
  apply valid_binary_canonical in Vx as [Cx _], Vy as [Cy _].
  destruct (canonical_unique m m' e e' Cx Cy H) as [-> ->]. reflexivity.
Qed.

(** The integer a value is, read off the mantissa and exponent. *)
Lemma F2R_integer (m e k : Z) :
  F2R m e = IZR k ->
  (0 <= e -> k = m * 2 ^ e) /\ (e < 0 -> m = k * 2 ^ (- e)).
Proof.
  intros H. split; intros He.
  - apply eq_IZR. rewrite <- H, mult_IZR, <- bpow_IZR by lia. reflexivity.
  - apply eq_IZR. rewrite mult_IZR, <- bpow_IZR by lia. rewrite <- H. unfold F2R.
    rewrite Rmult_assoc, bpow_opp. ring.
Qed.

Lemma IZR_F2R (m e k : Z) :
  (0 <= e -> k = m * 2 ^ e) -> (e < 0 -> m = k * 2 ^ (- e)) -> F2R m e = IZR k.
Proof.
  intros H1 H2. destruct (Z_lt_le_dec e 0) as [He|He].
  - rewrite (H2 He). rewrite F2R_shift by lia. replace (e + - e) with 0 by lia.
    unfold F2R. rewrite bpow_0. ring.
  - rewrite (H1 He). unfold F2R. rewrite mult_IZR, bpow_IZR by lia. reflexivity.
Qed.

(** The value of what [binary_round_aux] returns, finite case. *)
Lemma round_value (m e m1 e1 : Z) :
  e1 <= e -> m * 2 ^ (e - e1) = m1 -> F2R m e = F2R m1 e1.
Proof.
  intros He <-. rewrite F2R_shift by lia. f_equal. lia.
Qed.

(** ** Roundings that lose nothing: integers below 2^53 *)

Lemma IZR_magnitude (K : Z) :
  0 < K -> (bpow (Zdigits2 K - 1) <= IZR K < bpow (Zdigits2 K))%R.
Proof.
  intros HK. pose proof (F2R_magnitude K 0 HK) as H.
  unfold F2R in H. rewrite bpow_0, Rmult_1_r in H.
  replace (Zdigits2 K + 0 - 1) with (Zdigits2 K - 1) in H by lia.
  replace (Zdigits2 K + 0) with (Zdigits2 K) in H by lia. exact H.
Qed.

(** The digits of a mantissa, from the integer it denotes. *)
Lemma digits_of_integer (m e K : Z) :
  0 < m -> 0 < K -> F2R m e = IZR K -> Zdigits2 m + e = Zdigits2 K.
Proof.
  intros Hm HK H.
  destruct (F2R_magnitude m e Hm) as [L U]. rewrite H in L, U.
  destruct (IZR_magnitude K HK) as [L' U'].
  assert (Zdigits2 m + e - 1 < Zdigits2 K) by (apply bpow_lt_inv; lra).
  assert (Zdigits2 K - 1 < Zdigits2 m + e) by (apply bpow_lt_inv; lra).
  lia.
Qed.

Lemma bpow_53 : bpow 53 = IZR (2 ^ 53).
Proof. apply bpow_IZR. lia. Qed.

(** [binary_round_aux] returns the integer [K] it is given, whatever the
    mantissa and exponent it is given in. *)
Lemma binary_round_aux_integer (s : bool) (mx ex K : Z) :
  0 < mx -> 0 < K < 2 ^ 53 -> F2R mx ex = IZR K ->
  exists m e,
    binary_round_aux prec emax s mx ex loc_Exact = S754_finite s m e /\
    F2R (Z.pos m) e = IZR K.
Proof.
  intros Hm HK H.
  pose proof (digits_of_integer mx ex K Hm ltac:(lia) H) as Hd.
  assert (HdK : 1 <= Zdigits2 K <= 53).
  { split; [pose proof (Zdigits2_pos K); lia|]. apply Zdigits2_le; lia. }
  destruct (binary_round_aux_spec s mx ex loc_Exact ltac:(lia)) as (m1 & B & X & R).
  cbv zeta in B, X, R. rewrite Hd in B, X, R. rewrite fexp_eq in B, X, R.
  set (e1 := Z.max ex (Z.max (Zdigits2 K - 53) (-1074))) in *.
  assert (Hmod : mx mod 2 ^ (e1 - ex) = 0).
  { destruct (Z_le_gt_dec (Z.max (Zdigits2 K - 53) (-1074)) ex) as [Hle|Hgt].
    - assert (E : e1 = ex) by (unfold e1; lia). rewrite E, Z.sub_diag. apply Z.mod_1_r.
    - assert (E : e1 = Zdigits2 K - 53) by (unfold e1; lia).
      destruct (F2R_integer mx ex K H) as [_ Hneg]. rewrite (Hneg ltac:(lia)).
      replace (- ex) with ((- e1) + (e1 - ex)) by lia.
      rewrite Z.pow_add_r, Z.mul_assoc by lia. apply Z.mod_mul.
      pose proof (two_pow_pos (e1 - ex) ltac:(lia)). lia. }
  specialize (X eq_refl Hmod). subst m1.
  assert (Hk : 0 <= e1 - ex) by (unfold e1; lia).
  pose proof (two_pow_pos (e1 - ex) Hk) as Hp.
  assert (Hq : mx = (mx / 2 ^ (e1 - ex)) * 2 ^ (e1 - ex)).
  { rewrite (Z.div_mod mx (2 ^ (e1 - ex))) at 1 by lia. rewrite Hmod. ring. }
  assert (Hv : F2R (mx / 2 ^ (e1 - ex)) e1 = IZR K).
  { rewrite <- H. rewrite Hq at 2. rewrite F2R_shift by lia. f_equal. lia. }
  destruct (binary_round_aux prec emax s mx ex loc_Exact) as [s'|s'| |s' m e].
  - exfalso. destruct R as [_ R]. rewrite R in Hv. unfold F2R in Hv.
    rewrite Rmult_0_l in Hv. apply eq_IZR in Hv. lia.
  - exfalso. destruct R as [_ (e & He & Hle & Hpow)].
    assert (F2R (2 ^ (e - e1)) e1 <= F2R (mx / 2 ^ (e1 - ex)) e1)%R by (apply F2R_le; lia).
    rewrite Hv in H0. unfold F2R in H0. rewrite <- bpow_IZR, <- bpow_add in H0 by lia.
    replace (e - e1 + e1) with e in H0 by lia.
    assert (bpow 53 <= bpow e)%R by (apply bpow_le; lia).
    rewrite bpow_53 in H1. assert (IZR K < IZR (2 ^ 53))%R by (apply IZR_lt; lia). lra.
  - contradiction.
  - destruct R as (-> & Hle & Hm1). exists m, e. split; [reflexivity|].
    rewrite <- Hv. now apply round_value.
Qed.

Lemma shl_align_spec (mx : positive) (ex ex' : Z) :
  exists mz ez,
    shl_align mx ex ex' = (mz, ez) /\
    ez = Z.min ex ex' /\ F2R (Z.pos mz) ez = F2R (Z.pos mx) ex.
Proof.
  unfold shl_align. destruct (ex' - ex) as [|d|d] eqn:E.
  - exists mx, ex. repeat split. lia.
  - exists mx, ex. repeat split. lia.
  - exists (Pos.iter xO mx d), ex'. split; [reflexivity|]. split; [lia|].
    change (Pos.iter xO mx d) with (shift_pos d mx).
    rewrite shift_pos_correct. change (Zpower_pos 2 d) with (2 ^ Z.pos d).
    rewrite Z.mul_comm, F2R_shift by lia. f_equal. lia.
Qed.

Lemma binary_normalize_integer (M ez K : Z) (szero : bool) :
  0 < M -> 0 < K < 2 ^ 53 -> F2R M ez = IZR K ->
  exists m e,
    binary_normalize prec emax M ez szero = S754_finite false m e /\
    F2R (Z.pos m) e = IZR K.
Proof.
  intros HM HK H. destruct M as [|p|p]; try lia.
  unfold binary_normalize, binary_round.
  destruct (shl_align_spec p ez (fexp (Z.pos (digits2_pos p) + ez))) as (mz & ez' & E & _ & V).
  rewrite E. apply binary_round_aux_integer; try lia. now rewrite V.
Qed.

(** ** Integers as numbers *)

Lemma to_Z_of_Z (k : Z) : 0 <= k < 2 ^ 53 -> Uint63.to_Z (of_Z k) = k.
Proof.
  intros H. rewrite of_Z_spec. apply Z.mod_small.
  change wB with (2 ^ 63). assert (2 ^ 53 < 2 ^ 63) by reflexivity. lia.
Qed.

Lemma number_of_Z_0 : Prim2SF (JS.number_of_Z 0) = S754_zero false.
Proof. reflexivity. Qed.

Lemma number_of_Z_pos (k : Z) :
  0 < k < 2 ^ 53 ->
  exists m e, Prim2SF (JS.number_of_Z k) = S754_finite false m e /\
              F2R (Z.pos m) e = IZR k.
Proof.
  intros H. unfold JS.number_of_Z.
  replace (k <? 0) with false by (symmetry; apply Z.ltb_ge; lia).
  rewrite of_uint63_spec, to_Z_of_Z by lia.
  apply binary_normalize_integer; try lia.
  unfold F2R. rewrite bpow_0. ring.
Qed.

Lemma number_of_Z_neg (k : Z) :
  - 2 ^ 53 < k < 0 ->
  exists m e, Prim2SF (JS.number_of_Z k) = S754_finite true m e /\
              F2R (Z.pos m) e = IZR (- k).
Proof.
  intros H. unfold JS.number_of_Z.
  replace (k <? 0) with true by (symmetry; apply Z.ltb_lt; lia).
  rewrite FloatAxioms.opp_spec, of_uint63_spec, to_Z_of_Z by lia.
  destruct (binary_normalize_integer (- k) 0 (- k) false) as (m & e & E & V); try lia.
  { unfold F2R. rewrite bpow_0. ring. }
  rewrite E. cbn. eauto.
Qed.

(** A number whose value is the integer [k] is [number_of_Z k]. *)
Lemma number_of_Z_unique (x : float) (m : positive) (e k : Z) :
  Prim2SF x = S754_finite false m e -> F2R (Z.pos m) e = IZR k -> k < 2 ^ 53 ->
  x = JS.number_of_Z k.
Proof.
  intros Hx V Hk.
  assert (0 < k).
  { apply lt_IZR. rewrite <- V. apply F2R_pos. lia. }
  destruct (number_of_Z_pos k ltac:(lia)) as (m' & e' & E' & V').
  eapply finite_unique; eauto. congruence.
Qed.

Lemma number_of_Z_unique_neg (x : float) (m : positive) (e k : Z) :
  Prim2SF x = S754_finite true m e -> F2R (Z.pos m) e = IZR (- k) -> - 2 ^ 53 < k ->
  x = JS.number_of_Z k.
Proof.
  intros Hx V Hk.
  assert (0 < - k).
  { apply lt_IZR. rewrite <- V. apply F2R_pos. lia. }
  destruct (number_of_Z_neg k ltac:(lia)) as (m' & e' & E' & V').
  eapply finite_unique; eauto. congruence.
Qed.

(** ** Integers as numbers, both signs *)

Lemma number_of_Z_nonzero (k : Z) :
  k <> 0 -> Z.abs k < 2 ^ 53 ->
  exists m e, Prim2SF (JS.number_of_Z k) = S754_finite (k <? 0) m e /\
              F2R (Z.pos m) e = IZR (Z.abs k).
Proof.
  intros Hk Hb. destruct (Z_lt_le_dec k 0) as [Hn|Hp].
  - replace (k <? 0) with true by (symmetry; apply Z.ltb_lt; lia).
    rewrite Z.abs_neq by lia. apply number_of_Z_neg. lia.
  - replace (k <? 0) with false by (symmetry; apply Z.ltb_ge; lia).
    rewrite Z.abs_eq by lia. apply number_of_Z_pos. lia.
Qed.

Lemma number_of_Z_unique_signed (x : float) (s : bool) (m : positive) (e k : Z) :
  Prim2SF x = S754_finite s m e -> F2R (Z.pos m) e = IZR (Z.abs k) ->
  s = (k <? 0) -> Z.abs k < 2 ^ 53 ->
  x = JS.number_of_Z k.
Proof.
  intros Hx V Hs Hb.
  assert (0 < Z.abs k).
  { apply lt_IZR. rewrite <- V. apply F2R_pos. lia. }
  destruct (number_of_Z_nonzero k ltac:(lia) Hb) as (m' & e' & E' & V').
  subst s. eapply finite_unique; eauto. congruence.
Qed.

(** The integer part of an integer-valued number. *)
Lemma truncate_integer (s : bool) (m : positive) (e k : Z) :
  F2R (Z.pos m) e = IZR k -> JS.truncate s m e = cond_Zopp s k.
Proof.
  intros V. destruct (F2R_integer _ _ _ V) as [H1 H2]. unfold JS.truncate.
  destruct (0 <=? e) eqn:E.
  - apply Z.leb_le in E. now rewrite (H1 E).
  - apply Z.leb_gt in E. rewrite (H2 E).
    rewrite Z.div_mul; [reflexivity|]. pose proof (two_pow_pos (- e) ltac:(lia)). lia.
Qed.

Lemma integer_mod (m : positive) (e k : Z) :
  F2R (Z.pos m) e = IZR k -> e < 0 ->
  Z.pos m mod 2 ^ (- e) = 0 /\ Z.pos m / 2 ^ (- e) = k.
Proof.
  intros V E. destruct (F2R_integer _ _ _ V) as [_ H2]. rewrite (H2 E).
  pose proof (two_pow_pos (- e) ltac:(lia)).
  split; [apply Z.mod_mul|apply Z.div_mul]; lia.
Qed.

Lemma index_of_number_integer (k : Z) :
  0 <= k < 2 ^ 53 -> JS.index_of_number (JS.number_of_Z k) = Some k.
Proof.
  intros H. unfold JS.index_of_number.
  destruct (Z.eq_dec k 0) as [->|Hz]; [reflexivity|].
  destruct (number_of_Z_pos k ltac:(lia)) as (m & e & E & V). rewrite E.
  destruct (F2R_integer _ _ _ V) as [H1 H2].
  destruct (0 <=? e) eqn:Ee.
  - apply Z.leb_le in Ee. now rewrite <- (H1 Ee).
  - apply Z.leb_gt in Ee. destruct (integer_mod m e k V Ee) as [-> ->]. reflexivity.
Qed.

Lemma ToIndex_integer (limit k : Z) :
  0 <= k <= limit -> k < 2 ^ 53 ->
  TypedArray.ToIndex limit (JS.number_of_Z k) = Some k.
Proof.
  intros H Hb. unfold TypedArray.ToIndex.
  destruct (Z.eq_dec k 0) as [->|Hz]; [reflexivity|].
  destruct (number_of_Z_pos k ltac:(lia)) as (m & e & E & V). rewrite E.
  rewrite (truncate_integer false m e k V). cbn [cond_Zopp].
  replace (0 <=? k) with true by (symmetry; apply Z.leb_le; lia).
  replace (k <=? limit) with true by (symmetry; apply Z.leb_le; lia).
  reflexivity.
Qed.

Lemma ToInt16_integer (s : Z) : int16 s -> JS.ToInt16 (JS.number_of_Z s) = s.
Proof.
  unfold int16. intros H. unfold JS.ToInt16.
  destruct (Z.eq_dec s 0) as [->|Hz]; [reflexivity|].
  assert (Hb : Z.abs s < 2 ^ 53).
  { assert (32768 < 2 ^ 53) by reflexivity. lia. }
  destruct (number_of_Z_nonzero s Hz Hb) as (m & e & E & V). rewrite E.
  rewrite (truncate_integer (s <? 0) m e (Z.abs s) V).
  assert (Ec : cond_Zopp (s <? 0) (Z.abs s) = s).
  { destruct (s <? 0) eqn:Es; cbn; [apply Z.ltb_lt in Es|apply Z.ltb_ge in Es]; lia. }
  rewrite Ec. cbv zeta.
  destruct (Z_lt_le_dec s 0) as [Hn|Hp].
  - replace (s mod 65536) with (s + 65536).
    2:{ apply Z.mod_unique with (q := -1); lia. }
    replace (32768 <=? s + 65536) with true by (symmetry; apply Z.leb_le; lia). lia.
  - rewrite Z.mod_small by lia.
    replace (32768 <=? s) with false by (symmetry; apply Z.leb_gt; lia). reflexivity.
Qed.

Lemma Math_floor_integer (k : Z) :
  0 <= k < 2 ^ 53 -> JS.Math_floor (JS.number_of_Z k) = JS.number_of_Z k.
Proof.
  intros H. unfold JS.Math_floor.
  destruct (Z.eq_dec k 0) as [->|Hz]; [reflexivity|].
  destruct (number_of_Z_pos k ltac:(lia)) as (m & e & E & V). rewrite E.
  destruct (0 <=? e) eqn:Ee; [reflexivity|]. apply Z.leb_gt in Ee.
  cbn [cond_Zopp]. destruct (integer_mod m e k V Ee) as [_ ->]. reflexivity.
Qed.

Lemma Math_round_integer (k : Z) :
  0 <= k < 2 ^ 53 -> JS.Math_round (JS.number_of_Z k) = JS.number_of_Z k.
Proof.
  intros H. unfold JS.Math_round.
  destruct (Z.eq_dec k 0) as [->|Hz]; [reflexivity|].
  destruct (number_of_Z_pos k ltac:(lia)) as (m & e & E & V). rewrite E.
  destruct (0 <=? e) eqn:Ee; [reflexivity|]. apply Z.leb_gt in Ee.
  cbn [cond_Zopp]. destruct (F2R_integer _ _ _ V) as [_ H2]. specialize (H2 Ee).
  pose proof (two_pow_pos (- e) ltac:(lia)) as Hp.
  assert (Eq : (2 * Z.pos m + 2 ^ (- e)) / 2 ^ (1 - e) = k).
  { replace (1 - e) with (1 + - e) by lia. rewrite Z.pow_add_r, Z.pow_1_r by lia.
    rewrite H2. symmetry. apply Z.div_unique with (r := 2 ^ (- e)); [lia|ring]. }
  rewrite Eq. replace (k =? 0) with false by (symmetry; apply Z.eqb_neq; lia).
  reflexivity.
Qed.

(** ** Arithmetic on integer-valued numbers *)

Lemma F2R_mul (m1 e1 m2 e2 : Z) :
  F2R (m1 * m2) (e1 + e2) = (F2R m1 e1 * F2R m2 e2)%R.
Proof. unfold F2R. rewrite mult_IZR, bpow_add. ring. Qed.

Lemma F2R_add (m1 m2 e : Z) : F2R (m1 + m2) e = (F2R m1 e + F2R m2 e)%R.
Proof. unfold F2R. rewrite plus_IZR. ring. Qed.

Lemma xorb_sign_mul (i j : Z) :
  i <> 0 -> j <> 0 -> xorb (i <? 0) (j <? 0) = (i * j <? 0).
Proof.
  intros Hi Hj.
  destruct (i <? 0) eqn:Ei, (j <? 0) eqn:Ej; cbn; symmetry;
    try apply Z.ltb_lt in Ei; try apply Z.ltb_ge in Ei;
    try apply Z.ltb_lt in Ej; try apply Z.ltb_ge in Ej;
    try (apply Z.ltb_lt; nia); try (apply Z.ltb_ge; nia).
Qed.

Lemma mul_integers (i j : Z) :
  i <> 0 -> j <> 0 -> Z.abs (i * j) < 2 ^ 53 ->
  (JS.number_of_Z i * JS.number_of_Z j)%float = JS.number_of_Z (i * j).
Proof.
  intros Hi Hj Hb. rewrite Z.abs_mul in Hb.
  destruct (number_of_Z_nonzero i Hi ltac:(nia)) as (mi & ei & Ei & Vi).
  destruct (number_of_Z_nonzero j Hj ltac:(nia)) as (mj & ej & Ej & Vj).
  destruct (binary_round_aux_integer (xorb (i <? 0) (j <? 0)) (Z.pos (mi * mj)) (ei + ej)
              (Z.abs i * Z.abs j)) as (m & e & E & V); try lia.
  { rewrite Pos2Z.inj_mul, F2R_mul, Vi, Vj, mult_IZR. reflexivity. }
  apply (number_of_Z_unique_signed _ (xorb (i <? 0) (j <? 0)) m e).
  - rewrite FloatAxioms.mul_spec, Ei, Ej. exact E.
  - now rewrite Z.abs_mul.
  - now apply xorb_sign_mul.
  - rewrite Z.abs_mul. lia.
Qed.

Lemma mul_one_l (k : Z) :
  Z.abs k < 2 ^ 53 -> (1 * JS.number_of_Z k)%float = JS.number_of_Z k.
Proof.
  intros H. destruct (Z.eq_dec k 0) as [->|Hz]; [reflexivity|].
  change 1%float with (JS.number_of_Z 1).
  rewrite mul_integers; try lia; f_equal; lia.
Qed.

Lemma mul_one_r (k : Z) :
  Z.abs k < 2 ^ 53 -> (JS.number_of_Z k * 1)%float = JS.number_of_Z k.
Proof.
  intros H. destruct (Z.eq_dec k 0) as [->|Hz]; [reflexivity|].
  change 1%float with (JS.number_of_Z 1).
  rewrite mul_integers; try lia; f_equal; lia.
Qed.

Lemma number_of_Z_cases (k : Z) :
  Z.abs k < 2 ^ 53 ->
  Prim2SF (JS.number_of_Z k) = S754_zero false \/
  exists s m e, Prim2SF (JS.number_of_Z k) = S754_finite s m e.
Proof.
  intros H. destruct (Z.eq_dec k 0) as [->|Hz]; [now left|right].
  destruct (number_of_Z_nonzero k Hz H) as (m & e & E & _). eauto.
Qed.

Lemma mul_zero_l (k : Z) :
  Z.abs k < 2 ^ 53 ->
  exists s, Prim2SF (0 * JS.number_of_Z k)%float = S754_zero s.
Proof.
  intros H. rewrite FloatAxioms.mul_spec.
  destruct (number_of_Z_cases k H) as [E|(s & m & e & E)]; rewrite E; cbn; eauto.
Qed.

Lemma add_zero_r (k : Z) (z : float) (s : bool) :
  Z.abs k < 2 ^ 53 -> Prim2SF z = S754_zero s ->
  (JS.number_of_Z k + z)%float = JS.number_of_Z k.
Proof.
  intros H Hz. apply Prim2SF_inj. rewrite FloatAxioms.add_spec, Hz.
  destruct (number_of_Z_cases k H) as [E|(s' & m & e & E)]; rewrite E; cbn.
  - now destruct s.
  - reflexivity.
Qed.

Lemma add_integers (i j : Z) :
  0 < i -> 0 < j -> i + j < 2 ^ 53 ->
  (JS.number_of_Z i + JS.number_of_Z j)%float = JS.number_of_Z (i + j).
Proof.
  intros Hi Hj Hb.
  destruct (number_of_Z_pos i ltac:(lia)) as (mi & ei & Ei & Vi).
  destruct (number_of_Z_pos j ltac:(lia)) as (mj & ej & Ej & Vj).
  destruct (shl_align_spec mi ei (Z.min ei ej)) as (ai & zi & Ai & Zi & Wi).
  destruct (shl_align_spec mj ej (Z.min ei ej)) as (aj & zj & Aj & Zj & Wj).
  replace (Z.min ei (Z.min ei ej)) with (Z.min ei ej) in Zi by lia.
  replace (Z.min ej (Z.min ei ej)) with (Z.min ei ej) in Zj by lia.
  subst zi zj.
  destruct (binary_normalize_integer (Z.pos ai + Z.pos aj) (Z.min ei ej) (i + j) false)
    as (m & e & E & V); try lia.
  { rewrite F2R_add, Wi, Wj, Vi, Vj, plus_IZR. reflexivity. }
  apply (number_of_Z_unique _ m e); [|exact V|lia].
  rewrite FloatAxioms.add_spec, Ei, Ej. unfold SF64add, SFadd. rewrite Ai, Aj. exact E.
Qed.

Lemma add_one (k : Z) :
  0 <= k -> k + 1 < 2 ^ 53 ->
  (JS.number_of_Z k + 1)%float = JS.number_of_Z (k + 1).
Proof.
  intros H Hb. destruct (Z.eq_dec k 0) as [->|Hz]; [reflexivity|].
  change 1%float with (JS.number_of_Z 1). apply add_integers; lia.
Qed.

Lemma sub_self (k : Z) :
  0 <= k < 2 ^ 53 -> (JS.number_of_Z k - JS.number_of_Z k)%float = 0%float.
Proof.
  intros H. destruct (Z.eq_dec k 0) as [->|Hz]; [reflexivity|].
  destruct (number_of_Z_pos k ltac:(lia)) as (m & e & E & V).
  apply Prim2SF_inj. rewrite FloatAxioms.sub_spec, E. unfold SF64sub, SFsub.
  rewrite Z.sub_diag. reflexivity.
Qed.

(** ** Division *)

Lemma new_location_0 (nb : Z) : new_location nb 0 = loc_Exact.
Proof.
  unfold new_location, new_location_even, new_location_odd.
  destruct (Z.even nb); reflexivity.
Qed.

(** The quotient and remainder inside [SFdiv]. *)
Lemma SFdiv_core_spec (m1 m2 : positive) (e1 e2 : Z) :
  let e' := Z.min (fexp (Zdigits2 (Z.pos m1) + e1 - (Zdigits2 (Z.pos m2) + e2))) (e1 - e2) in
  exists q r l,
    SFdiv_core_binary prec emax (Z.pos m1) e1 (Z.pos m2) e2 = (q, e', l) /\
    0 <= q /\ 0 <= r < Z.pos m2 /\
    Z.pos m1 * 2 ^ (e1 - e2 - e') = Z.pos m2 * q + r /\
    (r = 0 -> l = loc_Exact).
Proof.
  intros e'. unfold SFdiv_core_binary. fold e'.
  set (s := e1 - e2 - e').
  assert (Hs : 0 <= s) by (unfold s, e'; lia).
  set (m' := match s with
             | 0 => Z.pos m1
             | Z.pos _ => Z.shiftl (Z.pos m1) s
             | Z.neg _ => 0
             end).
  assert (Em : m' = Z.pos m1 * 2 ^ s).
  { unfold m'. destruct s as [|p|p] eqn:Es; try lia.
    rewrite Z.shiftl_mul_pow2 by lia. reflexivity. }
  pose proof (Z_div_mod m' (Z.pos m2) ltac:(lia)) as Hdm.
  destruct (Z.div_eucl m' (Z.pos m2)) as [q r].
  destruct Hdm as [Hq Hr].
  exists q, r, (new_location (Z.pos m2) r). split; [reflexivity|].
  assert (0 <= m') by (rewrite Em; pose proof (two_pow_pos s Hs); lia).
  repeat split; try lia.
  - nia.
  - intros ->. apply new_location_0.
Qed.

(** A quotient that is an integer below 2^52 is computed exactly. *)
Lemma div_exact (x y : float) (sx sy : bool) (mx my : positive) (ex ey K : Z) :
  Prim2SF x = S754_finite sx mx ex ->
  Prim2SF y = S754_finite sy my ey ->
  0 < K < 2 ^ 52 ->
  F2R (Z.pos mx) ex = (IZR K * F2R (Z.pos my) ey)%R ->
  exists m e,
    Prim2SF (x / y)%float = S754_finite (xorb sx sy) m e /\
    F2R (Z.pos m) e = IZR K.
Proof.
  intros Hx Hy HK H.
  rewrite FloatAxioms.div_spec, Hx, Hy. unfold SF64div, SFdiv.
  destruct (SFdiv_core_spec mx my ex ey) as (q & r & l & E & Hq & Hr & Hdiv & Hl).
  cbv zeta in E, Hdiv. rewrite E.
  set (e' := Z.min (fexp (Zdigits2 (Z.pos mx) + ex - (Zdigits2 (Z.pos my) + ey))) (ex - ey)) in *.
  (* the exponent of the quotient is negative *)
  assert (Hd : Zdigits2 (Z.pos mx) + ex - (Zdigits2 (Z.pos my) + ey) <= 52).
  { destruct (F2R_magnitude (Z.pos mx) ex ltac:(lia)) as [L _].
    destruct (F2R_magnitude (Z.pos my) ey ltac:(lia)) as [_ U].
    assert (IZR K < bpow 52)%R.
    { rewrite bpow_IZR by lia. apply IZR_lt. lia. }
    assert (0 < IZR K)%R by (apply IZR_lt; lia).
    pose proof (bpow_pos (Zdigits2 (Z.pos my) + ey)).
    assert (bpow (Zdigits2 (Z.pos mx) + ex - 1) < bpow (52 + (Zdigits2 (Z.pos my) + ey)))%R.
    { rewrite bpow_add. rewrite H in L. nra. }
    apply bpow_lt_inv in H3. lia. }
  assert (He' : e' <= -1).
  { unfold e'. rewrite fexp_eq. lia. }
  assert (Hs : 0 <= ex - ey - e') by (unfold e'; lia).
  (* the remainder is zero *)
  assert (HQ : Z.pos mx * 2 ^ (ex - ey - e') = K * Z.pos my * 2 ^ (- e')).
  { apply (F2R_eq_inv _ _ (ey + e')).
    rewrite F2R_shift by lia. replace (ey + e' + (ex - ey - e')) with ex by lia.
    rewrite F2R_shift by lia. replace (ey + e' + - e') with ey by lia.
    rewrite H. unfold F2R. rewrite mult_IZR. ring. }
  pose proof (two_pow_pos (- e') ltac:(lia)) as Hp.
  assert (Hqr : q = K * 2 ^ (- e') /\ r = 0).
  { rewrite HQ in Hdiv.
    assert (Z.pos my * (K * 2 ^ (- e') - q) = r) by lia.
    assert (K * 2 ^ (- e') - q = 0) by nia. split; nia. }
  destruct Hqr as [-> ->].
  rewrite (Hl eq_refl).
  apply binary_round_aux_integer; try lia.
  rewrite F2R_shift by lia. replace (e' + - e') with 0 by lia.
  unfold F2R. rewrite bpow_0. ring.
Qed.

Lemma Prim2SF_1 : Prim2SF 1 = S754_finite false 4503599627370496 (-52).
Proof. reflexivity. Qed.

Lemma F2R_1 : F2R 4503599627370496 (-52) = 1%R.
Proof.
  change 4503599627370496 with (1 * 2 ^ 52). rewrite F2R_shift by lia.
  replace (-52 + 52) with 0 by reflexivity.
  unfold F2R. rewrite bpow_0. lra.
Qed.

(** Equal finite rates: the ratio is 1. *)
Lemma div_self (r : float) (s : bool) (m : positive) (e : Z) :
  Prim2SF r = S754_finite s m e -> (r / r)%float = 1%float.
Proof.
  intros Hr.
  destruct (div_exact r r s s m m e e 1 Hr Hr ltac:(lia)) as (m' & e' & E & V).
  { lra. }
  rewrite xorb_nilpotent in E.
  eapply finite_unique; [exact E|exact Prim2SF_1|].
  rewrite V, F2R_1. reflexivity.
Qed.

Lemma div_one (k : Z) :
  0 <= k < 2 ^ 52 -> (JS.number_of_Z k / 1)%float = JS.number_of_Z k.
Proof.
  intros H. destruct (Z.eq_dec k 0) as [->|Hz]; [reflexivity|].
  destruct (number_of_Z_pos k) as (m & e & E & V).
  { assert (2 ^ 52 < 2 ^ 53) by reflexivity. lia. }
  destruct (div_exact _ _ false false m _ e _ k E Prim2SF_1 ltac:(lia)) as (m' & e' & E' & V').
  { rewrite V, F2R_1. ring. }
  apply (number_of_Z_unique _ m' e'); auto.
  assert (2 ^ 52 < 2 ^ 53) by reflexivity. lia.
Qed.

(** ** Comparison of non-negative integers held in numbers *)

Lemma F2R_lt_inv (m m' e : Z) : (F2R m e < F2R m' e)%R -> m < m'.
Proof.
  intros H. destruct (Z_lt_le_dec m m') as [|Hge]; [assumption|].
  apply (F2R_le _ _ e) in Hge. lra.
Qed.

(** Canonical positive numbers compare as their values do. *)
Lemma SFltb_canonical (m1 m2 : positive) (e1 e2 : Z) :
  canonical_mantissa prec emax m1 e1 = true ->
  canonical_mantissa prec emax m2 e2 = true ->
  SFltb (S754_finite false m1 e1) (S754_finite false m2 e2) = true <->
  (F2R (Z.pos m1) e1 < F2R (Z.pos m2) e2)%R.
Proof.
  intros C1 C2. apply canonical_mantissa_eq in C1, C2.
  assert (Hexp : forall ma mb ea eb,
             fexp (Zdigits2 (Z.pos ma) + ea) = ea -> fexp (Zdigits2 (Z.pos mb) + eb) = eb ->
             ea < eb -> (F2R (Z.pos ma) ea < F2R (Z.pos mb) eb)%R).
  { intros ma mb ea eb Ca Cb Hlt.
    assert (Zdigits2 (Z.pos ma) + ea < Zdigits2 (Z.pos mb) + eb).
    { destruct (Z_lt_le_dec (Zdigits2 (Z.pos ma) + ea) (Zdigits2 (Z.pos mb) + eb)); [assumption|].
      pose proof (fexp_mono _ _ l). lia. }
    destruct (F2R_magnitude (Z.pos ma) ea ltac:(lia)) as [_ U].
    destruct (F2R_magnitude (Z.pos mb) eb ltac:(lia)) as [L _].
    assert (bpow (Zdigits2 (Z.pos ma) + ea) <= bpow (Zdigits2 (Z.pos mb) + eb - 1))%R
      by (apply bpow_le; lia).
    lra. }
  unfold SFltb, SFcompare.
  destruct (Z.compare_spec e1 e2) as [E|E|E].
  - subst e2. change (Pos.compare_cont Eq m1 m2) with (Z.pos m1 ?= Z.pos m2).
    destruct (Z.compare_spec (Z.pos m1) (Z.pos m2)) as [E|E|E].
    + rewrite E. split; [discriminate|lra].
    + split; [intros _; now apply F2R_lt|reflexivity].
    + split; [discriminate|]. intros H. apply F2R_lt_inv in H. lia.
  - split; [intros _; now apply Hexp|reflexivity].
  - split; [discriminate|]. intros H. pose proof (Hexp m2 m1 e2 e1 C2 C1 E). lra.
Qed.

Lemma ltb_integers (a b : Z) :
  0 <= a < 2 ^ 53 -> 0 <= b < 2 ^ 53 ->
  (JS.number_of_Z a <? JS.number_of_Z b)%float = (a <? b).
Proof.
  intros Ha Hb. rewrite FloatAxioms.ltb_spec.
  destruct (Z.eq_dec a 0) as [->|Hza], (Z.eq_dec b 0) as [->|Hzb].
  - reflexivity.
  - destruct (number_of_Z_pos b ltac:(lia)) as (m & e & E & V).
    rewrite number_of_Z_0, E. cbn. symmetry. apply Z.ltb_lt. lia.
  - destruct (number_of_Z_pos a ltac:(lia)) as (m & e & E & V).
    rewrite number_of_Z_0, E. cbn. symmetry. apply Z.ltb_ge. lia.
  - destruct (number_of_Z_pos a ltac:(lia)) as (ma & ea & Ea & Va).
    destruct (number_of_Z_pos b ltac:(lia)) as (mb & eb & Eb & Vb).
    pose proof (Prim2SF_valid (JS.number_of_Z a)) as Ca.
    pose proof (Prim2SF_valid (JS.number_of_Z b)) as Cb.
    rewrite Ea in Ca. rewrite Eb in Cb.
    apply valid_binary_canonical in Ca as [Ca _], Cb as [Cb _].
    rewrite Ea, Eb.
    pose proof (SFltb_canonical ma mb ea eb Ca Cb) as H. rewrite Va, Vb in H.
    destruct (a <? b) eqn:E.
    + apply H. apply IZR_lt. now apply Z.ltb_lt.
    + destruct (SFltb _ _) eqn:E'; [|reflexivity].
      apply Z.ltb_ge in E. assert (Hlt : (IZR a < IZR b)%R) by (apply H; reflexivity).
      apply lt_IZR in Hlt. lia.
Qed.

Lemma is_nan_integer (k : Z) : Z.abs k < 2 ^ 53 -> is_nan (JS.number_of_Z k) = false.
Proof.
  intros H. unfold is_nan. rewrite FloatAxioms.eqb_spec.
  destruct (number_of_Z_cases k H) as [E|(s & m & e & E)]; rewrite E; [reflexivity|].
  unfold SFeqb, SFcompare. rewrite Z.compare_refl, Pos.compare_cont_refl.
  destruct s; reflexivity.
Qed.

Lemma Math_min_integers (a b : Z) :
  0 <= a < 2 ^ 53 -> 0 <= b < 2 ^ 53 ->
  JS.Math_min (JS.number_of_Z a) (JS.number_of_Z b) = JS.number_of_Z (Z.min a b).
Proof.
  intros Ha Hb. unfold JS.Math_min.
  rewrite !is_nan_integer by lia. cbn [orb].
  rewrite !ltb_integers by lia.
  destruct (a <? b) eqn:E1.
  - apply Z.ltb_lt in E1. now rewrite Z.min_l by lia.
  - apply Z.ltb_ge in E1. destruct (b <? a) eqn:E2.
    + apply Z.ltb_lt in E2. now rewrite Z.min_r by lia.
    + apply Z.ltb_ge in E2. assert (a = b) by lia. subst b.
      rewrite Z.min_id. now destruct (get_sign _).
Qed.

(** ** Roundings that lose something: how much *)

Lemma F2R_succ (m e : Z) : F2R (m + 1) e = (F2R m e + bpow e)%R.
Proof. unfold F2R. rewrite plus_IZR. ring. Qed.

Lemma truncation_bounds (mx ex k : Z) :
  0 <= mx -> 0 <= k ->
  (F2R (mx / 2 ^ k) (ex + k) <= F2R mx ex < F2R (mx / 2 ^ k + 1) (ex + k))%R.
Proof.
  intros Hm Hk. pose proof (two_pow_pos k Hk) as Hp.
  rewrite <- !F2R_shift by lia. split.
  - apply F2R_le. rewrite Z.mul_comm. apply Z.mul_div_le. lia.
  - apply F2R_lt. pose proof (Z.mod_pos_bound mx (2 ^ k) Hp).
    pose proof (Z.div_mod mx (2 ^ k) ltac:(lia)). nia.
Qed.

(** The unit of the rounding exponent against the value rounded. *)
Lemma ulp_bound (mx ex : Z) :
  0 < mx -> (bpow (fexp (Zdigits2 mx + ex)) <= err (F2R mx ex))%R.
Proof.
  intros Hm. unfold err. rewrite fexp_eq.
  destruct (F2R_magnitude mx ex Hm) as [L _].
  pose proof (bpow_pos (-52)). pose proof (bpow_pos (-1074)).
  pose proof (F2R_pos mx ex Hm).
  destruct (Z.max_spec (Zdigits2 mx + ex - 53) (-1074)) as [[_ ->]|[_ ->]].
  - nra.
  - replace (Zdigits2 mx + ex - 53) with ((Zdigits2 mx + ex - 1) + -52) by lia.
    rewrite bpow_add. nra.
Qed.

(** What [binary_round_aux] returns for a positive value, in reals. *)
Lemma binary_round_aux_bounds (mx ex : Z) (lx : location) :
  0 <= mx ->
  let e1 := Z.max ex (fexp (Zdigits2 mx + ex)) in
  let q := mx / 2 ^ (e1 - ex) in
  0 <= q /\
  (F2R q e1 <= F2R mx ex < F2R (q + 1) e1)%R /\
  match binary_round_aux prec emax false mx ex lx with
  | S754_zero s => s = false /\ q = 0
  | S754_finite s m e =>
      s = false /\
      (F2R (Z.pos m) e = F2R q e1 \/ F2R (Z.pos m) e = F2R (q + 1) e1) /\
      (lx = loc_Exact -> e1 = ex -> F2R (Z.pos m) e = F2R mx ex)
  | S754_infinity _ => (bpow 972 <= F2R (q + 1) e1)%R
  | S754_nan => False
  end.
Proof.
  intros Hm e1 q.
  assert (Hk : 0 <= e1 - ex) by (unfold e1; lia).
  assert (Hq0 : 0 <= q) by (apply Z.div_pos; [lia|now apply two_pow_pos]).
  split; [exact Hq0|]. split.
  { pose proof (truncation_bounds mx ex (e1 - ex) Hm Hk) as H.
    replace (ex + (e1 - ex)) with e1 in H by lia. exact H. }
  destruct (binary_round_aux_spec false mx ex lx Hm) as (m1 & B & X & R).
  fold e1 in B, X, R. fold q in B, X, R.
  destruct (binary_round_aux prec emax false mx ex lx) as [s|s| |s m e].
  - destruct R as [-> ->]. split; [reflexivity|lia].
  - destruct R as (_ & e & He & Hle & Hpow).
    assert (bpow 972 <= bpow e)%R by (apply bpow_le; lia).
    assert (F2R (2 ^ (e - e1)) e1 <= F2R (q + 1) e1)%R by (apply F2R_le; lia).
    unfold F2R at 1 in H0. rewrite <- bpow_IZR, <- bpow_add in H0 by lia.
    replace (e - e1 + e1) with e in H0 by lia. lra.
  - contradiction.
  - destruct R as (-> & Hle & Hv). split; [reflexivity|].
    rewrite (round_value (Z.pos m) e m1 e1 Hle Hv). split.
    + assert (m1 = q \/ m1 = q + 1) as [->| ->] by lia; auto.
    + intros Hl He. assert (Hq : m1 = q).
      { apply X; [assumption|]. replace (e1 - ex) with 0 by lia. apply Z.mod_1_r. }
      rewrite Hq. unfold q. replace (e1 - ex) with 0 by lia.
      rewrite Z.pow_0_r, Z.div_1_r. f_equal. exact He.
Qed.

Lemma err_pos (v : R) : (0 <= v)%R -> (0 < err v)%R.
Proof.
  intros H. unfold err. pose proof (bpow_pos (-52)). pose proof (bpow_pos (-1074)). nra.
Qed.

Lemma err_mono (u v : R) : (u <= v)%R -> (err u <= err v)%R.
Proof. intros H. unfold err. pose proof (bpow_pos (-52)). nra. Qed.

(** Products of positive numbers: at most the exact product and its
    rounding error. *)
Lemma mul_bounds (a b : float) (ma mb : positive) (ea eb : Z) :
  Prim2SF a = S754_finite false ma ea ->
  Prim2SF b = S754_finite false mb eb ->
  let y := (F2R (Z.pos ma) ea * F2R (Z.pos mb) eb)%R in
  match Prim2SF (a * b)%float with
  | S754_zero s => s = false
  | S754_finite s m e => s = false /\ (F2R (Z.pos m) e <= y + err y)%R
  | S754_infinity _ => (bpow 972 <= 2 * y + err y)%R
  | S754_nan => False
  end.
Proof.
  intros Ha Hb y. rewrite FloatAxioms.mul_spec, Ha, Hb. unfold SF64mul, SFmul.
  cbn [xorb].
  set (mx := Z.pos (ma * mb)). set (ex := ea + eb).
  assert (Hmx : 0 < mx) by (unfold mx; lia).
  assert (Ey : y = F2R mx ex).
  { unfold y, mx, ex. rewrite Pos2Z.inj_mul, F2R_mul. reflexivity. }
  destruct (binary_round_aux_bounds mx ex loc_Exact ltac:(lia)) as (Hq0 & [B1 B2] & R).
  cbv zeta in Hq0, B1, B2, R.
  set (e1 := Z.max ex (fexp (Zdigits2 mx + ex))) in *.
  set (q := mx / 2 ^ (e1 - ex)) in *.
  pose proof (ulp_bound mx ex Hmx) as Hu. rewrite <- Ey in Hu, B1, B2.
  assert (Hy0 : (0 < y)%R) by (rewrite Ey; now apply F2R_pos).
  pose proof (err_pos y ltac:(lra)) as He0.
  assert (Hcase : e1 = ex \/ (e1 <> ex /\ e1 = fexp (Zdigits2 mx + ex))) by (unfold e1; lia).
  assert (Hup : e1 <> ex -> (F2R (q + 1) e1 <= y + err y)%R).
  { intros Hne. destruct Hcase as [|[_ E]]; [contradiction|].
    rewrite F2R_succ, E. rewrite E in B1. lra. }
  destruct (binary_round_aux prec emax false mx ex loc_Exact) as [s|s| |s m e].
  - tauto.
  - destruct Hcase as [E|[Hne _]].
    + assert (q = mx).
      { unfold q. replace (e1 - ex) with 0 by lia. now rewrite Z.pow_0_r, Z.div_1_r. }
      rewrite H, F2R_succ, E in R. rewrite <- Ey in R.
      assert (bpow ex <= y)%R.
      { rewrite Ey. unfold F2R. pose proof (bpow_pos ex).
        assert (1 <= IZR mx)%R by (apply IZR_le; lia). nra. }
      lra.
    + specialize (Hup Hne). lra.
  - contradiction.
  - destruct R as (-> & Hv & Hex). split; [reflexivity|].
    destruct Hcase as [E|[Hne _]].
    + rewrite (Hex eq_refl E), <- Ey. lra.
    + specialize (Hup Hne). destruct Hv as [-> | ->]; lra.
Qed.

(** The quotient inside [SFdiv] has the digits its rounding needs. *)
Lemma SFdiv_core_digits (m1 m2 : positive) (e1 e2 q r : Z) :
  let e' := Z.min (fexp (Zdigits2 (Z.pos m1) + e1 - (Zdigits2 (Z.pos m2) + e2))) (e1 - e2) in
  0 <= q -> 0 <= r < Z.pos m2 ->
  Z.pos m1 * 2 ^ (e1 - e2 - e') = Z.pos m2 * q + r ->
  e' <= fexp (Zdigits2 q + e').
Proof.
  intros e' Hq Hr Hdiv.
  set (s := e1 - e2 - e') in *.
  assert (Hs : 0 <= s) by (unfold s, e'; lia).
  set (d1 := Zdigits2 (Z.pos m1)) in *. set (d2 := Zdigits2 (Z.pos m2)) in *.
  destruct (Zdigits2_bounds (Z.pos m1) ltac:(lia)) as [L1 _]. fold d1 in L1.
  destruct (Zdigits2_bounds (Z.pos m2) ltac:(lia)) as [_ U2]. fold d2 in U2.
  assert (Hd1 : 0 < d1) by (apply Zdigits2_pos; lia).
  assert (Hd2 : 0 < d2) by (apply Zdigits2_pos; lia).
  assert (Hdq : d1 - d2 + s <= Zdigits2 q).
  { destruct (Z_le_gt_dec (d1 - d2 + s) 0) as [Hle|Hgt].
    - pose proof (Zdigits2_nonneg q). lia.
    - apply Zdigits2_ge; [lia|].
      set (t := d1 - d2 + s) in *.
      assert (E : 2 ^ (d1 - 1) * 2 ^ s = 2 ^ (t - 1) * 2 ^ d2).
      { rewrite <- !Z.pow_add_r by lia. f_equal. unfold t. lia. }
      pose proof (two_pow_pos s Hs). pose proof (two_pow_pos (t - 1) ltac:(lia)).
      pose proof (two_pow_pos d2 ltac:(lia)).
      assert (2 ^ (t - 1) * 2 ^ d2 <= Z.pos m1 * 2 ^ s) by (rewrite <- E; nia).
      assert (2 ^ (t - 1) * Z.pos m2 < Z.pos m2 * q + r) by nia.
      nia. }
  assert (fexp (d1 + e1 - (d2 + e2)) <= fexp (Zdigits2 q + e')).
  { apply fexp_mono. unfold s in Hdq. lia. }
  unfold e' at 1. lia.
Qed.

(** Quotients of positive numbers: at most the exact quotient and its
    rounding error, and at least half of it. *)
Lemma div_bounds (a b : float) (ma mb : positive) (ea eb : Z) :
  Prim2SF a = S754_finite false ma ea ->
  Prim2SF b = S754_finite false mb eb ->
  let x := (F2R (Z.pos ma) ea / F2R (Z.pos mb) eb)%R in
  match Prim2SF (a / b)%float with
  | S754_zero s => s = false
  | S754_finite s m e =>
      s = false /\ (F2R (Z.pos m) e <= x + err x)%R /\ (x <= 2 * F2R (Z.pos m) e)%R
  | S754_infinity _ => True
  | S754_nan => False
  end.
Proof.
  intros Ha Hb x. rewrite FloatAxioms.div_spec, Ha, Hb. unfold SF64div, SFdiv.
  cbn [xorb].
  destruct (SFdiv_core_spec ma mb ea eb) as (q0 & r & l & E & Hq0 & Hr & Hdiv & _).
  cbv zeta in E, Hdiv. rewrite E.
  pose proof (SFdiv_core_digits ma mb ea eb q0 r Hq0 Hr Hdiv) as Hdig.
  cbv zeta in Hdig.
  set (e' := Z.min (fexp (Zdigits2 (Z.pos ma) + ea - (Zdigits2 (Z.pos mb) + eb))) (ea - eb)) in *.
  assert (Hs : 0 <= ea - eb - e') by (unfold e'; lia).
  pose proof (F2R_pos (Z.pos ma) ea ltac:(lia)) as Pa.
  pose proof (F2R_pos (Z.pos mb) eb ltac:(lia)) as Pb.
  (* the exact quotient lies between [q0] and [q0 + 1] units of [2^e'] *)
  assert (Hx : (F2R q0 e' <= x < F2R (q0 + 1) e')%R).
  { assert (Ea : F2R (Z.pos ma) ea = (F2R (Z.pos mb) eb * F2R q0 e' + F2R r (eb + e'))%R).
    { replace ea with ((eb + e') + (ea - eb - e')) at 1 by lia.
      rewrite <- F2R_shift, Hdiv, F2R_add by lia.
      rewrite Z.mul_comm. replace (eb + e') with (e' + eb) at 1 by lia.
      rewrite F2R_mul. ring. }
    assert (Hr1 : (0 <= F2R r (eb + e'))%R).
    { unfold F2R. apply Rmult_le_pos; [apply IZR_le; lia|apply Rlt_le, bpow_pos]. }
    assert (Hr2 : (F2R r (eb + e') < F2R (Z.pos mb) eb * bpow e')%R).
    { unfold F2R. rewrite bpow_add. pose proof (bpow_pos eb). pose proof (bpow_pos e').
      assert (IZR r < IZR (Z.pos mb))%R by (apply IZR_lt; lia).
      assert (0 < bpow eb * bpow e')%R by nra. nra. }
    unfold x. rewrite F2R_succ. rewrite Ea. split.
    - apply Rmult_le_reg_r with (F2R (Z.pos mb) eb); [exact Pb|].
      unfold Rdiv. rewrite Rmult_assoc, Rinv_l by lra. nra.
    - apply Rmult_lt_reg_r with (F2R (Z.pos mb) eb); [exact Pb|].
      unfold Rdiv. rewrite Rmult_assoc, Rinv_l by lra. nra. }
  destruct (binary_round_aux_bounds q0 e' l Hq0) as (Hq & [B1 B2] & R).
  cbv zeta in Hq, B1, B2, R.
  replace (Z.max e' (fexp (Zdigits2 q0 + e'))) with (fexp (Zdigits2 q0 + e')) in * by lia.
  set (e1 := fexp (Zdigits2 q0 + e')) in *.
  set (q := q0 / 2 ^ (e1 - e')) in *.
  assert (Hx0 : (0 <= x)%R).
  { destruct Hx as [Hx _]. assert (0 <= F2R q0 e')%R; [|lra].
    unfold F2R. apply Rmult_le_pos; [apply IZR_le; lia|apply Rlt_le, bpow_pos]. }
  (* the unit of the rounding against the quotient *)
  assert (Hu : (bpow e1 <= err x)%R).
  { destruct (Z.eq_dec q0 0) as [Z0|NZ].
    - unfold e1 in *. rewrite Z0 in *. cbn [Zdigits2 Z.add] in *.
      rewrite fexp_eq in *.
      assert (Z.max (e' - 53) (-1074) = -1074) as -> by lia.
      unfold err. pose proof (bpow_pos (-52)). nra.
    - pose proof (ulp_bound q0 e' ltac:(lia)) as H. fold e1 in H.
      pose proof (err_mono (F2R q0 e') x ltac:(lra)). lra. }
  (* the exact quotient lies in the same interval as the result *)
  assert (Hxq : (x < F2R (q + 1) e1)%R).
  { assert (q0 + 1 <= (q + 1) * 2 ^ (e1 - e')).
    { assert (F2R q0 e' < F2R ((q + 1) * 2 ^ (e1 - e')) e')%R.
      { rewrite F2R_shift by lia. replace (e' + (e1 - e')) with e1 by lia. exact B2. }
      apply F2R_lt_inv in H. lia. }
    assert (F2R (q0 + 1) e' <= F2R ((q + 1) * 2 ^ (e1 - e')) e')%R by now apply F2R_le.
    rewrite F2R_shift in H0 by lia. replace (e' + (e1 - e')) with e1 in H0 by lia. lra. }
  destruct (binary_round_aux prec emax false q0 e' l) as [s|s| |s m e].
  - tauto.
  - exact I.
  - contradiction.
  - destruct R as (-> & Hv & _). split; [reflexivity|].
    rewrite F2R_succ in Hv, Hxq.
    assert (Hq' : (0 <= F2R q e1)%R).
    { unfold F2R. apply Rmult_le_pos; [apply IZR_le; lia|apply Rlt_le, bpow_pos]. }
    pose proof (bpow_pos e1) as Pe.
    destruct Hv as [Hv|Hv].
    + (* rounded down: the mantissa is at least one *)
      assert (1 <= q).
      { destruct (Z.eq_dec q 0) as [Z0|]; [|lia]. exfalso.
        rewrite Z0 in Hv. unfold F2R at 2 in Hv. rewrite Rmult_0_l in Hv.
        pose proof (F2R_pos (Z.pos m) e ltac:(lia)). lra. }
      assert (bpow e1 <= F2R q e1)%R.
      { unfold F2R. assert (1 <= IZR q)%R by (apply IZR_le; lia). nra. }
      rewrite Hv. split; lra.
    + rewrite Hv. split; lra.
Qed.

(** ** The last source index stays inside the input *)

Lemma bpow_m52 : (bpow (-52) * 4503599627370496 = 1)%R.
Proof.
  change 4503599627370496%R with (IZR (2 ^ 52)). rewrite <- bpow_IZR by lia.
  rewrite Rmult_comm. apply (bpow_opp 52).
Qed.

Lemma bpow_m1074 : (bpow (-1074) * 1267650600228229401496703205376 <= 1)%R.
Proof.
  change 1267650600228229401496703205376%R with (IZR (2 ^ 100)).
  rewrite <- bpow_IZR by lia. rewrite <- bpow_add.
  change 1%R with (bpow 0). apply bpow_le. lia.
Qed.

(** The arithmetic of the bound, over the reals: [x] the exact quotient
    [n / r], [X] its rounding, [L] the rounded length, [i] an iteration,
    [Y] the rounded product [i * r]. *)
Lemma last_index_below (n r x X L i Y : R) :
  (1 <= n)%R -> (0 < r)%R -> (x * r = n)%R ->
  (X <= x + err x)%R -> (x <= 2 * X)%R ->
  (L <= X + 1 / 2)%R -> (X < L + 1 / 2)%R ->
  (L <= 281474976710656)%R ->
  (0 <= i <= L - 1)%R ->
  (Y <= i * r + err (i * r))%R ->
  (Y < n)%R.
Proof.
  intros Hn Hr Hx HX Hlow HL1 HL2 HM Hi HY.
  unfold err in *.
  pose proof bpow_m52 as He. pose proof bpow_m1074 as Hh.
  pose proof (bpow_pos (-52)) as Pe. pose proof (bpow_pos (-1074)) as Ph.
  set (eps := bpow (-52)) in *. set (eta := bpow (-1074)) in *.
  assert (Hx0 : (0 < x)%R) by nra.
  assert (Hxc : (x <= 562949953421313)%R) by lra.
  assert (Hnr : (n <= 562949953421313 * r)%R) by nra.
  assert (Hy : (i * r <= (X - 1 / 2) * r)%R) by nra.
  assert (Hy2 : ((X - 1 / 2) * r <= n + n * eps + eta * r - r / 2)%R) by nra.
  assert (Heps : (eps <= 1 / 4503599627370496)%R) by lra.
  assert (Heta : (eta <= 1 / 1267650600228229401496703205376)%R) by lra.
  assert (Hyy : (i * r <= n + n * eps - r * (1 / 2 - eta))%R) by lra.
  assert (Hyn : (i * r <= 2 * n)%R) by nra.
  assert (HY2 : (Y <= n + n * eps - r * (1 / 2 - eta) + 2 * n * eps + eta)%R) by nra.
  assert (Hr2 : (r * (1 / 2 - eta) >= n * (1 / 4 / 562949953421313))%R) by nra.
  nra.
Qed.

(** Under the same hypotheses the exact product is small. *)
Lemma product_small (n r x X L i : R) :
  (1 <= n)%R -> (0 < r)%R -> (x * r = n)%R ->
  (X <= x + err x)%R ->
  (L <= X + 1 / 2)%R ->
  (0 <= i <= L - 1)%R ->
  (i * r <= 2 * n)%R.
Proof.
  intros Hn Hr Hx HX HL1 Hi.
  unfold err in *.
  pose proof bpow_m52 as He. pose proof bpow_m1074 as Hh.
  pose proof (bpow_pos (-52)) as Pe. pose proof (bpow_pos (-1074)) as Ph.
  set (eps := bpow (-52)) in *. set (eta := bpow (-1074)) in *.
  assert (Hx0 : (0 < x)%R) by nra.
  assert (Hy : (i * r <= (X - 1 / 2) * r)%R) by nra.
  assert (Hy2 : ((X - 1 / 2) * r <= n + n * eps + eta * r - r / 2)%R) by nra.
  assert (Heps : (eps <= 1 / 4503599627370496)%R) by lra.
  assert (Heta : (eta <= 1 / 1267650600228229401496703205376)%R) by lra.
  nra.
Qed.

(** * The resampler *)

(** ** The loop *)

Lemma set_nat_length (a : Int16Array) (i : nat) (v : Z) :
  length (TypedArray.set_nat a i v) = length a.
Proof.
  revert i. induction a as [|x a IH]; intros [|i]; cbn; auto.
Qed.

Lemma set_length (a : Int16Array) (i : Z) (v : float) :
  length (TypedArray.set a i v) = length a.
Proof.
  unfold TypedArray.set. destruct (i <? 0); [reflexivity|apply set_nat_length].
Qed.

Lemma set_nat_app (l1 l2 : Int16Array) (x v : Z) :
  TypedArray.set_nat (l1 ++ x :: l2) (length l1) v = l1 ++ v :: l2.
Proof.
  induction l1 as [|y l1 IH]; cbn; [reflexivity|]. now rewrite IH.
Qed.

(** The loop writes inside [outputData]: its length is as allocated. *)
Lemma resample_loop_length (inputData : Int16Array) (ratio : float) (count : nat)
  (i : Z) (st : Int16Array * list float) :
  length (fst (resample_loop inputData ratio count i st)) = length (fst st).
Proof.
  revert i st. induction count as [|count IH]; intros i st; cbn [resample_loop].
  - reflexivity.
  - destruct (interpolate inputData ratio i) as [[lo up] v].
    rewrite IH. cbn [fst]. apply set_length.
Qed.

(** The reads of the loop: two per iteration, those of [interpolate]. *)
Lemma resample_loop_reads (inputData : Int16Array) (ratio : float) (count : nat)
  (i : Z) (st : Int16Array * list float) (P : float -> Prop) :
  Forall P (snd st) ->
  (forall j, i <= j < i + Z.of_nat count ->
     P (fst (fst (interpolate inputData ratio j))) /\
     P (snd (fst (interpolate inputData ratio j)))) ->
  Forall P (snd (resample_loop inputData ratio count i st)).
Proof.
  revert i st. induction count as [|count IH]; intros i st Hst H; cbn [resample_loop].
  - exact Hst.
  - pose proof (H i ltac:(lia)) as Hi.
    destruct (interpolate inputData ratio i) as [[lo up] v]. cbn [fst snd] in Hi.
    apply IH.
    + cbn [snd]. apply Forall_app. split; [exact Hst|].
      repeat constructor; tauto.
    + intros j Hj. apply H. lia.
Qed.

(** ** The length of the output *)

Lemma ToIndex_range (limit : Z) (n : float) (k : Z) :
  TypedArray.ToIndex limit n = Some k -> 0 <= k /\ (k = 0 \/ k <= limit).
Proof.
  unfold TypedArray.ToIndex. intros H.
  destruct (Prim2SF n) as [s|s| |s m e]; try discriminate;
    try (injection H as <-; lia).
  destruct (_ && _) eqn:E; [|discriminate]. injection H as <-.
  apply andb_true_iff in E as [E1 E2]. apply Z.leb_le in E1, E2. lia.
Qed.

Lemma create_length (limit : Z) (n : float) (k : Z) :
  TypedArray.ToIndex limit n = Some k ->
  exists a, TypedArray.create limit n = Some a /\ Z.of_nat (length a) = k.
Proof.
  intros H. unfold TypedArray.create. rewrite H.
  eexists. split; [reflexivity|]. rewrite repeat_length.
  destruct (ToIndex_range _ _ _ H). lia.
Qed.

(** ** Equal rates *)

Lemma two_pow_48_53 : 2 ^ 48 < 2 ^ 52 /\ 2 ^ 52 < 2 ^ 53.
Proof. split; reflexivity. Qed.

Lemma get_in_bounds (a : Int16Array) (k : Z) :
  0 <= k < Z.of_nat (length a) -> k < 2 ^ 53 ->
  TypedArray.get a (JS.number_of_Z k) = JS.number_of_Z (nth (Z.to_nat k) a 0).
Proof.
  intros H Hb. unfold TypedArray.get. rewrite index_of_number_integer by lia.
  replace (k <? Z.of_nat (length a)) with true by (symmetry; apply Z.ltb_lt; lia).
  reflexivity.
Qed.

Lemma int16_nth (a : Int16Array) (n : nat) : Forall int16 a -> int16 (nth n a 0).
Proof.
  intros H. destruct (Nat.lt_ge_cases n (length a)) as [Hlt|Hge].
  - rewrite Forall_forall in H. apply H. now apply nth_In.
  - rewrite nth_overflow by lia. unfold int16. lia.
Qed.

Lemma int16_abs (s : Z) : int16 s -> Z.abs s < 2 ^ 53.
Proof. unfold int16. assert (32768 < 2 ^ 53) by reflexivity. lia. Qed.

(** One iteration at ratio 1: it reads at [i] and at the clamped [i + 1],
    and stores the sample at [i]. *)
Lemma interpolate_ratio_1 (inputData : Int16Array) (i : Z) :
  Forall int16 inputData ->
  0 <= i < Z.of_nat (length inputData) ->
  Z.of_nat (length inputData) <= 2 ^ 48 ->
  exists v,
    interpolate inputData 1 i =
      (JS.number_of_Z i,
       JS.number_of_Z (Z.min (i + 1) (Z.of_nat (length inputData) - 1)), v) /\
    JS.ToInt16 v = nth (Z.to_nat i) inputData 0.
Proof.
  intros Hs Hi Hn. destruct two_pow_48_53 as [P1 P2].
  unfold interpolate.
  rewrite mul_one_r by lia.
  rewrite Math_floor_integer by lia.
  rewrite add_one by lia.
  rewrite Math_min_integers by lia.
  rewrite sub_self by lia.
  change (1 - 0)%float with 1%float.
  rewrite !get_in_bounds by lia.
  set (s := nth (Z.to_nat i) inputData 0).
  set (s' := nth (Z.to_nat (Z.min (i + 1) (Z.of_nat (length inputData) - 1))) inputData 0).
  pose proof (int16_nth inputData (Z.to_nat i) Hs) as Is. fold s in Is.
  pose proof (int16_nth inputData
                (Z.to_nat (Z.min (i + 1) (Z.of_nat (length inputData) - 1))) Hs) as Is'.
  fold s' in Is'.
  rewrite mul_one_l by now apply int16_abs.
  destruct (mul_zero_l s' (int16_abs s' Is')) as [sg Ez].
  rewrite (add_zero_r s _ sg (int16_abs s Is) Ez).
  eexists. split; [reflexivity|]. now apply ToInt16_integer.
Qed.

Lemma firstn_snoc (l : Int16Array) (i : nat) :
  (i < length l)%nat -> firstn (S i) l = firstn i l ++ [nth i l 0].
Proof.
  revert i. induction l as [|x l IH]; intros i H; cbn in H; [lia|].
  destruct i as [|i]; [reflexivity|]. cbn [firstn nth app].
  f_equal. apply IH. lia.
Qed.

Lemma loop_ratio_1 (inputData : Int16Array) (count i : nat) (log : list float) :
  Forall int16 inputData ->
  Z.of_nat (length inputData) <= 2 ^ 48 ->
  (i + count = length inputData)%nat ->
  fst (resample_loop inputData 1 count (Z.of_nat i)
         (firstn i inputData ++ repeat 0 count, log)) = inputData.
Proof.
  intros Hs Hn. revert i log. induction count as [|count IH]; intros i log Hic.
  - cbn. rewrite app_nil_r. apply firstn_all2. lia.
  - cbn [resample_loop].
    destruct (interpolate_ratio_1 inputData (Z.of_nat i) Hs ltac:(lia) Hn) as (v & E & Ev).
    rewrite E. cbn [fst snd].
    replace (Z.of_nat i + 1) with (Z.of_nat (S i)) by lia.
    assert (Hset : TypedArray.set (firstn i inputData ++ repeat 0 (S count)) (Z.of_nat i) v
                   = firstn (S i) inputData ++ repeat 0 count).
    { unfold TypedArray.set.
      replace (Z.of_nat i <? 0) with false by (symmetry; apply Z.ltb_ge; lia).
      rewrite Ev, Nat2Z.id. cbn [repeat].
      assert (Hl : length (firstn i inputData) = i) by (apply firstn_length_le; lia).
      rewrite <- Hl at 2. rewrite set_nat_app.
      rewrite (firstn_snoc inputData i) by lia.
      rewrite <- app_assoc. reflexivity. }
    rewrite Hset. apply IH. lia.
Qed.

(** C5. With equal input and output rates (any finite rate above zero),
    [resampleAudioData] returns its input, sample for sample. *)
Theorem resampleAudioData_equal_rates (limit : Z) (inputData : Int16Array)
  (rate : float) :
  JS.positive_finite rate = true ->
  Forall int16 inputData ->
  Z.of_nat (length inputData) <= limit -> limit <= 2 ^ 48 ->
  resampleAudioData limit inputData rate rate = Some inputData.
Proof.
  intros Hr Hs Hn Hl. destruct two_pow_48_53 as [P1 P2].
  assert (Hratio : (rate / rate)%float = 1%float).
  { unfold JS.positive_finite in Hr.
    destruct (Prim2SF rate) as [s|s| |s m e] eqn:E; try discriminate.
    eapply div_self; eauto. }
  unfold resampleAudioData, resampleAudioData_run, outputLength, TypedArray.create.
  rewrite Hratio.
  rewrite div_one by lia. rewrite Math_round_integer by lia.
  rewrite ToIndex_integer by lia. rewrite Nat2Z.id. cbn [option_map]. f_equal.
  rewrite repeat_length.
  apply (loop_ratio_1 inputData (length inputData) 0 []); auto; lia.
Qed.

Lemma valid_mantissa_bound (x : float) (s : bool) (m : positive) (e : Z) :
  Prim2SF x = S754_finite s m e -> Z.pos m < 2 ^ 53 /\ -1074 <= e.
Proof.
  intros Hx. pose proof (Prim2SF_valid x) as V. rewrite Hx in V.
  apply valid_binary_canonical in V as [C _]. apply canonical_mantissa_eq in C.
  rewrite fexp_eq in C.
  destruct (Zdigits2_bounds (Z.pos m) ltac:(lia)) as [_ U].
  assert (Zdigits2 (Z.pos m) <= 53) by lia.
  assert (2 ^ Zdigits2 (Z.pos m) <= 2 ^ 53) by (apply Z.pow_le_mono_r; lia).
  lia.
Qed.

Lemma ToIndex_number_of_Z (limit k L : Z) :
  Z.abs k < 2 ^ 53 -> TypedArray.ToIndex limit (JS.number_of_Z k) = Some L ->
  L = k /\ 0 <= k.
Proof.
  intros Hb H. destruct (Z.eq_dec k 0) as [->|Hz].
  { cbn in H. injection H as <-. lia. }
  destruct (number_of_Z_nonzero k Hz Hb) as (m & e & E & V).
  unfold TypedArray.ToIndex in H. rewrite E in H.
  rewrite (truncate_integer _ _ _ _ V) in H.
  destruct (_ && _) eqn:Eb; [|discriminate]. injection H as <-.
  apply andb_true_iff in Eb as [E1 _]. apply Z.leb_le in E1.
  destruct (k <? 0) eqn:Ek; cbn in *.
  - apply Z.ltb_lt in Ek. lia.
  - apply Z.ltb_ge in Ek. lia.
Qed.

(** [Math.round] then [ToIndex], on a finite number: a length of at least
    one comes from a positive number within a half of it. *)
Lemma rounded_length (limit : Z) (X : float) (L : Z) :
  TypedArray.ToIndex limit (JS.Math_round X) = Some L -> 1 <= L ->
  exists m e,
    Prim2SF X = S754_finite false m e /\
    (IZR L <= F2R (Z.pos m) e + 1 / 2)%R /\
    (F2R (Z.pos m) e < IZR L + 1 / 2)%R /\
    L <= limit.
Proof.
  intros H HL.
  assert (Hlim : L <= limit) by (destruct (ToIndex_range _ _ _ H); lia).
  unfold JS.Math_round in H.
  destruct (Prim2SF X) as [s|s| |s m e] eqn:EX.
  - unfold TypedArray.ToIndex in H. rewrite EX in H. injection H as <-. lia.
  - unfold TypedArray.ToIndex in H. rewrite EX in H. discriminate.
  - unfold TypedArray.ToIndex in H. rewrite EX in H. injection H as <-. lia.
  - destruct (valid_mantissa_bound X s m e EX) as [Hm He].
    destruct (0 <=? e) eqn:Ee.
    + apply Z.leb_le in Ee.
      unfold TypedArray.ToIndex in H. rewrite EX in H.
      destruct (_ && _) eqn:Eb; [|discriminate]. injection H as HLe.
      unfold JS.truncate in HLe.
      replace (0 <=? e) with true in HLe by (symmetry; apply Z.leb_le; lia).
      destruct s; cbn [cond_Zopp] in HLe.
      * pose proof (two_pow_pos e Ee). lia.
      * exists m, e. split; [reflexivity|].
        assert (F2R (Z.pos m) e = IZR L).
        { apply IZR_F2R; [intros _; lia|lia]. }
        rewrite H. repeat split; try lra. exact Hlim.
    + apply Z.leb_gt in Ee.
      pose proof (two_pow_pos (- e) ltac:(lia)) as Hp.
      set (n' := (cond_Zopp s (2 * Z.pos m) + 2 ^ (- e)) / 2 ^ (1 - e)) in *.
      assert (HD : 2 ^ (1 - e) = 2 * 2 ^ (- e)).
      { replace (1 - e) with (1 + - e) by lia. rewrite Z.pow_add_r by lia. reflexivity. }
      assert (Hdiv : n' * 2 ^ (1 - e) <= cond_Zopp s (2 * Z.pos m) + 2 ^ (- e)
                     < (n' + 1) * 2 ^ (1 - e)).
      { pose proof (Z.div_mod (cond_Zopp s (2 * Z.pos m) + 2 ^ (- e)) (2 ^ (1 - e)) ltac:(lia)).
        pose proof (Z.mod_pos_bound (cond_Zopp s (2 * Z.pos m) + 2 ^ (- e)) (2 ^ (1 - e)) ltac:(lia)).
        fold n' in H0. nia. }
      assert (Hn' : Z.abs n' < 2 ^ 53).
      { assert (2 ^ 1 <= 2 ^ (- e)) by (apply Z.pow_le_mono_r; lia).
        change (2 ^ 1) with 2 in H0.
        assert (2 ^ 53 = 2 * 2 ^ 52) by reflexivity.
        destruct s; cbn [cond_Zopp] in Hdiv; nia. }
      destruct (n' =? 0) eqn:En.
      * exfalso. destruct s; cbn in H; injection H as <-; lia.
      * apply Z.eqb_neq in En.
        destruct (ToIndex_number_of_Z limit n' L Hn' H) as [-> Hpos].
        destruct s; cbn [cond_Zopp] in Hdiv.
        -- exfalso. nia.
        -- exists m, e. split; [reflexivity|].
           assert (Ev : (F2R (Z.pos m) e * IZR (2 ^ (- e)) = IZR (Z.pos m))%R).
           { unfold F2R. rewrite <- bpow_IZR by lia. rewrite Rmult_assoc.
             rewrite bpow_opp. ring. }
           assert (Pp : (0 < IZR (2 ^ (- e)))%R) by (apply IZR_lt; lia).
           rewrite HD in Hdiv. destruct Hdiv as [D1 D2].
           apply IZR_le in D1. apply IZR_lt in D2.
           rewrite !mult_IZR, !plus_IZR, !mult_IZR in D1, D2. rewrite plus_IZR in D2.
           revert Ev Pp D1 D2.
           generalize (F2R (Z.pos m) e) (IZR (2 ^ (- e))) (IZR (Z.pos m)) (IZR n').
           intros F P mm nn Ev Pp D1 D2.
           repeat split; try exact Hlim.
           ++ apply Rmult_le_reg_r with P; [exact Pp|]. nra.
           ++ apply Rmult_lt_reg_r with P; [exact Pp|]. nra.
Qed.

(** A quotient [n / r] that is a positive finite number: [n >= 1], and [r]
    is a positive finite number. *)
Lemma positive_quotient (n : Z) (r : float) (m : positive) (e : Z) :
  0 <= n < 2 ^ 53 ->
  Prim2SF (JS.number_of_Z n / r)%float = S754_finite false m e ->
  1 <= n /\
  exists mn en mr er,
    Prim2SF (JS.number_of_Z n) = S754_finite false mn en /\
    F2R (Z.pos mn) en = IZR n /\
    Prim2SF r = S754_finite false mr er.
Proof.
  intros Hn H. rewrite FloatAxioms.div_spec in H.
  destruct (Z.eq_dec n 0) as [->|Hz].
  { exfalso. rewrite number_of_Z_0 in H.
    destruct (Prim2SF r) as [s|s| |s mr er]; cbn in H; discriminate. }
  split; [lia|].
  destruct (number_of_Z_pos n ltac:(lia)) as (mn & en & En & Vn).
  rewrite En in H. exists mn, en.
  destruct (Prim2SF r) as [s|s| |s mr er] eqn:Er; try (cbn in H; discriminate).
  destruct s.
  - exfalso. unfold SF64div, SFdiv in H.
    destruct (SFdiv_core_spec mn mr en er) as (q & r0 & l & E & Hq & _).
    cbv zeta in E. rewrite E in H. cbn [xorb] in H.
    set (e' := Z.min _ _) in H.
    destruct (binary_round_aux_spec true q e' l Hq) as (m1 & _ & _ & R).
    rewrite H in R. destruct R as [R _]. discriminate.
  - eauto.
Qed.

(** The floor of a positive number below [n] is an index below [n]. *)
Lemma floor_index (Y : float) (m : positive) (e n : Z) :
  Prim2SF Y = S754_finite false m e ->
  (F2R (Z.pos m) e < IZR n)%R -> n < 2 ^ 53 ->
  exists k, JS.Math_floor Y = JS.number_of_Z k /\ 0 <= k <= n - 1.
Proof.
  intros HY Hlt Hn. unfold JS.Math_floor. rewrite HY.
  destruct (0 <=? e) eqn:Ee.
  - apply Z.leb_le in Ee. exists (Z.pos m * 2 ^ e).
    assert (V : F2R (Z.pos m) e = IZR (Z.pos m * 2 ^ e)).
    { apply IZR_F2R; [reflexivity|lia]. }
    rewrite V in Hlt. apply lt_IZR in Hlt.
    pose proof (two_pow_pos e Ee).
    split; [|nia]. apply (number_of_Z_unique Y m e); auto. lia.
  - apply Z.leb_gt in Ee. cbn [cond_Zopp].
    exists (Z.pos m / 2 ^ (- e)). split; [reflexivity|].
    pose proof (two_pow_pos (- e) ltac:(lia)) as Hp.
    assert (0 <= Z.pos m / 2 ^ (- e)) by (apply Z.div_pos; lia).
    destruct (truncation_bounds (Z.pos m) e (- e) ltac:(lia) ltac:(lia)) as [B _].
    replace (e + - e) with 0 in B by lia.
    unfold F2R at 1 in B. rewrite bpow_0, Rmult_1_r in B.
    assert (IZR (Z.pos m / 2 ^ (- e)) < IZR n)%R by lra.
    apply lt_IZR in H0. lia.
Qed.

Lemma bpow_972_large : (IZR (2 ^ 60) <= bpow 972)%R.
Proof. rewrite <- bpow_IZR by lia. apply bpow_le. lia. Qed.

(** The lower index of every iteration is an index of the input. *)
Lemma lower_index (limit n L i : Z) (r : float) :
  0 <= n <= limit -> limit <= 2 ^ 48 ->
  TypedArray.ToIndex limit (JS.Math_round (JS.number_of_Z n / r)%float) = Some L ->
  0 <= i < L ->
  exists k, JS.Math_floor (JS.number_of_Z i * r)%float = JS.number_of_Z k /\
            0 <= k <= n - 1.
Proof.
  intros Hn Hlim HL Hi. destruct two_pow_48_53 as [P1 P2].
  destruct (rounded_length limit _ L HL ltac:(lia)) as (mX & eX & EX & BL1 & BL2 & HLl).
  destruct (positive_quotient n r mX eX ltac:(lia) EX)
    as (Hn1 & mn & en & mr & er & En & Vn & Er).
  pose proof (div_bounds _ r mn mr en er En Er) as DB. cbv zeta in DB.
  rewrite EX, Vn in DB. destruct DB as (_ & DB1 & DB2).
  destruct (Z.eq_dec i 0) as [->|Hiz].
  { exists 0. split; [|lia]. unfold JS.Math_floor.
    assert (E0 : Prim2SF (JS.number_of_Z 0 * r)%float = S754_zero false).
    { rewrite FloatAxioms.mul_spec, number_of_Z_0, Er. reflexivity. }
    rewrite E0. apply Prim2SF_inj. now rewrite E0. }
  destruct (number_of_Z_pos i ltac:(lia)) as (mi & ei & Ei & Vi).
  pose proof (mul_bounds _ r mi mr ei er Ei Er) as MB. cbv zeta in MB.
  rewrite Vi in MB.
  set (rr := F2R (Z.pos mr) er) in *.
  set (xx := (IZR n / rr)%R) in *.
  set (XX := F2R (Z.pos mX) eX) in *.
  assert (Prr : (0 < rr)%R) by (apply F2R_pos; lia).
  assert (Hxr : (xx * rr = IZR n)%R).
  { unfold xx. field. lra. }
  assert (Hn1R : (1 <= IZR n)%R) by (apply IZR_le; lia).
  assert (HiR : (0 <= IZR i <= IZR L - 1)%R).
  { split; [apply IZR_le; lia|]. rewrite <- minus_IZR. apply IZR_le. lia. }
  assert (HLR : (IZR L <= 281474976710656)%R).
  { change 281474976710656%R with (IZR (2 ^ 48)). apply IZR_le. lia. }
  pose proof (product_small (IZR n) rr xx XX (IZR L) (IZR i) Hn1R Prr Hxr DB1 BL1 HiR) as Hsmall.
  destruct (Prim2SF (JS.number_of_Z i * r)%float) as [s|s| |s mY eY] eqn:EY.
  - subst s. exists 0. split; [|lia]. unfold JS.Math_floor. rewrite EY.
    apply Prim2SF_inj. now rewrite EY.
  - exfalso. pose proof bpow_972_large as Hbig.
    change (IZR (2 ^ 60)) with 1152921504606846976%R in Hbig.
    assert (IZR n <= 281474976710656)%R.
    { change 281474976710656%R with (IZR (2 ^ 48)). apply IZR_le. lia. }
    unfold err in MB. pose proof bpow_m52. pose proof bpow_m1074.
    pose proof (bpow_pos (-52)). pose proof (bpow_pos (-1074)).
    assert (0 <= IZR i * rr)%R by nra.
    nra.
  - contradiction.
  - destruct MB as [-> MB].
    assert (Hlt : (F2R (Z.pos mY) eY < IZR n)%R).
    { apply (last_index_below (IZR n) rr xx XX (IZR L) (IZR i)); auto. }
    apply (floor_index _ mY eY n EY Hlt). lia.
Qed.

Lemma in_bounds_integer (a : Int16Array) (k : Z) :
  0 <= k <= Z.of_nat (length a) - 1 -> k < 2 ^ 53 ->
  TypedArray.in_bounds a (JS.number_of_Z k) = true.
Proof.
  intros H Hb. unfold TypedArray.in_bounds. rewrite index_of_number_integer by lia.
  apply Z.ltb_lt. lia.
Qed.

(** One iteration: the two indices it reads. *)
Lemma interpolate_reads (limit L i : Z) (inputData : Int16Array) (r : float) :
  let n := Z.of_nat (length inputData) in
  n <= limit -> limit <= 2 ^ 48 ->
  TypedArray.ToIndex limit (JS.Math_round (JS.number_of_Z n / r)%float) = Some L ->
  0 <= i < L ->
  exists k v,
    interpolate inputData r i =
      (JS.number_of_Z k, JS.number_of_Z (Z.min (k + 1) (n - 1)), v) /\
    0 <= k <= n - 1.
Proof.
  intros n Hn Hlim HL Hi. destruct two_pow_48_53 as [P1 P2].
  destruct (lower_index limit n L i r ltac:(lia) Hlim HL Hi) as (k & Ek & Hk).
  unfold interpolate. fold n. rewrite Ek.
  rewrite add_one by lia. rewrite Math_min_integers by lia.
  eexists k, _. split; [reflexivity|exact Hk].
Qed.

Lemma resample_loop_reads_shape (inputData : Int16Array) (r : float) (n : Z)
  (count : nat) (i : Z) (st : Int16Array * list float) :
  (forall j, i <= j < i + Z.of_nat count ->
     exists k v,
       interpolate inputData r j =
         (JS.number_of_Z k, JS.number_of_Z (Z.min (k + 1) (n - 1)), v) /\
       0 <= k <= n - 1) ->
  exists ks,
    snd (resample_loop inputData r count i st) =
      snd st ++ flat_map (fun k => [JS.number_of_Z k; JS.number_of_Z (Z.min (k + 1) (n - 1))]) ks /\
    Forall (fun k => 0 <= k <= n - 1) ks /\
    length ks = count.
Proof.
  revert i st. induction count as [|count IH]; intros i st H; cbn [resample_loop].
  - exists []. cbn. rewrite app_nil_r. auto.
  - destruct (H i ltac:(lia)) as (k & v & E & Hk). rewrite E.
    destruct (IH (i + 1) (TypedArray.set (fst st) i v,
                          snd st ++ [JS.number_of_Z k; JS.number_of_Z (Z.min (k + 1) (n - 1))]))
      as (ks & E' & F & Len).
    { intros j Hj. apply H. lia. }
    exists (k :: ks). rewrite E'. cbn [snd flat_map]. rewrite <- app_assoc.
    split; [reflexivity|]. split; [now constructor|]. cbn. now rewrite Len.
Qed.

Lemma empty_input_length (limit : Z) (r : float) :
  TypedArray.ToIndex limit (JS.Math_round (JS.number_of_Z 0 / r)%float) = Some 0.
Proof.
  unfold JS.Math_round, TypedArray.ToIndex.
  assert (H : Prim2SF (JS.number_of_Z 0 / r)%float = S754_nan \/
              exists s, Prim2SF (JS.number_of_Z 0 / r)%float = S754_zero s).
  { rewrite FloatAxioms.div_spec, number_of_Z_0.
    destruct (Prim2SF r) as [s|s| |s m e]; cbn; eauto. }
  destruct H as [E|(s & E)]; rewrite E; rewrite E; reflexivity.
Qed.

(** C6. Every index at which [resampleAudioData] reads its input is an
    index of the input: each iteration reads at a lower index [k] with
    [0 <= k <= length - 1] and at the upper index [min (k + 1) (length - 1)],
    clamped to the last element; and an empty input gives an empty output
    and is not read.  This holds for all rates (positive or not), on an
    engine whose typed arrays hold at most 2^48 elements. *)
Theorem resampleAudioData_reads_in_bounds (limit : Z) (inputData : Int16Array)
  (inputSampleRate outputSampleRate : float) :
  limit <= 2 ^ 48 ->
  Z.of_nat (length inputData) <= limit ->
  let n := Z.of_nat (length inputData) in
  (exists ks,
     resample_reads limit inputData inputSampleRate outputSampleRate =
       flat_map (fun k => [JS.number_of_Z k; JS.number_of_Z (Z.min (k + 1) (n - 1))]) ks /\
     Forall (fun k => 0 <= k <= n - 1) ks) /\
  Forall (fun idx => TypedArray.in_bounds inputData idx = true)
    (resample_reads limit inputData inputSampleRate outputSampleRate) /\
  (inputData = [] ->
   resampleAudioData_run limit inputData inputSampleRate outputSampleRate = Some ([], [])).
Proof.
  intros Hlim Hn n. destruct two_pow_48_53 as [P1 P2].
  set (r := (inputSampleRate / outputSampleRate)%float).
  assert (Hshape : exists ks,
             resample_reads limit inputData inputSampleRate outputSampleRate =
               flat_map (fun k => [JS.number_of_Z k; JS.number_of_Z (Z.min (k + 1) (n - 1))]) ks /\
             Forall (fun k => 0 <= k <= n - 1) ks).
  { unfold resample_reads, resampleAudioData_run, outputLength. fold r. fold n.
    destruct (TypedArray.ToIndex limit (JS.Math_round (JS.number_of_Z n / r)%float))
      as [L|] eqn:EL.
    - destruct (create_length _ _ _ EL) as (a & Ea & La). rewrite Ea.
      destruct (resample_loop_reads_shape inputData r n (length a) 0 (a, [])) as (ks & E & F & _).
      { intros j Hj. apply (interpolate_reads limit L j inputData r); auto. lia. }
      destruct (resample_loop inputData r (length a) 0 (a, [])) as [out reads].
      cbn [snd] in E. exists ks. split; [exact E|exact F].
    - unfold TypedArray.create. rewrite EL. exists []. split; [reflexivity|constructor]. }
  split; [exact Hshape|]. split.
  - destruct Hshape as (ks & -> & F).
    induction F as [|k ks Hk F IH]; cbn [flat_map app]; [constructor|].
    constructor; [apply in_bounds_integer; fold n; lia|].
    constructor; [apply in_bounds_integer; fold n; lia|]. exact IH.
  - intros ->. unfold resampleAudioData_run, outputLength, TypedArray.create.
    cbn [length Z.of_nat]. rewrite empty_input_length. reflexivity.
Qed.

(** * The properties at concrete inputs *)

(** Three 75-sample deltas arrive with the channel closed, then the channel
    opens and a fourth arrives: four 100-byte frames are sent, in order. *)
Lemma buffered_frames_flushed_in_order_example :
  let c := example_console (Some closed_client) in
  let d := (0%nat, example_delta) in
  let c1 := run example_env c (map audio_event [d; d; d]) in
  let c2 := run example_env c1 [transport_changed (Some open_client); audio_event d] in
  sent (calls c1) = sent (calls c) /\
  simliAudioBufferRef c1 =
    simliAudioBufferRef c ++ [example_frame; example_frame; example_frame] /\
  sent (calls c2) =
    sent (calls c) ++
    (simliAudioBufferRef c ++ [example_frame; example_frame; example_frame]) ++
    [example_frame] /\
  simliAudioBufferRef c2 = [].
Proof.
  apply (buffered_frames_flushed_in_order example_env
           (example_console (Some closed_client))
           [(0%nat, example_delta); (0%nat, example_delta); (0%nat, example_delta)]
           [example_frame; example_frame; example_frame]
           (0%nat, example_delta) example_frame open_client).
  - discriminate.
  - intros (client & p & d & E & _ & _ & Ed & _).
    injection E as <-. discriminate Ed.
  - repeat (apply Forall2_cons; [vm_compute; reflexivity|]). apply Forall2_nil.
  - vm_compute. reflexivity.
  - exists open_client, {| iceConnectionState := "connected" |},
      {| readyState := "open" |}.
    repeat split; reflexivity.
Defined.

(** With no client the delta of the example is dropped. *)
Lemma delta_dropped_without_client_example :
  let c := example_console None in
  let delta := Some {| delta_audio := Some example_delta |} in
  process_audio_delta example_env delta c = (Normal tt, c) /\
  on_conversation_updated example_env 0 delta c =
    on_conversation_updated example_env 0 None c /\
  simliAudioBufferRef (step example_env c (conversation_updated 0 delta)) =
    simliAudioBufferRef c /\
  sent (calls (step example_env c (conversation_updated 0 delta))) = sent (calls c).
Proof.
  apply (delta_dropped_without_client example_env (example_console None) 0
           (Some {| delta_audio := Some example_delta |})).
  reflexivity.
Defined.

(** A talk press while track "track-1" plays cancels it at offset 4800. *)
Lemma startRecording_cancels_interrupted_track_example :
  let c := example_console (Some open_client) in
  exists before,
    new_calls c (snd (startRecording example_env c)) =
      before ++ [Player_interrupt; Client_cancelResponse "track-1" 4800; Recorder_record] /\
    cancellations before = [] /\
    ~ In Player_interrupt before /\
    cancellations (new_calls c (snd (startRecording example_env c))) =
      [("track-1"%string, 4800)].
Proof.
  apply (startRecording_cancels_interrupted_track example_env
           (example_console (Some open_client)) "track-1" 4800).
  - reflexivity.
  - discriminate.
  - discriminate.
Defined.


(** The completed item of the example gets the decoder's file and keeps
    everything else. *)
Lemma decode_attaches_only_file_example :
  let c := example_console None in
  let c' := step example_env c (conversation_updated 0 None) in
  items c' = conversation c /\
  (forall r, r <> 0%nat -> nth_error (heap c') r = nth_error (heap c) r) /\
  exists it',
    nth_error (heap c') 0 = Some it' /\
    id it' = id example_item /\ role it' = role example_item /\
    status it' = status example_item /\
    text (formatted it') = text (formatted example_item) /\
    transcript (formatted it') = transcript (formatted example_item) /\
    audio (formatted it') = audio (formatted example_item) /\
    output (formatted it') = output (formatted example_item) /\
    file (formatted it') =
      match decode example_env [1; 2; 3] with
      | Some w => Some w
      | None => file (formatted example_item)
      end /\
    (decode example_env [1; 2; 3] = None -> it' = example_item) /\
    (In 0%nat (conversation c) -> In (Some it') (shown (heap c') (items c'))).
Proof.
  apply (decode_attaches_only_file example_env (example_console None) 0 None
           example_item [1; 2; 3]).
  - reflexivity.
  - reflexivity.
  - reflexivity.
  - discriminate.
  - reflexivity.
Defined.

(** Three samples at equal rates come back as they are. *)
Lemma resampleAudioData_equal_rates_example :
  resampleAudioData 4294967295 [1; -2; 300] 24000 24000 = Some [1; -2; 300].
Proof.
  apply (resampleAudioData_equal_rates 4294967295 [1; -2; 300] 24000).
  - vm_compute. reflexivity.
  - repeat (apply Forall_cons; [unfold int16; lia|]). apply Forall_nil.
  - cbn. lia.
  - vm_compute. discriminate.
Defined.

(** Six samples, 24000 to 16000. *)
Lemma resampleAudioData_reads_in_bounds_example :
  let inputData := [10; 20; 30; -40; 50; 60] in
  let n := Z.of_nat (length inputData) in
  (exists ks,
      resample_reads 4294967295 inputData 24000 16000 =
        flat_map (fun k => [JS.number_of_Z k; JS.number_of_Z (Z.min (k + 1) (n - 1))]) ks /\
      Forall (fun k => 0 <= k <= n - 1) ks) /\
  Forall (fun idx => TypedArray.in_bounds inputData idx = true)
    (resample_reads 4294967295 inputData 24000 16000) /\
  (inputData = [] ->
   resampleAudioData_run 4294967295 inputData 24000 16000 = Some ([], [])).
Proof.
  apply (resampleAudioData_reads_in_bounds 4294967295 [10; 20; 30; -40; 50; 60]
           24000 16000).
  - vm_compute. discriminate.
  - cbn. lia.
Defined.

(** * The handlers: edges, failures and runs *)

(** The calls a handler added, read off a state whose [calls] is written
    as an extension of the earlier one. *)
Ltac added_calls :=
  first
    [ erewrite new_calls_app by (cbn; rewrite <- ?app_assoc; cbn [app]; reflexivity)
    | erewrite new_calls_app by (cbn; symmetry; apply app_nil_r) ].

(** ** The audio context *)

(** X1. [initializeAudioContext] never throws.  It answers [null] exactly
    when no context can be constructed or the new context is suspended and
    [resume()] rejects; then it has written no state: the page's audio
    context, the avatar client and the items are as they were.  A context
    it answers with is not suspended, and the function has set it as the
    page's audio context.  It calls nothing but the audio context, and it
    does not touch the pending buffer or the connection and recording
    flags.  (Once the audio context is set, React re-runs the mount effect,
    which replaces the avatar client; nothing is stated here about the
    avatar client in that case.) *)
Theorem initializeAudioContext_returns (env : Env) (c : Console) :
  exists r c',
    initializeAudioContext env c = (Normal r, c') /\
    (r = None <->
     new_AudioContext env = None \/
     (new_AudioContext env = Some suspended /\ resume_ok env = false)) /\
    (r = None ->
     audioContext c' = audioContext c /\ simliClientRef c' = simliClientRef c /\
     items c' = items c) /\
    (forall st, r = Some st -> st <> suspended /\ audioContext c' = Some st) /\
    Forall (fun k => is_audio_context_call k = true) (new_calls c c') /\
    simliAudioBufferRef c' = simliAudioBufferRef c /\
    isConnected c' = isConnected c /\ isRecording c' = isRecording c.
Proof.
  handler_unfold.
  destruct (new_AudioContext env) as [[]|] eqn:En;
    [destruct (resume_ok env) eqn:Er| | |]; cbn;
    eexists _, _; (split; [reflexivity|]); cbn.
  - split; [split; [discriminate|intros [H|[_ H]]; discriminate]|].
    split; [discriminate|].
    split; [intros st H; injection H as <-; split; [discriminate|reflexivity]|].
    split; [added_calls; repeat constructor|]. repeat split; reflexivity.
  - split; [split; [right; split; reflexivity|reflexivity]|].
    split; [intros _; repeat split; reflexivity|].
    split; [discriminate|].
    split; [added_calls; repeat constructor|]. repeat split; reflexivity.
  - split; [split; [discriminate|intros [H|[H _]]; discriminate]|].
    split; [discriminate|].
    split; [intros st H; injection H as <-; split; [discriminate|reflexivity]|].
    split; [added_calls; repeat constructor|]. repeat split; reflexivity.
  - split; [split; [discriminate|intros [H|[H _]]; discriminate]|].
    split; [discriminate|].
    split; [intros st H; injection H as <-; split; [discriminate|reflexivity]|].
    split; [added_calls; repeat constructor|]. repeat split; reflexivity.
  - split; [split; [left; reflexivity|reflexivity]|].
    split; [intros _; repeat split; reflexivity|].
    split; [discriminate|].
    split; [added_calls; repeat constructor|]. repeat split; reflexivity.
Qed.

(** ** Connecting *)

(** X2. When the audio context is not ready ([initializeAudioContext]
    answers [null], or the page's context is suspended and [resume()]
    rejects), [connectConversation] returns without connecting anything:
    it has called nothing but the audio context, the page is not marked
    connected, and its items, its audio context, the avatar client and the
    pending buffer are as they were. *)
Theorem connectConversation_needs_audio (env : Env) (c : Console) :
  audio_ready env c = false ->
  let r := connectConversation env c in
  fst r = Normal tt /\
  Forall (fun k => is_audio_context_call k = true) (new_calls c (snd r)) /\
  isConnected (snd r) = isConnected c /\
  items (snd r) = items c /\
  audioContext (snd r) = audioContext c /\
  simliClientRef (snd r) = simliClientRef c /\
  simliAudioBufferRef (snd r) = simliAudioBufferRef c /\
  isRecording (snd r) = isRecording c.
Proof.
  unfold audio_ready. intros Ha. cbv zeta. handler_unfold.
  destruct (audioContext c) as [[]|] eqn:Ec; try discriminate.
  - rewrite Ha. cbn. rewrite Ec.
    split; [reflexivity|]. split; [added_calls; repeat constructor|].
    repeat split; reflexivity.
  - destruct (new_AudioContext env) as [[]|]; try discriminate.
    + rewrite Ha. cbn. rewrite Ec.
      split; [reflexivity|]. split; [added_calls; repeat constructor|].
      repeat split; reflexivity.
    + cbn. rewrite Ec.
      split; [reflexivity|]. split; [added_calls; repeat constructor|].
      repeat split; reflexivity.
Qed.

(** X3. When the audio context is ready but [client.connect()] rejects,
    [connectConversation] throws at that call; by then the page is already
    marked connected and shows the conversation's items, and an avatar
    client has already been started and sent the 6000 bytes of silence.
    Nothing is called after the rejected [connect]: the recorder and the
    stream player are not set up. *)
Theorem connectConversation_connect_rejected (env : Env) (c : Console) :
  audio_ready env c = true -> connect_ok env = false ->
  let r := connectConversation env c in
  fst r = Throw /\
  isConnected (snd r) = true /\
  items (snd r) = conversation c /\
  exists before,
    new_calls c (snd r) =
      before ++
      match simliClientRef c with
      | Some _ => [Simli_start; Simli_sendAudioData initial_silence]
      | None => []
      end ++ [Client_connect] /\
    Forall (fun k => is_audio_context_call k = true) before.
Proof.
  unfold audio_ready. intros Ha Hc. cbv zeta. handler_unfold. rewrite Hc.
  generalize initial_silence as silence. intros silence.
  destruct (audioContext c) as [[]|] eqn:Ec; try rewrite Ha;
    try (destruct (new_AudioContext env) as [[]|]; try discriminate; try rewrite Ha).
  all: cbn.
  all: destruct (simliClientRef c); cbn.
  all: split; [reflexivity|]; split; [reflexivity|]; split; [reflexivity|].
  all: added_calls.
  all: first
         [ exists []; split; [reflexivity|constructor]
         | exists [AudioContext_resume]; split; [reflexivity|repeat constructor]
         | exists [AudioContext_new; AudioContext_resume]; split;
           [reflexivity|repeat constructor]
         | exists [AudioContext_new]; split; [reflexivity|repeat constructor] ].
Qed.

(** ** Disconnecting *)

(** X4. [disconnectConversation] calls, in this order, the session's
    [disconnect], the recorder's [end], the stream player's [interrupt],
    the [close] of the avatar client that the page has, if it has one, and
    the audio context's [close] if there is a context.  A rejected [close]
    of the audio context is swallowed: the handler returns all the same and
    the page keeps the context; otherwise the handler sets the page's audio
    context to [null].  It marks the page disconnected, empties the items
    and does not touch the pending buffer.  (The calls before the audio
    context's are taken not to throw.  Nothing is stated about the avatar
    client afterwards: it has been closed, and once the audio context is
    set to [null] React re-runs the mount effect, which replaces it.) *)
Theorem disconnectConversation_returns (env : Env) (c : Console) :
  let r := disconnectConversation env c in
  fst r = Normal tt /\
  new_calls c (snd r) =
    [Client_disconnect; Recorder_end; Player_interrupt] ++
    match simliClientRef c with Some _ => [Simli_close] | None => [] end ++
    match audioContext c with Some _ => [AudioContext_close] | None => [] end /\
  isConnected (snd r) = false /\
  items (snd r) = [] /\
  audioContext (snd r) = (if close_ok env then None else audioContext c) /\
  simliAudioBufferRef (snd r) = simliAudioBufferRef c.
Proof.
  cbv zeta. handler_unfold. cbn.
  destruct (simliClientRef c) eqn:Es; cbn;
    destruct (audioContext c) eqn:Ea; cbn; rewrite ?Es, ?Ea; cbn;
    try (destruct (close_ok env); cbn; rewrite ?Es, ?Ea);
    (split; [reflexivity|]); (split; [added_calls; reflexivity|]);
    repeat split; reflexivity.
Qed.

(** ** The talk button *)

(** X5. When [interrupt()] answers [null], or with a track id that is
    missing or empty (nothing is playing), [startRecording] cancels
    nothing: it issues no [cancelResponse] at all and goes from
    [interrupt()] straight to [record()], with the page marked as
    recording. *)
Theorem startRecording_without_playback (env : Env) (c : Console) :
  match interrupt_result env with
  | Some trackSampleOffset => truthy (trackId trackSampleOffset) = false
  | None => True
  end ->
  (audioContext c = Some suspended -> resume_ok env = true) ->
  let r := startRecording env c in
  fst r = Normal tt /\
  isRecording (snd r) = true /\
  cancellations (new_calls c (snd r)) = [] /\
  exists before,
    new_calls c (snd r) = before ++ [Player_interrupt; Recorder_record] /\
    Forall (fun k => is_audio_context_call k = true) before.
Proof.
  intros Hi Hr. cbv zeta. handler_unfold.
  destruct (interrupt_result env) as [[[t|] o]|]; cbn [trackId offset] in *;
    rewrite ?Hi.
  all: destruct (audioContext c) as [[]|] eqn:Ea;
    [rewrite (Hr eq_refl)| | |
     destruct (new_AudioContext env) as [[]|]; [destruct (resume_ok env)| | |]].
  all: cbn.
  all: split; [reflexivity|]; split; [reflexivity|].
  all: added_calls.
  all: split; [reflexivity|].
  all: first
         [ exists []; split; [reflexivity|constructor]
         | exists [AudioContext_resume]; split; [reflexivity|repeat constructor]
         | exists [AudioContext_new; AudioContext_resume]; split;
           [reflexivity|repeat constructor]
         | exists [AudioContext_new]; split; [reflexivity|repeat constructor] ].
Qed.

(** X6. [startRecording] does not need an audio context, but it needs a
    suspended one to resume.  With no context and none to be had
    ([initializeAudioContext] answers [null]) it goes on all the same: it
    interrupts the player and starts the capture, and the page still has
    no context.  With a suspended context whose [resume()] rejects it
    throws at once: its only call is that [resume()], the page is not
    marked as recording, and neither [interrupt()] nor [record()] is
    reached. *)
Theorem startRecording_audio_context (env : Env) (c : Console) :
  (audioContext c = None ->
   (new_AudioContext env = None \/
    (new_AudioContext env = Some suspended /\ resume_ok env = false)) ->
   let r := startRecording env c in
   fst r = Normal tt /\ isRecording (snd r) = true /\
   audioContext (snd r) = None /\
   In Player_interrupt (new_calls c (snd r)) /\
   In Recorder_record (new_calls c (snd r))) /\
  (audioContext c = Some suspended -> resume_ok env = false ->
   let r := startRecording env c in
   fst r = Throw /\ isRecording (snd r) = isRecording c /\
   audioContext (snd r) = Some suspended /\
   new_calls c (snd r) = [AudioContext_resume]).
Proof.
  split.
  - intros Ha Hn. cbv zeta. handler_unfold. rewrite Ha.
    destruct Hn as [Hn|[Hn Hr]]; rewrite Hn; try rewrite Hr.
    all: destruct (interrupt_result env) as [[[t|] o]|];
      cbn [trackId offset truthy]; try destruct (negb (String.eqb t "")).
    all: cbn.
    all: split; [reflexivity|]; split; [reflexivity|]; split; [exact Ha|].
    all: added_calls.
    all: split; cbn; tauto.
  - intros Ha Hr. cbv zeta. handler_unfold. rewrite Ha, Hr. cbn.
    split; [reflexivity|]. split; [reflexivity|]. split; [exact Ha|].
    added_calls. reflexivity.
Qed.

(** X7. A talk press followed by its release: the page is marked as
    recording in between and no longer afterwards, and the calls of the
    two handlers end with [record()], [pause()], [createResponse()], in
    this order, with no other [record()] and no other [createResponse()]
    before them.  (The press is taken not to throw: a suspended audio
    context resumes.) *)
Theorem press_then_release (env : Env) (c : Console) :
  (audioContext c = Some suspended -> resume_ok env = true) ->
  let c1 := step env c talk_pressed in
  let c2 := step env c1 talk_released in
  isRecording c1 = true /\ isRecording c2 = false /\
  exists before,
    new_calls c c2 =
      before ++ [Recorder_record; Recorder_pause; Client_createResponse] /\
    filter is_record before = [] /\
    filter is_createResponse before = [].
Proof.
  intros Hr. cbv zeta. unfold step, handler. handler_unfold.
  destruct (interrupt_result env) as [[[t|] o]|];
    cbn [trackId offset truthy]; try destruct (negb (String.eqb t "")).
  all: destruct (audioContext c) as [[]|] eqn:Ea;
    [rewrite (Hr eq_refl)| | |
     destruct (new_AudioContext env) as [[]|]; [destruct (resume_ok env)| | |]].
  all: cbn.
  all: split; [reflexivity|]; split; [reflexivity|].
  all: added_calls.
  all: lazymatch goal with
       | |- exists before, ?l = _ /\ _ =>
           let rec pre l :=
             lazymatch l with
             | Recorder_record :: _ => constr:(@nil Call)
             | ?x :: ?t => let r := pre t in constr:(x :: r)
             end in
           let b := pre l in exists b
       end.
  all: repeat split; reflexivity.
Qed.

(** ** The pending buffer over longer runs *)

Lemma frame_none (env : Env) (a : Int16Array) :
  frame env a = None -> resampleAudioData (array_limit env) a 24000 16000 = None.
Proof.
  unfold frame. destruct (resampleAudioData _ a _ _); [discriminate|reflexivity].
Qed.

(** The audio delta part of the handler, with a client present: what it
    sends and what it leaves in the buffer, taken together, is what was
    there with the frame it created at the end. *)
Lemma process_audio_delta_order (env : Env) (item : nat) (delta : option Delta)
  (c : Console) :
  simliClientRef c <> None ->
  let c1 := snd (process_audio_delta env delta c) in
  simliClientRef c1 = simliClientRef c /\
  sent (calls c1) ++ simliAudioBufferRef c1 =
    sent (calls c) ++ simliAudioBufferRef c
    ++ frames_created env (conversation_updated item delta).
Proof.
  intros Hc. cbv zeta. destruct delta as [[[a|]]|]; cbn [frames_created].
  2,3: cbn; rewrite app_nil_r; split; reflexivity.
  destruct (frame env a) as [f|] eqn:Ef.
  - destruct (gate_openb (simliClientRef c)) eqn:Eg.
    + destruct (process_audio_delta_open env a f c Eg Ef)
        as (c' & A & B & C & D & _).
      rewrite A. cbn [snd]. split; [exact D|].
      rewrite B, C, sent_app, sent_map_send, app_nil_r, <- ?app_assoc. reflexivity.
    + rewrite (process_audio_delta_closed env a f c Hc Eg Ef). cbn.
      split; reflexivity.
  - apply frame_none in Ef. unfold process_audio_delta, bind, gets, throw.
    destruct (simliClientRef c) eqn:Es; [|contradiction]. rewrite Ef. cbn.
    rewrite app_nil_r, Es. split; reflexivity.
Qed.

Lemma untouched_order (c c' : Console) :
  pipeline_untouched c c' ->
  simliClientRef c' = simliClientRef c /\
  sent (calls c') ++ simliAudioBufferRef c' = sent (calls c) ++ simliAudioBufferRef c.
Proof.
  intros (A & B & l & C & D). split; [exact A|].
  rewrite B, C, sent_app, (sent_filter l D), app_nil_r. reflexivity.
Qed.

Lemma step_order (env : Env) (ev : Event) (c : Console) :
  simliClientRef c <> None -> keeps_order ev = true ->
  simliClientRef (step env c ev) <> None /\
  sent (calls (step env c ev)) ++ simliAudioBufferRef (step env c ev) =
    sent (calls c) ++ simliAudioBufferRef c ++ frames_created env ev.
Proof.
  intros Hc Hev. destruct ev as [item delta| | | | | |[cl|]]; try discriminate.
  - destruct (step_updated_pipeline env item delta c) as (A & B & l & C & D).
    destruct (process_audio_delta_order env item delta c Hc) as (E & F).
    rewrite A, B, C, E, sent_app, D, app_nil_r. split; [exact Hc|exact F].
  - destruct (untouched_order _ _ (startRecording_untouched env c)) as (A & B).
    unfold step, handler. rewrite A, B. cbn. rewrite app_nil_r. auto.
  - destruct (untouched_order _ _ (stopRecording_untouched env c)) as (A & B).
    unfold step, handler. rewrite A, B. cbn. rewrite app_nil_r. auto.
  - destruct (untouched_order _ _ (disconnectConversation_untouched env c)) as (A & B).
    unfold step, handler. rewrite A, B. cbn. rewrite app_nil_r. auto.
  - cbn. rewrite app_nil_r. split; [discriminate|reflexivity].
Qed.

(** X8. No frame is lost, sent twice or overtaken.  Over any run of
    conversation updates, talk presses and releases, disconnects and
    changes of the avatar transport, with an avatar client present
    throughout, the frames sent so far followed by the frames still
    pending are exactly those that were sent or pending before, followed
    by the frames of the run's audio deltas in their order of arrival,
    however the channel opened and closed in between. *)
Theorem frames_kept_in_order (env : Env) (evs : list Event) (c : Console) :
  simliClientRef c <> None ->
  Forall (fun ev => keeps_order ev = true) evs ->
  let c' := run env c evs in
  sent (calls c') ++ simliAudioBufferRef c' =
    sent (calls c) ++ simliAudioBufferRef c ++ flat_map (frames_created env) evs.
Proof.
  cbv zeta. revert c. induction evs as [|ev evs IH]; intros c Hc Hevs.
  - cbn. now rewrite app_nil_r.
  - inversion Hevs as [|? ? Hev Hevs']; subst.
    destruct (step_order env ev c Hc Hev) as (A & B).
    cbn [run fold_left flat_map].
    change (fold_left (step env) evs ?x) with (run env x evs).
    rewrite (IH _ A Hevs').
    rewrite (app_assoc (sent (calls (step env c ev)))), B, <- !app_assoc.
    reflexivity.
Qed.

(** X9. A disconnect does not discard pending audio: the handler sends
    nothing and leaves the pending buffer as it is.  Whatever avatar client
    the page has after it (the mount effect installs a new one once the
    audio context is gone), the next audio delta keeps the frames buffered
    before the disconnect ahead of its own: a client whose channel is open
    sends them, in order, before the frame of the delta; a client whose
    channel is not open has the frame of the delta buffered behind them. *)
Theorem disconnect_keeps_pending_audio (env : Env) (c : Console)
  (client' : SimliClient) (d : nat * Int16Array) (f : Uint8Array) :
  frame env (snd d) = Some f ->
  let c1 := step env c disconnect_clicked in
  let c2 := run env c1 [transport_changed (Some client'); audio_event d] in
  simliAudioBufferRef c1 = simliAudioBufferRef c /\
  sent (new_calls c c1) = [] /\
  (gate_open (Some client') ->
   sent (new_calls c1 c2) = simliAudioBufferRef c ++ [f] /\
   simliAudioBufferRef c2 = []) /\
  (~ gate_open (Some client') ->
   sent (new_calls c1 c2) = [] /\
   simliAudioBufferRef c2 = simliAudioBufferRef c ++ [f]).
Proof.
  intros Hf. cbv zeta.
  destruct (disconnectConversation_untouched env c) as (A & B & l & C & D).
  change (snd (disconnectConversation env c)) with (step env c disconnect_clicked)
    in A, B, C.
  set (c1 := step env c disconnect_clicked) in *.
  split; [exact B|].
  split; [rewrite (new_calls_app _ _ _ C); now apply sent_filter|].
  destruct d as [item a]. unfold audio_event. cbn [fst snd] in *.
  cbn [run fold_left].
  change (step env c1 (transport_changed (Some client')))
    with (set_simliClientRef (Some client') c1).
  set (c1' := set_simliClientRef (Some client') c1).
  assert (Hcalls : calls c1' = calls c1) by reflexivity.
  assert (Hbuf : simliAudioBufferRef c1' = simliAudioBufferRef c) by exact B.
  assert (Hnew : forall c2, new_calls c1 c2 = new_calls c1' c2).
  { intros c2. unfold new_calls. now rewrite Hcalls. }
  destruct (step_updated_pipeline env item (Some {| delta_audio := Some a |}) c1')
    as (P & Q & l2 & R & S).
  split.
  - intros Hg. apply gate_openb_iff in Hg.
    destruct (process_audio_delta_open env a f c1' Hg Hf) as (c' & E1 & E2 & E3 & _).
    rewrite E1 in P, Q, R. cbn [snd] in P, Q, R.
    split; [|now rewrite Q].
    rewrite E2, <- app_assoc in R.
    rewrite Hnew, (new_calls_app _ _ _ R), sent_app, S, app_nil_r, sent_map_send, Hbuf.
    reflexivity.
  - intros Hg.
    assert (Hgb : gate_openb (simliClientRef c1') = false).
    { destruct (gate_openb (simliClientRef c1')) eqn:Eg; [|reflexivity].
      exfalso. apply Hg. now apply gate_openb_iff. }
    rewrite (process_audio_delta_closed env a f c1' ltac:(discriminate) Hgb Hf) in P, Q, R.
    cbn [snd] in P, Q, R. split.
    + rewrite Hnew. cbn [calls set_simliAudioBufferRef] in R.
      rewrite (new_calls_app _ _ _ R). exact S.
    + rewrite Q. cbn. rewrite B. reflexivity.
Qed.

(** ** The decode step *)

(** X10. The decode step runs for completed items with samples only.  For
    an item that is not completed, or has no audio, or has audio of length
    zero, it returns at once and leaves the whole state as it is: the
    decoder is not called and no audio element is created, so that the
    handler does nothing beyond its audio delta part and the publishing
    of the conversation's items. *)
Theorem decode_only_completed_audio (env : Env) (c : Console) (item : nat)
  (it : ItemType) (delta : option Delta) :
  nth_error (heap c) item = Some it ->
  status it <> Some "completed"%string \/ has_samples (audio (formatted it)) = false ->
  decode_completed_item env item c = (Normal tt, c) /\
  (fst (process_audio_delta env delta c) = Normal tt ->
   step env c (conversation_updated item delta) =
     set_items (conversation c) (snd (process_audio_delta env delta c))).
Proof.
  intros Hn Hs.
  assert (H : forall c0, heap c0 = heap c ->
            decode_completed_item env item c0 = (Normal tt, c0)).
  { intros c0 E. unfold decode_completed_item, deref, bind, gets, ret.
    rewrite E, Hn.
    destruct (audio (formatted it)) as [[|x a]|]; try reflexivity.
    - now rewrite andb_false_r.
    - destruct Hs as [Hs|Hs]; [|discriminate].
      destruct (status it) as [s|]; [|reflexivity]. cbn [is_string].
      destruct (String.eqb s "completed") eqn:Eq; [|reflexivity].
      apply String.eqb_eq in Eq. subst s. contradiction. }
  split; [now apply H|].
  intros Hp. unfold step, handler. rewrite on_conversation_updated_eq.
  destruct (process_audio_delta_store env delta c) as [Hh _].
  destruct (process_audio_delta env delta c) as [[[]|] c1]; [|discriminate].
  cbn [snd] in *. rewrite (H c1 Hh). reflexivity.
Qed.

(** ** The connect button *)

(** X11. The connect button toggles.  On a page that is not connected a
    click runs [connectConversation]; when that succeeds the page is
    connected, shows the conversation's items and has an audio context,
    and the button reads 'Disconnect'.  Whatever avatar client the page has
    by the next click (the mount effect may have replaced it in between),
    that click runs [disconnectConversation]: the session, the recorder and
    the player are shut down, then the avatar client at hand if there is
    one, then the audio context; the page is not connected and shows no
    items, and the pending buffer is what it was before the first click. *)
Theorem connect_button_toggles (env : Env) (c : Console)
  (current' : option SimliClient) :
  isConnected c = false ->
  audio_ready env c = true ->
  connect_ok env = true -> begin_ok env = true -> player_connect_ok env = true ->
  let c1 := snd (connect_button_onClick env c) in
  let c1' := step env c1 (transport_changed current') in
  let c2 := snd (connect_button_onClick env c1') in
  fst (connect_button_onClick env c) = Normal tt /\
  isConnected c1 = true /\ connect_button_label c1 = "Disconnect"%string /\
  items c1 = conversation c /\ audioContext c1 <> None /\
  connect_button_label c1' = "Disconnect"%string /\
  fst (connect_button_onClick env c1') = Normal tt /\
  isConnected c2 = false /\ connect_button_label c2 = "Connect"%string /\
  items c2 = [] /\
  new_calls c1' c2 =
    [Client_disconnect; Recorder_end; Player_interrupt] ++
    match current' with Some _ => [Simli_close] | None => [] end ++
    [AudioContext_close] /\
  simliAudioBufferRef c2 = simliAudioBufferRef c.
Proof.
  unfold audio_ready. intros Hi Ha Hc Hb Hp. cbv zeta.
  assert (E0 : connect_button_onClick env c = connectConversation env c).
  { unfold connect_button_onClick. now rewrite Hi. }
  rewrite E0. clear E0.
  assert (H : exists c1 l,
            connectConversation env c = (Normal tt, c1) /\
            isConnected c1 = true /\ items c1 = conversation c /\
            audioContext c1 <> None /\
            simliAudioBufferRef c1 = simliAudioBufferRef c /\
            calls c1 = calls c ++ l).
  { handler_unfold. rewrite Hc, Hb, Hp.
    generalize initial_silence as silence. intros silence.
    destruct (String.eqb (turnDetectionType env) "server_vad");
    destruct (audioContext c) as [[]|] eqn:Ea; try rewrite Ha;
      try (destruct (new_AudioContext env) as [[]|]; try discriminate; try rewrite Ha).
    all: cbn.
    all: destruct (simliClientRef c) eqn:Es; cbn.
    all: eexists _, _; split; [reflexivity|]; cbn.
    all: repeat rewrite <- app_assoc; cbn [app].
    all: rewrite ?Ea, ?Es.
    all: repeat split; try reflexivity; discriminate. }
  destruct H as (c1 & l & E & A1 & A2 & A3 & A5 & A6).
  rewrite E. cbn [fst snd].
  change (step env c1 (transport_changed current'))
    with (set_simliClientRef current' c1).
  set (c1' := set_simliClientRef current' c1).
  assert (B1 : isConnected c1' = true) by exact A1.
  assert (B3 : audioContext c1' = audioContext c1) by reflexivity.
  assert (B4 : simliClientRef c1' = current') by reflexivity.
  assert (B5 : simliAudioBufferRef c1' = simliAudioBufferRef c) by exact A5.
  assert (E1 : connect_button_onClick env c1' = disconnectConversation env c1').
  { unfold connect_button_onClick. now rewrite B1. }
  rewrite E1. clear E1. unfold connect_button_label. rewrite A1, B1.
  split; [reflexivity|]. split; [reflexivity|]. split; [reflexivity|].
  split; [exact A2|]. split; [exact A3|]. split; [reflexivity|].
  clear E Ha. rewrite <- B3 in A3. clearbody c1'.
  unfold disconnectConversation, call_ok, call, modify, try_catch, bind, gets,
    ret, throw.
  cbn.
  destruct (audioContext c1') as [a1|] eqn:Ea1; [|contradiction].
  rewrite B4.
  destruct current' eqn:Es; cbn; destruct (close_ok env); cbn.
  all: rewrite ?B4, ?B5, ?Ea1; cbn; rewrite ?B4, ?B5, ?Ea1.
  all: split; [reflexivity|]; split; [reflexivity|]; split; [reflexivity|];
    split; [reflexivity|]; split; [added_calls; reflexivity|]; reflexivity.
Qed.

(** * The rest of the page: properties *)

(** ** The API key *)

Lemma truthy_string_of (a : option string) :
  truthy a = true -> a = Some (string_of a) /\ string_of a <> ""%string.
Proof.
  destruct a as [v|]; cbn; [|discriminate].
  intros H. split; [reflexivity|].
  intros E. rewrite E in H. discriminate.
Qed.

Lemma or_string_empty (a : option string) :
  or_string a "" = ""%string <-> truthy a = false.
Proof.
  unfold or_string. destruct (truthy a) eqn:E; split; intros H; try reflexivity;
    try discriminate.
  destruct (truthy_string_of a E) as [_ Hne]. contradiction.
Qed.

Lemma eqb_empty_false (s : string) : s <> ""%string -> String.eqb s "" = false.
Proof. intros H. now apply String.eqb_neq. Qed.

(** X12. The key the page works with is the stored one when there is one
    (the user is asked exactly when there is none); it is empty only if
    nothing is stored and the dialog gave nothing; a key that is not empty
    is stored under 'tmp::voice_api_key', no other entry of the storage
    changes, and the next render finds it there: it works with the same
    key, asks nothing and leaves the storage as it is. *)
Theorem apiKey_persisted (storage : Storage) (prompt : option string) :
  let r := ConsolePage_apiKey storage prompt in
  prompted r = negb (truthy (localStorage.getItem storage voice_api_key)) /\
  (apiKey r = ""%string <->
   truthy (localStorage.getItem storage voice_api_key) = false /\
   truthy prompt = false) /\
  (forall k, k <> voice_api_key ->
     localStorage.getItem (storage_after r) k = localStorage.getItem storage k) /\
  (apiKey r = ""%string -> storage_after r = storage) /\
  (apiKey r <> ""%string ->
   localStorage.getItem (storage_after r) voice_api_key = Some (apiKey r) /\
   forall prompt',
     let r' := ConsolePage_apiKey (storage_after r) prompt' in
     apiKey r' = apiKey r /\ prompted r' = false /\
     forall k, localStorage.getItem (storage_after r') k =
               localStorage.getItem (storage_after r) k).
Proof.
  cbv zeta. unfold ConsolePage_apiKey. cbn [USE_LOCAL_RELAY_SERVER_URL truthy].
  cbv iota.
  set (stored := localStorage.getItem storage voice_api_key).
  assert (Hset : forall s key k, k <> voice_api_key ->
            localStorage.getItem (localStorage.setItem s voice_api_key key) k =
            localStorage.getItem s k).
  { intros s key k Hk. unfold localStorage.getItem, localStorage.setItem.
    apply String.eqb_neq in Hk. now rewrite Hk. }
  assert (Hget : forall s key,
            localStorage.getItem (localStorage.setItem s voice_api_key key)
              voice_api_key = Some key).
  { intros s key. unfold localStorage.getItem, localStorage.setItem.
    now rewrite String.eqb_refl. }
  assert (Hnext : forall s key prompt', key <> ""%string ->
            localStorage.getItem s voice_api_key = Some key ->
            let r' := ConsolePage_apiKey s prompt' in
            apiKey r' = key /\ prompted r' = false /\
            forall k, localStorage.getItem (storage_after r') k =
                      localStorage.getItem s k).
  { intros s key prompt' Hne Hs. cbv zeta. unfold ConsolePage_apiKey.
    cbn [USE_LOCAL_RELAY_SERVER_URL truthy]. cbv iota. rewrite Hs.
    cbn [truthy string_of]. rewrite (eqb_empty_false _ Hne).
    cbn [negb apiKey storage_after prompted].
    rewrite ?(eqb_empty_false _ Hne). cbn [negb].
    split; [reflexivity|]. split; [reflexivity|]. intros k.
    destruct (String.eqb k voice_api_key) eqn:E.
    - apply String.eqb_eq in E. subst k. now rewrite Hget.
    - apply String.eqb_neq in E. now apply Hset. }
  destruct (truthy stored) eqn:Es.
  - destruct (truthy_string_of stored Es) as [E Hne].
    cbn [apiKey storage_after prompted]. rewrite (eqb_empty_false _ Hne). cbn [negb].
    split; [reflexivity|]. split.
    { split; [contradiction|]. intros [H _]. discriminate. }
    split; [intros k Hk; now apply Hset|].
    split; [contradiction|]. intros _.
    split; [apply Hget|]. intros prompt'. apply Hnext; [exact Hne|apply Hget].
  - cbn [apiKey storage_after prompted negb].
    split; [reflexivity|]. split.
    { rewrite or_string_empty. tauto. }
    destruct (String.eqb (or_string prompt "") "") eqn:Ek; cbn [negb].
    + apply String.eqb_eq in Ek.
      split; [reflexivity|]. split; [reflexivity|]. contradiction.
    + apply String.eqb_neq in Ek.
      split; [intros k Hk; now apply Hset|].
      split; [contradiction|]. intros _.
      split; [apply Hget|]. intros prompt'. apply Hnext; [exact Ek|apply Hget].
Qed.

(** X13. [resetAPIKey] does nothing when the dialog is cancelled; otherwise
    it reloads the page and leaves a storage that holds the answer under
    'tmp::voice_api_key' and nothing else.  The render after the reload
    works with the answer without asking when the answer is not empty; an
    empty answer is stored all the same, and the render then asks again. *)
Theorem resetAPIKey_then_render (storage : Storage) (key : string)
  (prompt' : option string) :
  resetAPIKey storage None = (storage, false) /\
  let s := fst (resetAPIKey storage (Some key)) in
  let r := ConsolePage_apiKey s prompt' in
  snd (resetAPIKey storage (Some key)) = true /\
  (forall k, localStorage.getItem s k =
             if String.eqb k voice_api_key then Some key else None) /\
  (key <> ""%string -> apiKey r = key /\ prompted r = false) /\
  (key = ""%string -> apiKey r = or_string prompt' "" /\ prompted r = true).
Proof.
  split; [reflexivity|]. cbv zeta. cbn [resetAPIKey fst snd].
  split; [reflexivity|]. split; [reflexivity|].
  unfold ConsolePage_apiKey. cbn [USE_LOCAL_RELAY_SERVER_URL truthy]. cbv iota.
  unfold localStorage.getItem, localStorage.setItem, localStorage.clear.
  rewrite String.eqb_refl. cbn [truthy string_of].
  split.
  - intros Hne. rewrite (eqb_empty_false _ Hne). cbn. split; reflexivity.
  - intros ->. cbn. split; reflexivity.
Qed.

(** ** The voice *)

(** X14. The voice that [changeVoiceType] passes to [updateSession] is
    always one of 'shimmer', 'alloy' and 'echo': it is REACT_APP_VOICE when
    that is one of the three, and 'shimmer' in every other case (unset,
    empty, or anything else). *)
Theorem changeVoiceType_allowed (REACT_APP_VOICE : option string) :
  In (changeVoiceType REACT_APP_VOICE) allowedVoices /\
  (forall v, REACT_APP_VOICE = Some v -> In v allowedVoices ->
     changeVoiceType REACT_APP_VOICE = v) /\
  (~ (exists v, REACT_APP_VOICE = Some v /\ In v allowedVoices) ->
     changeVoiceType REACT_APP_VOICE = "shimmer"%string).
Proof.
  assert (Hin : forall v, includes allowedVoices v = true <-> In v allowedVoices).
  { intros v. unfold includes. rewrite existsb_exists. split.
    - intros (x & Hx & E). apply String.eqb_eq in E. now subst.
    - intros H. exists v. split; [exact H|apply String.eqb_refl]. }
  unfold changeVoiceType. split; [|split].
  - destruct (includes allowedVoices _) eqn:E.
    + now apply Hin.
    + cbn. auto.
  - intros v -> Hv. unfold or_string. cbn [truthy string_of].
    assert (Hne : String.eqb v "" = false).
    { cbn in Hv. destruct Hv as [<-|[<-|[<-|[]]]]; reflexivity. }
    rewrite Hne. cbn [negb]. apply Hin in Hv. now rewrite Hv.
  - intros Hno. destruct (includes allowedVoices _) eqn:E; [|reflexivity].
    apply Hin in E. unfold or_string in *.
    destruct (truthy REACT_APP_VOICE) eqn:Et; [|reflexivity].
    destruct (truthy_string_of _ Et) as [Es _].
    exfalso. apply Hno. exists (string_of REACT_APP_VOICE). split; assumption.
Qed.

(** ** The log of realtime events *)

Lemma lastEvent_snoc (l : list RealtimeEvent) (e : RealtimeEvent) :
  lastEvent (l ++ [e]) = Some e.
Proof.
  unfold lastEvent. destruct l as [|x l]; cbn; [reflexivity|].
  f_equal. apply last_last.
Qed.

Lemma log_cases (l : list RealtimeEvent) :
  l = [] \/ exists l' x, l = l' ++ [x].
Proof.
  destruct l as [|a l]; [now left|]. right.
  destruct (exists_last (l := a :: l)) as (l' & x & E); [discriminate|].
  now exists l', x.
Qed.

Lemma expand_snoc (l : list RealtimeEvent) (e : RealtimeEvent) :
  expand (l ++ [e]) = expand l ++ occurrences e.
Proof. unfold expand. rewrite flat_map_app. cbn. now rewrite app_nil_r. Qed.

Lemma repeat_snoc {A} (a : A) (n : nat) : repeat a (S n) = repeat a n ++ [a].
Proof. induction n as [|n IH]; [reflexivity|]. cbn in *. now rewrite <- IH. Qed.

Lemma occurrences_set_count (x : RealtimeEvent) :
  0 <= count_or_0 x ->
  occurrences (set_count (count_or_0 x + 1) x) = occurrences x ++ [event_type x].
Proof.
  intros H. unfold occurrences. cbn [set_count count_or_0 count event_type].
  replace (Z.to_nat (count_or_0 x + 1 + 1)) with (S (Z.to_nat (count_or_0 x + 1))) by lia.
  apply repeat_snoc.
Qed.

Lemma merged_snoc (ts : list (option string)) (a b : option string) :
  merged (ts ++ [a]) -> strict_eq a b = false -> merged (ts ++ [a; b]).
Proof.
  induction ts as [|t ts IH]; intros H E.
  - cbn. auto.
  - destruct ts as [|t' ts].
    + cbn in *. tauto.
    + cbn [app merged] in *. destruct H as [H1 H2]. split; [exact H1|].
      now apply IH.
Qed.

Lemma strict_eq_eq (a b : option string) : strict_eq a b = true -> a = b.
Proof.
  destruct a, b; cbn; try discriminate; try reflexivity.
  intros H. apply String.eqb_eq in H. now subst.
Qed.

Lemma realtime_log_spec (stream : list RealtimeEvent) :
  forall log,
    Forall (fun e => event_type e <> None /\ count e = None) stream ->
    Forall (fun e => 0 <= count_or_0 e) log ->
    merged (map event_type log) ->
    exists log',
      realtime_log log stream = Some log' /\
      expand log' = expand log ++ map event_type stream /\
      merged (map event_type log') /\
      (length log' <= length log + length stream)%nat.
Proof.
  induction stream as [|e stream IH]; intros log Hs Hl Hm.
  - exists log. cbn. rewrite app_nil_r. repeat split; auto. lia.
  - inversion Hs as [|? ? [Ht Hc] Hs']; subst.
    assert (He : occurrences e = [event_type e]).
    { unfold occurrences, count_or_0. now rewrite Hc. }
    cbn [realtime_log]. unfold on_realtime_event.
    destruct (log_cases log) as [->|(l' & x & ->)].
    + cbn [lastEvent]. destruct (event_type e) as [t|] eqn:Et; [|contradiction].
      cbn [strict_eq app].
      destruct (IH [e] Hs') as (log' & A & B & C & D).
      { constructor; [|constructor]. unfold count_or_0. rewrite Hc. lia. }
      { cbn. exact I. }
      exists log'. split; [exact A|]. split.
      { rewrite B. unfold expand. cbn. rewrite He, Et. reflexivity. }
      split; [exact C|]. cbn in *. lia.
    + rewrite lastEvent_snoc.
      apply Forall_app in Hl as [Hl' Hx]. inversion Hx as [|? ? Hx0 _]; subst.
      destruct (strict_eq (event_type x) (event_type e)) eqn:E.
      * rewrite removelast_last.
        destruct (IH (l' ++ [set_count (count_or_0 x + 1) x]) Hs') as (log' & A & B & C & D).
        { apply Forall_app. split; [exact Hl'|]. constructor; [|constructor].
          cbn. lia. }
        { rewrite map_app in *. exact Hm. }
        exists log'. split; [exact A|]. split.
        { rewrite B, !expand_snoc, (occurrences_set_count x Hx0).
          apply strict_eq_eq in E. rewrite E, <- !app_assoc. reflexivity. }
        split; [exact C|]. rewrite !length_app in *. cbn in *. lia.
      * destruct (IH ((l' ++ [x]) ++ [e]) Hs') as (log' & A & B & C & D).
        { apply Forall_app. split; [apply Forall_app; auto|].
          constructor; [|constructor]. unfold count_or_0. rewrite Hc. lia. }
        { rewrite !map_app in *. rewrite <- app_assoc. cbn [map app].
          apply merged_snoc; assumption. }
        exists log'. split; [exact A|]. split.
        { rewrite B, (expand_snoc (l' ++ [x]) e), He, <- !app_assoc. reflexivity. }
        split; [exact C|]. rewrite !length_app in *. cbn in *. lia.
Qed.

(** X15. Starting from the empty log, with every incoming event carrying a
    type and no count of its own, the updater never throws and keeps the
    log a run-length encoding of the stream: writing each entry's type once
    plus [count] times gives back the types of the events in arrival
    order, and no two neighbouring entries have the same type. *)
Theorem realtime_log_run_length (stream : list RealtimeEvent) :
  Forall (fun e => event_type e <> None /\ count e = None) stream ->
  exists log,
    realtime_log [] stream = Some log /\
    expand log = map event_type stream /\
    merged (map event_type log) /\
    (length log <= length stream)%nat.
Proof.
  intros H.
  destruct (realtime_log_spec stream [] H) as (log & A & B & C & D);
    [constructor|exact I|].
  exists log. auto.
Qed.

(** ** What the page shows *)

Lemma or_string_nonempty (a : option string) (b : string) :
  b <> ""%string -> or_string a b <> ""%string.
Proof.
  intros Hb. unfold or_string. destruct (truthy a) eqn:E; [|exact Hb].
  now destruct (truthy_string_of a E).
Qed.

Lemma or_string_true (a : option string) (b : string) :
  truthy a = true -> or_string a b = string_of a.
Proof. intros H. unfold or_string. now rewrite H. Qed.

Lemma or_string_false (a : option string) (b : string) :
  truthy a = false -> or_string a b = b.
Proof. intros H. unfold or_string. now rewrite H. Qed.

(** X16. The text shown for an item is never the empty string, for a user's
    item as for an assistant's.  A transcript that is not empty is what is
    shown; without one, a user's item that still has samples shows
    '(awaiting transcript)' whatever its text, and otherwise, as for an
    assistant's item, the text if it is not empty and a fixed placeholder
    if it is. *)
Theorem speaker_content_never_empty (f : Formatted) :
  user_content f <> ""%string /\
  assistant_content f <> ""%string /\
  (truthy (transcript f) = true ->
   user_content f = string_of (transcript f) /\
   assistant_content f = string_of (transcript f)) /\
  (truthy (transcript f) = false ->
   (has_samples (audio f) = true -> user_content f = "(awaiting transcript)"%string) /\
   (has_samples (audio f) = false -> truthy (text f) = true ->
      user_content f = string_of (text f)) /\
   (has_samples (audio f) = false -> truthy (text f) = false ->
      user_content f = "(item sent)"%string) /\
   (truthy (text f) = true -> assistant_content f = string_of (text f)) /\
   (truthy (text f) = false -> assistant_content f = "(truncated)"%string)).
Proof.
  unfold user_content, assistant_content.
  split; [|split; [|split]].
  - apply or_string_nonempty. destruct (has_samples (audio f)); [discriminate|].
    apply or_string_nonempty. discriminate.
  - apply or_string_nonempty, or_string_nonempty. discriminate.
  - intros H. rewrite !(or_string_true _ _ H). split; reflexivity.
  - intros H. rewrite !(or_string_false _ _ H).
    repeat split.
    + now intros ->.
    + intros -> Ht. now rewrite (or_string_true _ _ Ht).
    + intros -> Ht. now rewrite (or_string_false _ _ Ht).
    + intros Ht. now rewrite (or_string_true _ _ Ht).
    + intros Ht. now rewrite (or_string_false _ _ Ht).
Qed.

Lemma replaceAll_underscore_chars (s : string) :
  ~ In "_"%char (list_ascii_of_string (replaceAll_underscore s)) /\
  String.length (replaceAll_underscore s) = String.length s /\
  (~ In "_"%char (list_ascii_of_string s) -> replaceAll_underscore s = s).
Proof.
  induction s as [|a s (IH1 & IH2 & IH3)]; cbn.
  - repeat split; auto.
  - destruct (Ascii.eqb a "_") eqn:E.
    + apply Ascii.eqb_eq in E. subst a. split; [|split].
      * intros [H|H]; [discriminate|contradiction].
      * now rewrite IH2.
      * intros H. exfalso. apply H. now left.
    + apply Ascii.eqb_neq in E. split; [|split].
      * intros [H|H]; [now apply E|contradiction].
      * now rewrite IH2.
      * intros H. rewrite IH3; [reflexivity|]. intros H'. apply H. now right.
Qed.

(** X17. The name shown for a speaker has no underscore in it and is as
    long as the name it is made from, which is the item's role when that
    is not empty, else its type, else the empty string; a name without
    underscores is shown as it is. *)
Theorem displayText_no_underscore (role type : option string) :
  let raw := or_string role (or_string type "") in
  ~ In "_"%char (list_ascii_of_string (displayText role type)) /\
  String.length (displayText role type) = String.length raw /\
  (~ In "_"%char (list_ascii_of_string raw) -> displayText role type = raw) /\
  (truthy role = true -> raw = string_of role) /\
  (truthy role = false -> truthy type = false -> displayText role type = ""%string).
Proof.
  cbv zeta. unfold displayText.
  destruct (replaceAll_underscore_chars (or_string role (or_string type "")))
    as (A & B & C).
  split; [exact A|]. split; [exact B|]. split; [exact C|]. split.
  - intros H. unfold or_string at 1. now rewrite H.
  - intros H1 H2. unfold or_string. now rewrite H1, H2.
Qed.

(** ** The avatar client *)

Lemma updated_without_client (env : Env) (evs : list Event) :
  forall c,
    simliClientRef c = None ->
    Forall (fun ev => is_conversation_updated ev = true) evs ->
    simliClientRef (run env c evs) = None /\
    simliAudioBufferRef (run env c evs) = simliAudioBufferRef c /\
    sent (calls (run env c evs)) = sent (calls c).
Proof.
  induction evs as [|ev evs IH]; intros c Hc Hevs.
  - cbn. auto.
  - inversion Hevs as [|? ? Hev Hevs']; subst.
    destruct ev as [item delta| | | | | |]; try discriminate.
    cbn [run fold_left].
    change (fold_left (step env) evs ?x) with (run env x evs).
    destruct (step_updated_pipeline env item delta c) as (A & B & l & C & D).
    rewrite (process_audio_delta_no_client env delta c Hc) in A, B, C.
    cbn [snd] in A, B, C.
    destruct (IH (step env c (conversation_updated item delta))) as (E1 & E2 & E3).
    { now rewrite A. }
    { exact Hevs'. }
    split; [exact E1|]. split; [now rewrite E2|].
    rewrite E3, C, sent_app, D. apply app_nil_r.
Qed.

(** X18. The mount effect creates the avatar client exactly when the video
    and audio elements are there and REACT_APP_SIMLI_API_KEY and
    REACT_APP_SIMLI_FACE_ID are both set and not empty; it then initializes
    it with these two.  Otherwise it creates none and leaves the reference
    as it is, so that on a page that had no client every audio delta that
    follows is dropped: nothing is sent and nothing is buffered. *)
Theorem simli_needs_configuration (m : Mount) (env : Env) (c : Console)
  (evs : list Event) :
  simliClientRef c = None ->
  Forall (fun ev => is_conversation_updated ev = true) evs ->
  let configured :=
    videoRef_current m && audioRef_current m &&
    (truthy (REACT_APP_SIMLI_API_KEY m) && truthy (REACT_APP_SIMLI_FACE_ID m)) in
  let c0 := snd (ConsolePage_effect m c) in
  (configured = true ->
   simliClientRef c0 = Some (new_SimliClient m) /\
   exists key face rest,
     REACT_APP_SIMLI_API_KEY m = Some key /\ REACT_APP_SIMLI_FACE_ID m = Some face /\
     fst (ConsolePage_effect m c) =
       SimliClient_new :: SimliClient_Initialize key face :: rest /\
     ~ In SimliClient_new rest) /\
  (configured = false ->
   simliClientRef c0 = None /\
   ~ In SimliClient_new (fst (ConsolePage_effect m c)) /\
   simliAudioBufferRef (run env c0 evs) = simliAudioBufferRef c /\
   sent (calls (run env c0 evs)) = sent (calls c)).
Proof.
  intros Hc Hevs. cbv zeta. unfold ConsolePage_effect, initialize_simli.
  destruct (videoRef_current m && audioRef_current m) eqn:Er; cbn [andb].
  - destruct (truthy (REACT_APP_SIMLI_API_KEY m)) eqn:Ek;
      destruct (truthy (REACT_APP_SIMLI_FACE_ID m)) eqn:Ef; cbn [andb negb orb].
    1: { split; [|discriminate]. intros _. cbn [fst snd].
         split; [reflexivity|].
         destruct (truthy_string_of _ Ek) as [Ek' _].
         destruct (truthy_string_of _ Ef) as [Ef' _].
         eexists _, _, _. split; [exact Ek'|]. split; [exact Ef'|].
         split; [reflexivity|].
         cbn. intros H. repeat destruct H as [H|H]; try discriminate; exact H. }
    all: split; [discriminate|]; intros _; cbn [fst snd];
      (split; [exact Hc|]);
      (split; [cbn; intros H; repeat destruct H as [H|H]; try discriminate; exact H|]);
      destruct (updated_without_client env evs (set_items (conversation c) c) Hc Hevs)
        as (_ & A & B); split; [exact A|exact B].
  - split; [discriminate|]. intros _. cbn [fst snd].
    split; [exact Hc|].
    split; [cbn; intros H; repeat destruct H as [H|H]; try discriminate; exact H|].
    destruct (updated_without_client env evs (set_items (conversation c) c) Hc Hevs)
      as (_ & A & B). split; [exact A|exact B].
Qed.

(** * The resampler at the rates of the page *)

(** ** The quotient, from both sides *)

(** Quotients of positive numbers: within the rounding error of the exact
    quotient. *)
Lemma div_two_sided (a b : float) (ma mb : positive) (ea eb : Z) :
  Prim2SF a = S754_finite false ma ea ->
  Prim2SF b = S754_finite false mb eb ->
  let x := (F2R (Z.pos ma) ea / F2R (Z.pos mb) eb)%R in
  match Prim2SF (a / b)%float with
  | S754_zero s => (x < err x)%R
  | S754_finite s m e =>
      s = false /\ (x - err x < F2R (Z.pos m) e <= x + err x)%R
  | S754_infinity _ => (bpow 972 <= x + err x)%R
  | S754_nan => False
  end.
Proof.
  intros Ha Hb x. rewrite FloatAxioms.div_spec, Ha, Hb. unfold SF64div, SFdiv.
  cbn [xorb].
  destruct (SFdiv_core_spec ma mb ea eb) as (q0 & r & l & E & Hq0 & Hr & Hdiv & _).
  cbv zeta in E, Hdiv. rewrite E.
  pose proof (SFdiv_core_digits ma mb ea eb q0 r Hq0 Hr Hdiv) as Hdig.
  cbv zeta in Hdig.
  set (e' := Z.min (fexp (Zdigits2 (Z.pos ma) + ea - (Zdigits2 (Z.pos mb) + eb))) (ea - eb)) in *.
  assert (Hs : 0 <= ea - eb - e') by (unfold e'; lia).
  pose proof (F2R_pos (Z.pos ma) ea ltac:(lia)) as Pa.
  pose proof (F2R_pos (Z.pos mb) eb ltac:(lia)) as Pb.
  assert (Hx : (F2R q0 e' <= x < F2R (q0 + 1) e')%R).
  { assert (Ea : F2R (Z.pos ma) ea = (F2R (Z.pos mb) eb * F2R q0 e' + F2R r (eb + e'))%R).
    { replace ea with ((eb + e') + (ea - eb - e')) at 1 by lia.
      rewrite <- F2R_shift, Hdiv, F2R_add by lia.
      rewrite Z.mul_comm. replace (eb + e') with (e' + eb) at 1 by lia.
      rewrite F2R_mul. ring. }
    assert (Hr1 : (0 <= F2R r (eb + e'))%R).
    { unfold F2R. apply Rmult_le_pos; [apply IZR_le; lia|apply Rlt_le, bpow_pos]. }
    assert (Hr2 : (F2R r (eb + e') < F2R (Z.pos mb) eb * bpow e')%R).
    { unfold F2R. rewrite bpow_add. pose proof (bpow_pos eb). pose proof (bpow_pos e').
      assert (IZR r < IZR (Z.pos mb))%R by (apply IZR_lt; lia).
      assert (0 < bpow eb * bpow e')%R by nra. nra. }
    unfold x. rewrite F2R_succ. rewrite Ea. split.
    - apply Rmult_le_reg_r with (F2R (Z.pos mb) eb); [exact Pb|].
      unfold Rdiv. rewrite Rmult_assoc, Rinv_l by lra. nra.
    - apply Rmult_lt_reg_r with (F2R (Z.pos mb) eb); [exact Pb|].
      unfold Rdiv. rewrite Rmult_assoc, Rinv_l by lra. nra. }
  destruct (binary_round_aux_bounds q0 e' l Hq0) as (Hq & [B1 B2] & R).
  cbv zeta in Hq, B1, B2, R.
  replace (Z.max e' (fexp (Zdigits2 q0 + e'))) with (fexp (Zdigits2 q0 + e')) in * by lia.
  set (e1 := fexp (Zdigits2 q0 + e')) in *.
  set (q := q0 / 2 ^ (e1 - e')) in *.
  assert (Hx0 : (0 <= x)%R).
  { destruct Hx as [Hx _]. assert (0 <= F2R q0 e')%R; [|lra].
    unfold F2R. apply Rmult_le_pos; [apply IZR_le; lia|apply Rlt_le, bpow_pos]. }
  assert (Hu : (bpow e1 <= err x)%R).
  { destruct (Z.eq_dec q0 0) as [Z0|NZ].
    - unfold e1 in *. rewrite Z0 in *. cbn [Zdigits2 Z.add] in *.
      rewrite fexp_eq in *.
      assert (Z.max (e' - 53) (-1074) = -1074) as -> by lia.
      unfold err. pose proof (bpow_pos (-52)). nra.
    - pose proof (ulp_bound q0 e' ltac:(lia)) as H. fold e1 in H.
      pose proof (err_mono (F2R q0 e') x ltac:(lra)). lra. }
  assert (Hxq : (x < F2R (q + 1) e1)%R).
  { assert (q0 + 1 <= (q + 1) * 2 ^ (e1 - e')).
    { assert (F2R q0 e' < F2R ((q + 1) * 2 ^ (e1 - e')) e')%R.
      { rewrite F2R_shift by lia. replace (e' + (e1 - e')) with e1 by lia. exact B2. }
      apply F2R_lt_inv in H. lia. }
    assert (F2R (q0 + 1) e' <= F2R ((q + 1) * 2 ^ (e1 - e')) e')%R by now apply F2R_le.
    rewrite F2R_shift in H0 by lia. replace (e' + (e1 - e')) with e1 in H0 by lia. lra. }
  rewrite F2R_succ in Hxq.
  destruct (binary_round_aux prec emax false q0 e' l) as [s|s| |s m e].
  - destruct R as [_ R]. rewrite R in Hxq. unfold F2R at 1 in Hxq.
    rewrite Rmult_0_l in Hxq. lra.
  - rewrite F2R_succ in R. lra.
  - contradiction.
  - destruct R as (-> & Hv & _). split; [reflexivity|].
    rewrite F2R_succ in Hv. destruct Hv as [Hv|Hv]; rewrite Hv; split; lra.
Qed.

(** ** [Math.round] and [Math.floor] of a positive number, by its value *)

Lemma F2R_scaled (m : positive) (e : Z) :
  e < 0 -> (F2R (Z.pos m) e * IZR (2 ^ (- e)) = IZR (Z.pos m))%R.
Proof.
  intros He. unfold F2R. rewrite <- bpow_IZR by lia. rewrite Rmult_assoc.
  rewrite bpow_opp. ring.
Qed.

Lemma Math_round_value (X : float) (m : positive) (e L : Z) :
  Prim2SF X = S754_finite false m e ->
  (IZR L - 1 / 2 <= F2R (Z.pos m) e < IZR L + 1 / 2)%R ->
  L < 2 ^ 53 ->
  0 <= L /\
  Prim2SF (JS.Math_round X) = Prim2SF (JS.number_of_Z L).
Proof.
  intros HX [H1 H2] HL.
  pose proof (F2R_pos (Z.pos m) e ltac:(lia)) as Pv.
  assert (H0 : 0 <= L).
  { destruct (Z_lt_le_dec L 0) as [Hn|]; [|assumption]. exfalso.
    assert (IZR L <= -1)%R by (apply IZR_le; lia). lra. }
  split; [exact H0|].
  unfold JS.Math_round. rewrite HX.
  destruct (0 <=? e) eqn:Ee.
  - apply Z.leb_le in Ee. f_equal.
    assert (EL : L = Z.pos m * 2 ^ e).
    { pose proof (two_pow_pos e Ee).
      assert (F2R (Z.pos m) e = IZR (Z.pos m * 2 ^ e)).
      { apply IZR_F2R; [reflexivity|lia]. }
      rewrite H3 in H1, H2.
      assert (L - 1 < Z.pos m * 2 ^ e) by (apply lt_IZR; rewrite minus_IZR; lra).
      assert (Z.pos m * 2 ^ e < L + 1) by (apply lt_IZR; rewrite plus_IZR; lra).
      lia. }
    apply (number_of_Z_unique X m e L HX); [|exact HL].
    apply IZR_F2R; [intros _; exact EL|lia].
  - apply Z.leb_gt in Ee. cbn [cond_Zopp].
    pose proof (two_pow_pos (- e) ltac:(lia)) as Hp.
    assert (HD : 2 ^ (1 - e) = 2 * 2 ^ (- e)).
    { replace (1 - e) with (1 + - e) by lia. rewrite Z.pow_add_r by lia. reflexivity. }
    assert (En : (2 * Z.pos m + 2 ^ (- e)) / 2 ^ (1 - e) = L).
    { pose proof (F2R_scaled m e Ee) as Ev.
      assert (Pp : (0 < IZR (2 ^ (- e)))%R) by (apply IZR_lt; lia).
      assert (A1 : (2 * IZR L * IZR (2 ^ (- e)) <= 2 * IZR (Z.pos m) + IZR (2 ^ (- e)))%R).
      { rewrite <- Ev. nra. }
      assert (A2 : (2 * IZR (Z.pos m) + IZR (2 ^ (- e)) < 2 * (IZR L + 1) * IZR (2 ^ (- e)))%R).
      { rewrite <- Ev. nra. }
      assert (B1 : 2 * L * 2 ^ (- e) <= 2 * Z.pos m + 2 ^ (- e)).
      { apply le_IZR. rewrite plus_IZR, !mult_IZR. exact A1. }
      assert (B2 : 2 * Z.pos m + 2 ^ (- e) < 2 * (L + 1) * 2 ^ (- e)).
      { apply lt_IZR. rewrite plus_IZR, !mult_IZR, plus_IZR. exact A2. }
      symmetry. apply (Z.div_unique _ _ L (2 * Z.pos m + 2 ^ (- e) - 2 * L * 2 ^ (- e))).
      - left. rewrite HD. lia.
      - rewrite HD. ring. }
    rewrite En. destruct (L =? 0) eqn:EL0.
    + apply Z.eqb_eq in EL0. rewrite EL0. reflexivity.
    + reflexivity.
Qed.

Lemma Math_floor_value (Y : float) (m : positive) (e k : Z) :
  Prim2SF Y = S754_finite false m e ->
  (IZR k <= F2R (Z.pos m) e < IZR k + 1)%R ->
  k < 2 ^ 53 ->
  JS.Math_floor Y = JS.number_of_Z k.
Proof.
  intros HY [H1 H2] Hk. unfold JS.Math_floor. rewrite HY.
  destruct (0 <=? e) eqn:Ee.
  - apply Z.leb_le in Ee.
    pose proof (two_pow_pos e Ee).
    assert (F2R (Z.pos m) e = IZR (Z.pos m * 2 ^ e)).
    { apply IZR_F2R; [reflexivity|lia]. }
    rewrite H0 in H1, H2.
    assert (k <= Z.pos m * 2 ^ e) by (apply le_IZR; lra).
    assert (Z.pos m * 2 ^ e < k + 1) by (apply lt_IZR; rewrite plus_IZR; lra).
    apply (number_of_Z_unique Y m e k HY); [|exact Hk].
    apply IZR_F2R; [intros _; lia|lia].
  - apply Z.leb_gt in Ee. cbn [cond_Zopp]. f_equal.
    pose proof (two_pow_pos (- e) ltac:(lia)) as Hp.
    pose proof (F2R_scaled m e Ee) as Ev.
    assert (Pp : (0 < IZR (2 ^ (- e)))%R) by (apply IZR_lt; lia).
    assert (A1 : (IZR k * IZR (2 ^ (- e)) <= IZR (Z.pos m))%R) by (rewrite <- Ev; nra).
    assert (A2 : (IZR (Z.pos m) < (IZR k + 1) * IZR (2 ^ (- e)))%R) by (rewrite <- Ev; nra).
    assert (B1 : k * 2 ^ (- e) <= Z.pos m) by (apply le_IZR; rewrite mult_IZR; exact A1).
    assert (B2 : Z.pos m < (k + 1) * 2 ^ (- e)).
    { apply lt_IZR. rewrite mult_IZR, plus_IZR. exact A2. }
    symmetry. apply (Z.div_unique _ _ k (Z.pos m - k * 2 ^ (- e))).
    + left. lia.
    + ring.
Qed.

(** ** The length at 24000 to 16000 *)

Lemma ratio_24000_16000 : (24000 / 16000)%float = 1.5%float.
Proof. reflexivity. Qed.

Lemma Prim2SF_1_5 : Prim2SF 1.5 = S754_finite false 6755399441055744 (-52).
Proof. reflexivity. Qed.

Lemma F2R_1_5 : (F2R 6755399441055744 (-52) * 2 = 3)%R.
Proof. unfold F2R. pose proof bpow_m52. lra. Qed.

Lemma two_thirds_bounds (n : Z) :
  3 * two_thirds n <= 2 * n + 1 <= 3 * two_thirds n + 2.
Proof.
  unfold two_thirds.
  pose proof (Z.div_mod (2 * n + 1) 3 ltac:(lia)).
  pose proof (Z.mod_pos_bound (2 * n + 1) 3 ltac:(lia)). lia.
Qed.

Lemma two_thirds_exact (n : Z) : two_thirds n = exact_round_ratio n 24000 16000.
Proof.
  unfold exact_round_ratio. pose proof (two_thirds_bounds n).
  apply (Z.div_unique _ _ _ (2 * (n * 16000) + 24000 - 2 * 24000 * two_thirds n)); lia.
Qed.

Lemma outputLength_24000_16000 (limit n : Z) :
  0 <= n <= limit -> limit <= 2 ^ 48 ->
  TypedArray.ToIndex limit (JS.Math_round (JS.number_of_Z n / 1.5)%float)
  = Some (two_thirds n).
Proof.
  intros Hn Hl. destruct two_pow_48_53 as [P1 P2].
  destruct (Z.eq_dec n 0) as [->|Hz]; [apply empty_input_length|].
  destruct (number_of_Z_pos n ltac:(lia)) as (mn & en & En & Vn).
  pose proof (div_two_sided _ _ mn 6755399441055744 en (-52) En Prim2SF_1_5) as D.
  cbv zeta in D. rewrite Vn in D.
  pose proof (two_thirds_bounds n) as [T1 T2].
  set (L := two_thirds n) in *.
  assert (R1 : (3 * IZR L <= 2 * IZR n + 1)%R).
  { rewrite <- mult_IZR. change 2%R with (IZR 2). rewrite <- mult_IZR.
    change 1%R with (IZR 1). rewrite <- plus_IZR. apply IZR_le. lia. }
  assert (R2 : (2 * IZR n + 1 <= 3 * IZR L + 2)%R).
  { rewrite <- mult_IZR. change 2%R with (IZR 2) at 1. rewrite <- mult_IZR.
    change 1%R with (IZR 1). rewrite <- plus_IZR.
    change 2%R with (IZR 2). rewrite <- plus_IZR. apply IZR_le. lia. }
  assert (Rn : (1 <= IZR n <= 281474976710656)%R).
  { split; apply IZR_le; [lia|]. change 281474976710656 with (2 ^ 48). lia. }
  pose proof F2R_1_5 as V15. pose proof bpow_m52 as B52.
  pose proof bpow_m1074 as B1074. pose proof (bpow_pos (-1074)) as P1074.
  pose proof bpow_972_large as B972.
  assert (E60 : IZR (2 ^ 60) = 1152921504606846976%R) by reflexivity.
  rewrite E60 in B972. clear E60.
  revert D V15. generalize (F2R 6755399441055744 (-52)). intros r D V15.
  assert (Er : r = (3 / 2)%R) by lra. subst r. clear V15.
  set (x := (IZR n / (3 / 2))%R) in *.
  assert (Ex : (x * 3 = 2 * IZR n)%R) by (unfold x; field).
  unfold err in D.
  revert D B52 B1074 P1074 B972. generalize (bpow (-52)) (bpow (-1074)) (bpow 972).
  intros b52 b1074 b972 D B52 B1074 P1074 B972.
  assert (Hb52 : (x * b52 <= 1 / 16)%R) by nra.
  assert (Hb : (b1074 <= 1 / 16)%R) by nra.
  destruct (Prim2SF (JS.number_of_Z n / 1.5)%float) as [s|s| |s m e] eqn:EX.
  - exfalso. nra.
  - exfalso. nra.
  - contradiction.
  - destruct D as (-> & D1 & D2).
    destruct (Math_round_value _ m e L EX) as [H0 HR].
    + split; lra.
    + lia.
    + apply Prim2SF_inj in HR. rewrite HR. apply ToIndex_integer; lia.
Qed.

Lemma buffer_bytes_length (a : Int16Array) :
  Z.of_nat (length (TypedArray.buffer_bytes a)) = 2 * Z.of_nat (length a).
Proof.
  unfold TypedArray.buffer_bytes. induction a as [|s a IH]; [reflexivity|].
  cbn [flat_map length app TypedArray.bytes_of_sample]. lia.
Qed.

Lemma buffer_bytes_range (a : Int16Array) :
  Forall (fun b => 0 <= b < 256) (TypedArray.buffer_bytes a).
Proof.
  unfold TypedArray.buffer_bytes. induction a as [|s a IH]; [constructor|].
  cbn [flat_map app TypedArray.bytes_of_sample].
  pose proof (Z.mod_pos_bound s 65536 ltac:(lia)).
  constructor; [apply Z.mod_pos_bound; lia|].
  constructor; [|exact IH].
  split; [apply Z.div_pos; lia|apply Z.div_lt_upper_bound; lia].
Qed.

(** X19. At the rates the page resamples at, 24000 to 16000, the function
    always returns (the allocation never throws), for every input the
    engine can hold, and the output has exactly two thirds of the input's
    length, rounded to the nearest integer: here the length is the exact
    [round(len * 16000 / 24000)].  The bytes of the output, which are what
    the avatar is sent, are two per sample, each in 0..255. *)
Theorem resampleAudioData_24000_16000_length (limit : Z) (inputData : Int16Array) :
  Z.of_nat (length inputData) <= limit -> limit <= 2 ^ 48 ->
  let n := Z.of_nat (length inputData) in
  exists outputData,
    resampleAudioData limit inputData 24000 16000 = Some outputData /\
    Z.of_nat (length outputData) = two_thirds n /\
    two_thirds n = exact_round_ratio n 24000 16000 /\
    Z.of_nat (length (TypedArray.buffer_bytes outputData)) = 2 * two_thirds n /\
    Forall (fun b => 0 <= b < 256) (TypedArray.buffer_bytes outputData).
Proof.
  intros Hn Hl n.
  pose proof (outputLength_24000_16000 limit n ltac:(unfold n; lia) Hl) as H.
  unfold resampleAudioData, resampleAudioData_run, outputLength.
  rewrite ratio_24000_16000. fold n.
  destruct (create_length _ _ _ H) as (a & E & La). rewrite E. cbn [option_map].
  eexists. split; [reflexivity|].
  assert (Lo : Z.of_nat (length (fst (resample_loop inputData 1.5 (length a) 0 (a, []))))
               = two_thirds n).
  { rewrite resample_loop_length. exact La. }
  split; [exact Lo|]. split; [apply two_thirds_exact|].
  split; [rewrite buffer_bytes_length, Lo; reflexivity|apply buffer_bytes_range].
Qed.

(** ** Roundings that lose nothing: numbers of the form [K * 2^E] *)

Lemma F2R_eq_shift (m e K E : Z) :
  F2R m e = F2R K E -> e <= E -> m = K * 2 ^ (E - e).
Proof.
  intros H He. apply (F2R_eq_inv _ _ e).
  rewrite F2R_shift by lia. rewrite H. f_equal. lia.
Qed.

Lemma digits_of_dyadic (m e K E : Z) :
  0 < m -> 0 < K -> F2R m e = F2R K E -> Zdigits2 m + e = Zdigits2 K + E.
Proof.
  intros Hm HK H.
  destruct (F2R_magnitude m e Hm) as [L U]. rewrite H in L, U.
  destruct (F2R_magnitude K E HK) as [L' U'].
  assert (Zdigits2 m + e - 1 < Zdigits2 K + E) by (apply bpow_lt_inv; lra).
  assert (Zdigits2 K + E - 1 < Zdigits2 m + e) by (apply bpow_lt_inv; lra).
  lia.
Qed.

Lemma F2R_below (K E : Z) : 0 < K -> E <= 0 -> (F2R K E <= IZR K)%R.
Proof.
  intros HK HE. unfold F2R.
  assert (bpow E <= bpow 0)%R by (apply bpow_le; lia). rewrite bpow_0 in H.
  assert (0 < IZR K)%R by (apply IZR_lt; lia). pose proof (bpow_pos E). nra.
Qed.

Lemma binary_round_aux_dyadic (s : bool) (mx ex K E : Z) :
  0 < mx -> 0 < K < 2 ^ 53 -> -1074 <= E <= 0 -> F2R mx ex = F2R K E ->
  exists m e,
    binary_round_aux prec emax s mx ex loc_Exact = S754_finite s m e /\
    F2R (Z.pos m) e = F2R K E.
Proof.
  intros Hm HK HE H.
  pose proof (digits_of_dyadic mx ex K E Hm ltac:(lia) H) as Hd.
  assert (HdK : 1 <= Zdigits2 K <= 53).
  { split; [pose proof (Zdigits2_pos K); lia|]. apply Zdigits2_le; lia. }
  destruct (binary_round_aux_spec s mx ex loc_Exact ltac:(lia)) as (m1 & B & X & R).
  cbv zeta in B, X, R. rewrite Hd in B, X, R. rewrite fexp_eq in B, X, R.
  set (e1 := Z.max ex (Z.max (Zdigits2 K + E - 53) (-1074))) in *.
  assert (Hmod : mx mod 2 ^ (e1 - ex) = 0).
  { destruct (Z_le_gt_dec (Z.max (Zdigits2 K + E - 53) (-1074)) ex) as [Hle|Hgt].
    - assert (E1 : e1 = ex) by (unfold e1; lia). rewrite E1, Z.sub_diag. apply Z.mod_1_r.
    - assert (E1 : e1 <= E /\ ex < e1) by (unfold e1; lia).
      rewrite (F2R_eq_shift mx ex K E H ltac:(lia)).
      replace (E - ex) with ((E - e1) + (e1 - ex)) by lia.
      rewrite Z.pow_add_r, Z.mul_assoc by lia. apply Z.mod_mul.
      pose proof (two_pow_pos (e1 - ex) ltac:(lia)). lia. }
  specialize (X eq_refl Hmod). subst m1.
  assert (Hk : 0 <= e1 - ex) by (unfold e1; lia).
  pose proof (two_pow_pos (e1 - ex) Hk) as Hp.
  assert (Hq : mx = (mx / 2 ^ (e1 - ex)) * 2 ^ (e1 - ex)).
  { rewrite (Z.div_mod mx (2 ^ (e1 - ex))) at 1 by lia. rewrite Hmod. ring. }
  assert (Hv : F2R (mx / 2 ^ (e1 - ex)) e1 = F2R K E).
  { rewrite <- H. rewrite Hq at 2. rewrite F2R_shift by lia. f_equal. lia. }
  pose proof (F2R_pos K E ltac:(lia)) as PK.
  pose proof (F2R_below K E ltac:(lia) ltac:(lia)) as BK.
  destruct (binary_round_aux prec emax s mx ex loc_Exact) as [s'|s'| |s' m e].
  - exfalso. destruct R as [_ R]. rewrite R in Hv. unfold F2R at 1 in Hv.
    rewrite Rmult_0_l in Hv. lra.
  - exfalso. destruct R as [_ (e & He & Hle & Hpow)].
    assert (F2R (2 ^ (e - e1)) e1 <= F2R (mx / 2 ^ (e1 - ex)) e1)%R by (apply F2R_le; lia).
    rewrite Hv in H0. unfold F2R at 1 in H0. rewrite <- bpow_IZR, <- bpow_add in H0 by lia.
    replace (e - e1 + e1) with e in H0 by lia.
    assert (bpow 53 <= bpow e)%R by (apply bpow_le; lia).
    rewrite bpow_53 in H1. assert (IZR K < IZR (2 ^ 53))%R by (apply IZR_lt; lia). lra.
  - contradiction.
  - destruct R as (-> & Hle & Hm1). exists m, e. split; [reflexivity|].
    rewrite <- Hv. now apply round_value.
Qed.

Lemma binary_normalize_dyadic (M ez K E : Z) (szero : bool) :
  M <> 0 -> 0 < K < 2 ^ 53 -> -1074 <= E <= 0 ->
  F2R (Z.abs M) ez = F2R K E ->
  exists m e,
    binary_normalize prec emax M ez szero = S754_finite (M <? 0) m e /\
    F2R (Z.pos m) e = F2R K E.
Proof.
  intros HM HK HE H. destruct M as [|p|p]; try lia;
    unfold binary_normalize, binary_round;
    destruct (shl_align_spec p ez (fexp (Z.pos (digits2_pos p) + ez)))
      as (mz & ez' & E1 & _ & V);
    rewrite E1; cbn [Z.ltb Z.compare]; apply binary_round_aux_dyadic; try lia;
    rewrite V; exact H.
Qed.

(** ** Numbers that are halves of integers *)

Lemma F2R_half_integer (n : Z) : F2R (2 * n) (-1) = IZR n.
Proof.
  unfold F2R. rewrite mult_IZR.
  assert (bpow (-1) * 2 = 1)%R.
  { rewrite <- bpow_1. rewrite Rmult_comm. apply bpow_opp. }
  nra.
Qed.

Lemma is_half_integer (n : Z) :
  Z.abs n < 2 ^ 52 -> is_half (JS.number_of_Z n) (2 * n).
Proof.
  intros H. unfold is_half. destruct two_pow_48_53 as [_ P2].
  destruct (Z.eq_dec n 0) as [->|Hz]; [reflexivity|].
  destruct (number_of_Z_nonzero n Hz ltac:(lia)) as (m & e & E & V).
  rewrite E. split; [lia|]. split.
  - destruct (n <? 0) eqn:En; symmetry;
      [apply Z.ltb_lt in En; apply Z.ltb_lt|apply Z.ltb_ge in En; apply Z.ltb_ge]; lia.
  - rewrite V. replace (Z.abs (2 * n)) with (2 * Z.abs n) by lia.
    symmetry. apply F2R_half_integer.
Qed.

Lemma is_half_0_5 : is_half 0.5 1.
Proof.
  unfold is_half. change (Prim2SF 0.5) with (S754_finite false 4503599627370496 (-53)).
  split; [lia|]. split; [reflexivity|].
  change (Z.abs 1) with 1.
  symmetry. apply round_value; [lia|reflexivity].
Qed.

Lemma is_half_1_5 : is_half 1.5 3.
Proof.
  unfold is_half. rewrite Prim2SF_1_5.
  split; [lia|]. split; [reflexivity|].
  change (Z.abs 3) with 3.
  symmetry. apply round_value; [lia|reflexivity].
Qed.

(** A number that is a half of an integer is determined by it, zero apart. *)
Lemma is_half_unique (x y : float) (k : Z) :
  k <> 0 -> is_half x k -> is_half y k -> x = y.
Proof.
  unfold is_half. intros Hk Hx Hy.
  destruct (Prim2SF x) as [sx|sx| |sx mx ex] eqn:Ex; try contradiction.
  destruct (Prim2SF y) as [sy|sy| |sy my ey] eqn:Ey; try contradiction.
  destruct Hx as (_ & Sx & Vx). destruct Hy as (_ & Sy & Vy).
  subst sx sy. apply (finite_unique x y _ mx my ex ey Ex Ey). congruence.
Qed.

Lemma is_half_even (x : float) (n : Z) :
  n <> 0 -> Z.abs n < 2 ^ 52 -> is_half x (2 * n) -> x = JS.number_of_Z n.
Proof.
  intros Hn Hb H. apply (is_half_unique x _ (2 * n)); [lia|exact H|].
  now apply is_half_integer.
Qed.

Lemma F2R_0 (e : Z) : F2R 0 e = 0%R.
Proof. unfold F2R. apply Rmult_0_l. Qed.

Lemma F2R_signed (s : bool) (m : positive) (e j : Z) :
  s = (j <? 0) -> F2R (Z.pos m) e = F2R (Z.abs j) (-1) ->
  F2R (cond_Zopp s (Z.pos m)) e = F2R j (-1).
Proof.
  intros -> H. rewrite F2R_cond_Zopp, H.
  destruct (j <? 0) eqn:E.
  - apply Z.ltb_lt in E. rewrite <- F2R_opp. f_equal. lia.
  - apply Z.ltb_ge in E. f_equal. lia.
Qed.

Lemma F2R_sign (M ez K E : Z) :
  F2R M ez = F2R K E ->
  (K = 0 -> M = 0) /\
  (K <> 0 -> M <> 0 /\ (M <? 0) = (K <? 0) /\ F2R (Z.abs M) ez = F2R (Z.abs K) E).
Proof.
  intros H. unfold F2R in *.
  pose proof (bpow_pos ez) as Pz. pose proof (bpow_pos E) as PE.
  assert (S1 : 0 < K -> 0 < M).
  { intros HK. apply lt_IZR. assert (0 < IZR K)%R by (apply IZR_lt; lia). nra. }
  assert (S2 : K < 0 -> M < 0).
  { intros HK. apply lt_IZR. assert (IZR K < 0)%R by (apply IZR_lt; lia). nra. }
  split.
  - intros ->. apply eq_IZR. rewrite Rmult_0_l in H. nra.
  - intros HK. destruct (Z_lt_le_dec K 0) as [Hn|Hp].
    + specialize (S2 Hn). split; [lia|]. split.
      * transitivity true; [apply Z.ltb_lt; lia|symmetry; apply Z.ltb_lt; lia].
      * replace (Z.abs M) with (- M) by lia. replace (Z.abs K) with (- K) by lia.
        rewrite !opp_IZR. nra.
    + specialize (S1 ltac:(lia)). split; [lia|]. split.
      * transitivity false; [apply Z.ltb_ge; lia|symmetry; apply Z.ltb_ge; lia].
      * replace (Z.abs M) with M by lia. replace (Z.abs K) with K by lia. exact H.
Qed.

(** A sum or difference of aligned mantissas that stands for [K / 2], once
    normalized. *)
Lemma normalize_is_half (z : float) (M ez K : Z) :
  F2R M ez = F2R K (-1) -> Z.abs K < 2 ^ 53 ->
  Prim2SF z = binary_normalize prec emax M ez false ->
  is_half z K.
Proof.
  intros H HK Ez. unfold is_half. rewrite Ez.
  destruct (F2R_sign M ez K (-1) H) as [Z0 NZ].
  destruct (Z.eq_dec K 0) as [E0|Hne].
  - rewrite (Z0 E0). exact E0.
  - destruct (NZ Hne) as (HM & Hs & Hv).
    destruct (binary_normalize_dyadic M ez (Z.abs K) (-1) false HM ltac:(lia) ltac:(lia) Hv)
      as (m & e & E & V).
    rewrite E. auto.
Qed.

Lemma aligned (mx : positive) (ex ey : Z) :
  F2R (Z.pos (fst (shl_align mx ex (Z.min ex ey)))) (Z.min ex ey) = F2R (Z.pos mx) ex.
Proof.
  destruct (shl_align_spec mx ex (Z.min ex ey)) as (a & z & A & Zz & W).
  rewrite A. cbn [fst]. rewrite <- W. f_equal. lia.
Qed.

Lemma aligned' (my : positive) (ex ey : Z) :
  F2R (Z.pos (fst (shl_align my ey (Z.min ex ey)))) (Z.min ex ey) = F2R (Z.pos my) ey.
Proof.
  destruct (shl_align_spec my ey (Z.min ex ey)) as (a & z & A & Zz & W).
  rewrite A. cbn [fst]. rewrite <- W. f_equal. lia.
Qed.

Lemma F2R_cond_Zopp_shift (s : bool) (a m : positive) (e e' : Z) :
  F2R (Z.pos a) e' = F2R (Z.pos m) e ->
  F2R (cond_Zopp s (Z.pos a)) e' = F2R (cond_Zopp s (Z.pos m)) e.
Proof. intros H. rewrite !F2R_cond_Zopp, H. reflexivity. Qed.

Lemma F2R_sub (m1 m2 e : Z) : F2R (m1 - m2) e = (F2R m1 e - F2R m2 e)%R.
Proof. unfold F2R. rewrite minus_IZR. ring. Qed.

Lemma is_half_add (x y : float) (j k : Z) :
  is_half x j -> is_half y k -> Z.abs (j + k) < 2 ^ 53 ->
  is_half (x + y)%float (j + k).
Proof.
  intros Hx Hy Hb. unfold is_half in Hx, Hy.
  destruct (Prim2SF x) as [sx|sx| |sx mx ex] eqn:Ex; try contradiction;
    destruct (Prim2SF y) as [sy|sy| |sy my ey] eqn:Ey; try contradiction.
  - unfold is_half. rewrite FloatAxioms.add_spec, Ex, Ey. subst j k.
    cbn. destruct sx, sy; reflexivity.
  - unfold is_half. rewrite FloatAxioms.add_spec, Ex, Ey. subst j.
    cbn. exact Hy.
  - unfold is_half. rewrite FloatAxioms.add_spec, Ex, Ey. subst k.
    cbn. rewrite Z.add_0_r. exact Hx.
  - destruct Hx as (_ & Sx & Vx). destruct Hy as (_ & Sy & Vy).
    apply (normalize_is_half _
             (cond_Zopp sx (Z.pos (fst (shl_align mx ex (Z.min ex ey))))
              + cond_Zopp sy (Z.pos (fst (shl_align my ey (Z.min ex ey)))))
             (Z.min ex ey)); [|exact Hb|].
    + rewrite !F2R_add.
      rewrite (F2R_cond_Zopp_shift sx _ mx ex _ (aligned mx ex ey)).
      rewrite (F2R_cond_Zopp_shift sy _ my ey _ (aligned' my ex ey)).
      rewrite (F2R_signed sx mx ex j Sx Vx), (F2R_signed sy my ey k Sy Vy).
      reflexivity.
    + rewrite FloatAxioms.add_spec, Ex, Ey. reflexivity.
Qed.

Lemma is_half_sub (x y : float) (j k : Z) :
  is_half x j -> is_half y k -> Z.abs (j - k) < 2 ^ 53 ->
  is_half (x - y)%float (j - k).
Proof.
  intros Hx Hy Hb. unfold is_half in Hx, Hy.
  destruct (Prim2SF x) as [sx|sx| |sx mx ex] eqn:Ex; try contradiction;
    destruct (Prim2SF y) as [sy|sy| |sy my ey] eqn:Ey; try contradiction.
  - unfold is_half. rewrite FloatAxioms.sub_spec, Ex, Ey. subst j k.
    cbn. destruct sx, sy; reflexivity.
  - unfold is_half. rewrite FloatAxioms.sub_spec, Ex, Ey. subst j.
    cbn. destruct Hy as (Hk & Sy & Vy). split; [lia|]. split.
    + subst sy. destruct (k <? 0) eqn:E; cbn; symmetry;
        [apply Z.ltb_lt in E; apply Z.ltb_ge|apply Z.ltb_ge in E; apply Z.ltb_lt]; lia.
    + rewrite Vy. f_equal. lia.
  - unfold is_half. rewrite FloatAxioms.sub_spec, Ex, Ey. subst k.
    cbn. rewrite Z.sub_0_r. exact Hx.
  - destruct Hx as (_ & Sx & Vx). destruct Hy as (_ & Sy & Vy).
    apply (normalize_is_half _
             (cond_Zopp sx (Z.pos (fst (shl_align mx ex (Z.min ex ey))))
              - cond_Zopp sy (Z.pos (fst (shl_align my ey (Z.min ex ey)))))
             (Z.min ex ey)); [|exact Hb|].
    + rewrite !F2R_sub.
      rewrite (F2R_cond_Zopp_shift sx _ mx ex _ (aligned mx ex ey)).
      rewrite (F2R_cond_Zopp_shift sy _ my ey _ (aligned' my ex ey)).
      rewrite (F2R_signed sx mx ex j Sx Vx), (F2R_signed sy my ey k Sy Vy).
      reflexivity.
    + rewrite FloatAxioms.sub_spec, Ex, Ey. reflexivity.
Qed.

Lemma is_half_mul (x y : float) (j k p : Z) :
  is_half x j -> is_half y k -> j * k = 2 * p -> Z.abs p < 2 ^ 53 ->
  is_half (x * y)%float p.
Proof.
  intros Hx Hy Hp Hb. unfold is_half in *.
  rewrite FloatAxioms.mul_spec.
  destruct (Prim2SF x) as [sx|sx| |sx mx ex] eqn:Ex; try contradiction;
    destruct (Prim2SF y) as [sy|sy| |sy my ey] eqn:Ey; try contradiction.
  - cbn. subst j. lia.
  - cbn. subst j. lia.
  - cbn. subst k. lia.
  - destruct Hx as (Hj & Sx & Vx). destruct Hy as (Hk & Sy & Vy).
    assert (Hp0 : p <> 0) by nia.
    destruct (binary_round_aux_dyadic (xorb sx sy) (Z.pos (mx * my)) (ex + ey)
                (Z.abs p) (-1)) as (m & e & E & V); try lia.
    { rewrite Pos2Z.inj_mul, F2R_mul, Vx, Vy, <- F2R_mul.
      symmetry. apply round_value; [lia|].
      change (2 ^ (-1 - (-1 + -1))) with 2.
      rewrite <- Z.abs_mul, Hp. lia. }
    unfold SF64mul, SFmul. rewrite E. split; [exact Hp0|]. split; [|exact V].
    subst sx sy. rewrite (xorb_sign_mul j k Hj Hk), Hp.
    destruct (p <? 0) eqn:Ep; [apply Z.ltb_lt in Ep; apply Z.ltb_lt|
                              apply Z.ltb_ge in Ep; apply Z.ltb_ge]; lia.
Qed.

Lemma F2R_half (K : Z) : (F2R K (-1) * 2 = IZR K)%R.
Proof.
  unfold F2R.
  assert (bpow (-1) * 2 = 1)%R.
  { rewrite <- bpow_1. rewrite Rmult_comm. apply bpow_opp. }
  nra.
Qed.

Lemma truncate_half (s : bool) (m : positive) (e K : Z) :
  0 < K -> F2R (Z.pos m) e = F2R K (-1) ->
  JS.truncate s m e = cond_Zopp s (K / 2).
Proof.
  intros HK V. unfold JS.truncate. destruct (0 <=? e) eqn:Ee.
  - apply Z.leb_le in Ee. f_equal.
    symmetry in V. pose proof (F2R_eq_shift K (-1) (Z.pos m) e V ltac:(lia)) as E.
    replace (e - -1) with (e + 1) in E by lia.
    rewrite Z.pow_add_r in E by lia. change (2 ^ 1) with 2 in E.
    rewrite E. replace (Z.pos m * (2 ^ e * 2)) with (Z.pos m * 2 ^ e * 2) by ring.
    rewrite Z.div_mul by lia. reflexivity.
  - apply Z.leb_gt in Ee. f_equal.
    pose proof (F2R_eq_shift (Z.pos m) e K (-1) V ltac:(lia)) as E.
    pose proof (two_pow_pos (-1 - e) ltac:(lia)) as Hp.
    rewrite E. replace (- e) with (1 + (-1 - e)) by lia.
    rewrite Z.pow_add_r by lia. change (2 ^ 1) with 2.
    rewrite Z.div_mul_cancel_r by lia. reflexivity.
Qed.

(** The store of half an integer into an [Int16Array]: the fraction is
    dropped, toward zero. *)
Lemma ToInt16_half (z : float) (K : Z) :
  is_half z K -> int16 (Z.quot K 2) -> JS.ToInt16 z = Z.quot K 2.
Proof.
  unfold is_half, int16, JS.ToInt16. intros H Hq.
  destruct (Prim2SF z) as [s|s| |s m e]; try contradiction.
  - subst K. reflexivity.
  - destruct H as (HK & Hs & V).
    rewrite (truncate_half s m e (Z.abs K) ltac:(lia) V).
    assert (Ec : cond_Zopp s (Z.abs K / 2) = Z.quot K 2).
    { subst s. destruct (K <? 0) eqn:Es; cbn [cond_Zopp].
      - apply Z.ltb_lt in Es. replace (Z.abs K) with (- K) by lia.
        rewrite <- (Z.quot_div_nonneg (- K) 2) by lia.
        rewrite Z.quot_opp_l by lia. lia.
      - apply Z.ltb_ge in Es. replace (Z.abs K) with K by lia.
        symmetry. apply Z.quot_div_nonneg; lia. }
    rewrite Ec. cbv zeta. set (t := Z.quot K 2) in *.
    destruct (Z_lt_le_dec t 0) as [Hn|Hp].
    + replace (t mod 65536) with (t + 65536).
      2:{ apply Z.mod_unique with (q := -1); lia. }
      replace (32768 <=? t + 65536) with true by (symmetry; apply Z.leb_le; lia). lia.
    + rewrite Z.mod_small by lia.
      replace (32768 <=? t) with false by (symmetry; apply Z.leb_gt; lia). reflexivity.
Qed.

Lemma Math_floor_half (Y : float) (K : Z) :
  is_half Y K -> 0 < K < 2 ^ 53 -> JS.Math_floor Y = JS.number_of_Z (K / 2).
Proof.
  unfold is_half. intros H HK.
  destruct (Prim2SF Y) as [s|s| |s m e] eqn:EY; try contradiction; [lia|].
  destruct H as (_ & Hs & V).
  assert (s = false) as -> by (rewrite Hs; apply Z.ltb_ge; lia).
  replace (Z.abs K) with K in V by lia.
  apply (Math_floor_value Y m e (K / 2) EY).
  - pose proof (F2R_half K) as Hh. rewrite <- V in Hh.
    pose proof (Z.div_mod K 2 ltac:(lia)) as Hd.
    pose proof (Z.mod_pos_bound K 2 ltac:(lia)) as Hm.
    assert (A1 : (2 * IZR (K / 2) <= IZR K)%R).
    { rewrite <- mult_IZR. apply IZR_le. lia. }
    assert (A2 : (IZR K < 2 * IZR (K / 2) + 2)%R).
    { change 2%R with (IZR 2). rewrite <- mult_IZR, <- plus_IZR. apply IZR_lt. lia. }
    split; lra.
  - pose proof (Z.div_lt_upper_bound K 2 (2 ^ 53) ltac:(lia) ltac:(lia)). lia.
Qed.

(** ** The samples at 24000 to 16000 *)

(** One iteration at ratio 3/2. *)
Lemma interpolate_3_2 (inputData : Int16Array) (i : Z) :
  Forall int16 inputData ->
  Z.of_nat (length inputData) <= 2 ^ 48 ->
  0 <= i < two_thirds (Z.of_nat (length inputData)) ->
  exists lower upper v,
    interpolate inputData 1.5 i = (lower, upper, v) /\
    JS.ToInt16 v = sample_3_2 inputData i.
Proof.
  intros Hs Hn Hi. destruct two_pow_48_53 as [P1 P2].
  set (n := Z.of_nat (length inputData)) in *.
  pose proof (two_thirds_bounds n) as [T1 _].
  set (k := 3 * i / 2).
  pose proof (Z.div_mod (3 * i) 2 ltac:(lia)) as Hd.
  pose proof (Z.mod_pos_bound (3 * i) 2 ltac:(lia)) as Hm.
  fold k in Hd.
  assert (Hk : 0 <= k <= n - 1) by lia.
  assert (HY : is_half (JS.number_of_Z i * 1.5)%float (3 * i)).
  { apply (is_half_mul _ _ (2 * i) 3); [apply is_half_integer; lia|apply is_half_1_5| |];
      lia. }
  set (up := Z.min (k + 1) (n - 1)).
  set (a := nth (Z.to_nat k) inputData 0).
  set (b := nth (Z.to_nat up) inputData 0).
  pose proof (int16_nth inputData (Z.to_nat k) Hs) as Ia. fold a in Ia.
  pose proof (int16_nth inputData (Z.to_nat up) Hs) as Ib. fold b in Ib.
  assert (Ga : TypedArray.get inputData (JS.number_of_Z k) = JS.number_of_Z a).
  { apply get_in_bounds; fold n; lia. }
  assert (Gb : TypedArray.get inputData (JS.number_of_Z up) = JS.number_of_Z b).
  { apply get_in_bounds; fold n; unfold up; lia. }
  assert (Hup : JS.Math_min (JS.number_of_Z k + 1)%float (JS.number_of_Z (n - 1))
                = JS.number_of_Z up).
  { rewrite add_one by lia. rewrite Math_min_integers by lia. reflexivity. }
  unfold sample_3_2. fold n k up a b. unfold interpolate. fold n.
  destruct (Z.even i) eqn:Ev.
  - (* an even position: the source index is the integer [k] *)
    apply Z.even_spec in Ev. destruct Ev as [j Ej].
    assert (Ek : k = 3 * j) by lia.
    assert (EY : (JS.number_of_Z i * 1.5)%float = JS.number_of_Z k).
    { destruct (Z.eq_dec j 0) as [J0|J0].
      - subst i. rewrite Ek, J0. reflexivity.
      - apply is_half_even; [lia|lia|].
        replace (2 * k) with (3 * i) by lia. exact HY. }
    rewrite EY, Math_floor_integer by lia.
    rewrite Hup, sub_self by lia.
    change (1 - 0)%float with 1%float.
    rewrite Ga, Gb.
    rewrite mul_one_l by now apply int16_abs.
    destruct (mul_zero_l b (int16_abs b Ib)) as [sg Ez].
    rewrite (add_zero_r a _ sg (int16_abs a Ia) Ez).
    eexists _, _, _. split; [reflexivity|]. now apply ToInt16_integer.
  - (* an odd position: the source index is [k] and a half *)
    assert (Eo : 3 * i = 2 * k + 1).
    { assert (Z.odd i = true) by (rewrite <- Z.negb_even, Ev; reflexivity).
      apply Z.odd_spec in H. destruct H as [j Ej]. lia. }
    rewrite (Math_floor_half _ (3 * i) HY) by lia. fold k.
    rewrite Hup.
    assert (Et : (JS.number_of_Z i * 1.5 - JS.number_of_Z k)%float = 0.5%float).
    { apply (is_half_unique _ _ 1); [lia| |apply is_half_0_5].
      replace 1 with (3 * i - 2 * k) by lia.
      apply is_half_sub; [exact HY|apply is_half_integer; lia|lia]. }
    rewrite Et. change (1 - 0.5)%float with 0.5%float.
    rewrite Ga, Gb.
    assert (Ha : is_half (0.5 * JS.number_of_Z a)%float a).
    { unfold int16 in Ia.
      apply (is_half_mul _ _ 1 (2 * a)); [apply is_half_0_5|apply is_half_integer| |]; lia. }
    assert (Hb : is_half (0.5 * JS.number_of_Z b)%float b).
    { unfold int16 in Ib.
      apply (is_half_mul _ _ 1 (2 * b)); [apply is_half_0_5|apply is_half_integer| |]; lia. }
    eexists _, _, _. split; [reflexivity|].
    unfold int16 in Ia, Ib.
    apply ToInt16_half; [apply is_half_add; [exact Ha|exact Hb|lia]|].
    unfold int16.
    pose proof (Z.quot_rem' (a + b) 2) as Hq.
    destruct (Z_lt_le_dec (a + b) 0) as [Hneg|Hpos].
    + pose proof (Z.rem_bound_pos_neg (a + b) 2 ltac:(lia) ltac:(lia)). lia.
    + pose proof (Z.rem_bound_pos_pos (a + b) 2 ltac:(lia) ltac:(lia)). lia.
Qed.

Lemma samples_3_2_snoc (inputData : Int16Array) (count : nat) :
  forall i,
    samples_3_2 inputData i (S count) =
    samples_3_2 inputData i count ++ [sample_3_2 inputData (i + Z.of_nat count)].
Proof.
  induction count as [|count IH]; intros i.
  - cbn. now rewrite Z.add_0_r.
  - change (samples_3_2 inputData i (S (S count)))
      with (sample_3_2 inputData i :: samples_3_2 inputData (i + 1) (S count)).
    rewrite IH. cbn [samples_3_2 app].
    replace (i + 1 + Z.of_nat count) with (i + Z.of_nat (S count)) by lia.
    reflexivity.
Qed.

Lemma samples_3_2_length (inputData : Int16Array) (count : nat) :
  forall i, length (samples_3_2 inputData i count) = count.
Proof. induction count as [|count IH]; intros i; cbn; [reflexivity|]. now rewrite IH. Qed.

Lemma loop_3_2 (inputData : Int16Array) (count i : nat) (log : list float) :
  Forall int16 inputData ->
  Z.of_nat (length inputData) <= 2 ^ 48 ->
  Z.of_nat (i + count) = two_thirds (Z.of_nat (length inputData)) ->
  fst (resample_loop inputData 1.5 count (Z.of_nat i)
         (samples_3_2 inputData 0 i ++ repeat 0 count, log))
  = samples_3_2 inputData 0 (i + count).
Proof.
  intros Hs Hn. revert i log. induction count as [|count IH]; intros i log Hic.
  - cbn. rewrite app_nil_r, Nat.add_0_r. reflexivity.
  - cbn [resample_loop].
    destruct (interpolate_3_2 inputData (Z.of_nat i) Hs Hn ltac:(lia))
      as (lower & upper & v & E & Ev).
    rewrite E. cbn [fst snd].
    replace (Z.of_nat i + 1) with (Z.of_nat (S i)) by lia.
    assert (Hset : TypedArray.set (samples_3_2 inputData 0 i ++ repeat 0 (S count))
                     (Z.of_nat i) v
                   = samples_3_2 inputData 0 (S i) ++ repeat 0 count).
    { unfold TypedArray.set.
      replace (Z.of_nat i <? 0) with false by (symmetry; apply Z.ltb_ge; lia).
      rewrite Ev, Nat2Z.id. cbn [repeat].
      rewrite <- (samples_3_2_length inputData i 0) at 2. rewrite set_nat_app.
      rewrite samples_3_2_snoc, <- app_assoc. reflexivity. }
    rewrite Hset. replace (i + S count)%nat with (S i + count)%nat by lia.
    apply IH. lia.
Qed.

(** X20. At the rates the page resamples at, 24000 to 16000, the output
    is, sample for sample: at an even position [i] the input sample at
    [3 * i / 2], and at an odd position the mean of the two input samples
    around [3 * i / 2] (the upper one clamped to the last) with its
    fraction dropped toward zero, as the store into the [Int16Array]
    truncates and does not round.  This holds for every input of 16-bit
    samples the engine can hold. *)
Theorem resampleAudioData_24000_16000_samples (limit : Z) (inputData : Int16Array) :
  Forall int16 inputData ->
  Z.of_nat (length inputData) <= limit -> limit <= 2 ^ 48 ->
  resampleAudioData limit inputData 24000 16000 =
    Some (samples_3_2 inputData 0
            (Z.to_nat (two_thirds (Z.of_nat (length inputData))))).
Proof.
  intros Hs Hn Hl.
  set (n := Z.of_nat (length inputData)) in *.
  pose proof (outputLength_24000_16000 limit n ltac:(unfold n; lia) Hl) as H.
  pose proof (two_thirds_bounds n) as [T1 T2].
  unfold resampleAudioData, resampleAudioData_run, outputLength, TypedArray.create.
  rewrite ratio_24000_16000. fold n. rewrite H. cbn [option_map]. f_equal.
  rewrite repeat_length.
  apply (loop_3_2 inputData (Z.to_nat (two_thirds n)) 0 []); [exact Hs|lia|].
  fold n. unfold n in *. lia.
Qed.

(** * The length of the output and the exact quotient *)












Lemma positive_finite_number_of_Z (a : Z) :
  0 < a < 2 ^ 53 -> JS.positive_finite (JS.number_of_Z a) = true.
Proof.
  intros Ha. destruct (number_of_Z_pos a Ha) as (m & e & E & V).
  unfold JS.positive_finite. now rewrite E.
Qed.





(** * The handler of [conversation.updated] as a whole *)

(** A delta the engine can hold always makes a frame. *)
Lemma frame_total (env : Env) (a : Int16Array) :
  Z.of_nat (length a) <= array_limit env -> array_limit env <= 2 ^ 48 ->
  exists f,
    frame env a = Some f /\
    Z.of_nat (length f) = 2 * two_thirds (Z.of_nat (length a)).
Proof.
  intros Hn Hl.
  pose proof (outputLength_24000_16000 (array_limit env) (Z.of_nat (length a))
                ltac:(lia) Hl) as H.
  unfold frame, resampleAudioData, resampleAudioData_run, outputLength.
  rewrite ratio_24000_16000.
  destruct (create_length _ _ _ H) as (o & E & Lo). rewrite E. cbn [option_map].
  eexists. split; [reflexivity|].
  rewrite buffer_bytes_length, resample_loop_length. cbn [fst]. lia.
Qed.

Lemma decode_completed_item_returns (env : Env) (item : nat) (c : Console) :
  nth_error (heap c) item <> None ->
  fst (decode_completed_item env item c) = Normal tt.
Proof.
  intros Hn. unfold decode_completed_item, deref. unfold bind at 1. unfold bind at 1.
  unfold gets at 1. destruct (nth_error (heap c) item) as [it|]; [|contradiction].
  unfold ret at 1.
  destruct (audio (formatted it)) as [a|]; [|reflexivity].
  destruct (is_string (status it) "completed" && negb (Nat.eqb (length a) 0));
    [|reflexivity].
  unfold try_catch.
  destruct ((call (WavRecorder_decode a);;
             match decode env a with
             | Some wavFile => _
             | None => throw
             end) c) as [[[]|] c']; reflexivity.
Qed.

(** X21. The [conversation.updated] handler does not throw: for an item of
    the conversation and a delta that is absent, or without audio, or with
    audio the engine can hold, it returns normally whatever the avatar
    channel, the decoder and the audio context do, and it ends by
    publishing the conversation's items.  (The resampling cannot throw at
    24000 to 16000, and the decode step catches what it raises.) *)
Theorem conversation_updated_returns (env : Env) (c : Console) (item : nat)
  (delta : option Delta) :
  nth_error (heap c) item <> None ->
  array_limit env <= 2 ^ 48 ->
  (forall a, delta = Some {| delta_audio := Some a |} ->
     Z.of_nat (length a) <= array_limit env) ->
  fst (on_conversation_updated env item delta c) = Normal tt /\
  items (step env c (conversation_updated item delta)) = conversation c.
Proof.
  intros Hn Hl Ha.
  assert (Hp : fst (process_audio_delta env delta c) = Normal tt).
  { destruct delta as [[[a|]]|]; try reflexivity.
    destruct (frame_total env a (Ha a eq_refl) Hl) as (f & Ef & _).
    destruct (simliClientRef c) as [cl|] eqn:Ec.
    - destruct (gate_openb (simliClientRef c)) eqn:Eg.
      + destruct (process_audio_delta_open env a f c Eg Ef) as (c' & A & _).
        now rewrite A.
      + rewrite (process_audio_delta_closed env a f c); [reflexivity| |exact Eg|exact Ef].
        rewrite Ec. discriminate.
    - now rewrite (process_audio_delta_no_client env _ c Ec). }
  unfold step, handler. rewrite on_conversation_updated_eq.
  destruct (process_audio_delta_store env delta c) as [Hh _].
  destruct (process_audio_delta env delta c) as [[[]|] c1]; [|discriminate].
  cbn [snd] in Hh.
  pose proof (decode_completed_item_returns env item c1 ltac:(now rewrite Hh)) as Hd.
  destruct (decode_completed_item env item c1) as [[[]|] c2]; [|discriminate].
  split; reflexivity.
Qed.

(** * The further properties at concrete inputs *)

(** A page with no audio context, and none to be had. *)
Lemma connectConversation_needs_audio_example :
  let r := connectConversation failing_env fresh_console in
  fst r = Normal tt /\
  Forall (fun k => is_audio_context_call k = true) (new_calls fresh_console (snd r)) /\
  isConnected (snd r) = isConnected fresh_console /\
  items (snd r) = items fresh_console /\
  audioContext (snd r) = audioContext fresh_console /\
  simliClientRef (snd r) = simliClientRef fresh_console /\
  simliAudioBufferRef (snd r) = simliAudioBufferRef fresh_console /\
  isRecording (snd r) = isRecording fresh_console.
Proof.
  apply (connectConversation_needs_audio failing_env fresh_console). reflexivity.
Defined.

(** A running audio context, an avatar client, and a session that rejects
    [connect()]. *)
Lemma connectConversation_connect_rejected_example :
  let c := example_console (Some closed_client) in
  let r := connectConversation failing_env c in
  fst r = Throw /\
  isConnected (snd r) = true /\
  items (snd r) = conversation c /\
  exists before,
    new_calls c (snd r) =
      before ++
      match simliClientRef c with
      | Some _ => [Simli_start; Simli_sendAudioData initial_silence]
      | None => []
      end ++ [Client_connect] /\
    Forall (fun k => is_audio_context_call k = true) before.
Proof.
  apply (connectConversation_connect_rejected failing_env
           (example_console (Some closed_client))); reflexivity.
Defined.

(** A talk press while nothing plays. *)
Lemma startRecording_without_playback_example :
  let c := example_console None in
  let r := startRecording failing_env c in
  fst r = Normal tt /\
  isRecording (snd r) = true /\
  cancellations (new_calls c (snd r)) = [] /\
  exists before,
    new_calls c (snd r) = before ++ [Player_interrupt; Recorder_record] /\
    Forall (fun k => is_audio_context_call k = true) before.
Proof.
  apply (startRecording_without_playback failing_env (example_console None)).
  - exact I.
  - discriminate.
Defined.

Lemma press_then_release_example :
  let c := example_console None in
  let c1 := step example_env c talk_pressed in
  let c2 := step example_env c1 talk_released in
  isRecording c1 = true /\ isRecording c2 = false /\
  exists before,
    new_calls c c2 =
      before ++ [Recorder_record; Recorder_pause; Client_createResponse] /\
    filter is_record before = [] /\
    filter is_createResponse before = [].
Proof.
  apply (press_then_release example_env (example_console None)). discriminate.
Defined.

(** A delta with the channel closed, a talk press, the channel opening,
    and a second delta. *)
Lemma frames_kept_in_order_example :
  let c := example_console (Some closed_client) in
  let d := audio_event (0%nat, example_delta) in
  let evs := [d; talk_pressed; transport_changed (Some open_client); d] in
  let c' := run example_env c evs in
  sent (calls c') ++ simliAudioBufferRef c' =
    sent (calls c) ++ simliAudioBufferRef c ++ flat_map (frames_created example_env) evs.
Proof.
  apply (frames_kept_in_order example_env
           [audio_event (0%nat, example_delta); talk_pressed;
            transport_changed (Some open_client); audio_event (0%nat, example_delta)]
           (example_console (Some closed_client))).
  - discriminate.
  - repeat constructor.
Defined.

(** Two frames pending on an open channel, a disconnect, a new avatar
    client that has not been started, then a delta. *)
Lemma disconnect_keeps_pending_audio_example :
  let c := set_simliAudioBufferRef [example_frame; example_frame]
             (example_console (Some open_client)) in
  let c1 := step example_env c disconnect_clicked in
  let c2 := run example_env c1
              [transport_changed (Some closed_client); audio_event (0%nat, example_delta)] in
  simliAudioBufferRef c1 = simliAudioBufferRef c /\
  sent (new_calls c c1) = [] /\
  (gate_open (Some closed_client) ->
   sent (new_calls c1 c2) = simliAudioBufferRef c ++ [example_frame] /\
   simliAudioBufferRef c2 = []) /\
  (~ gate_open (Some closed_client) ->
   sent (new_calls c1 c2) = [] /\
   simliAudioBufferRef c2 = simliAudioBufferRef c ++ [example_frame]).
Proof.
  apply (disconnect_keeps_pending_audio example_env
           (set_simliAudioBufferRef [example_frame; example_frame]
              (example_console (Some open_client)))
           closed_client (0%nat, example_delta) example_frame).
  vm_compute. reflexivity.
Defined.

(** An item still in progress. *)
Lemma decode_only_completed_audio_example :
  let c := set_heap [pending_item] (example_console None) in
  decode_completed_item example_env 0 c = (Normal tt, c) /\
  (fst (process_audio_delta example_env None c) = Normal tt ->
   step example_env c (conversation_updated 0 None) =
     set_items (conversation c) (snd (process_audio_delta example_env None c))).
Proof.
  apply (decode_only_completed_audio example_env
           (set_heap [pending_item] (example_console None)) 0 pending_item None).
  - reflexivity.
  - left. discriminate.
Defined.

(** A connect, a new avatar client from the mount effect, a disconnect. *)
Lemma connect_button_toggles_example :
  let c := example_console None in
  let c1 := snd (connect_button_onClick example_env c) in
  let c1' := step example_env c1 (transport_changed (Some closed_client)) in
  let c2 := snd (connect_button_onClick example_env c1') in
  fst (connect_button_onClick example_env c) = Normal tt /\
  isConnected c1 = true /\ connect_button_label c1 = "Disconnect"%string /\
  items c1 = conversation c /\ audioContext c1 <> None /\
  connect_button_label c1' = "Disconnect"%string /\
  fst (connect_button_onClick example_env c1') = Normal tt /\
  isConnected c2 = false /\ connect_button_label c2 = "Connect"%string /\
  items c2 = [] /\
  new_calls c1' c2 =
    [Client_disconnect; Recorder_end; Player_interrupt] ++ [Simli_close] ++
    [AudioContext_close] /\
  simliAudioBufferRef c2 = simliAudioBufferRef c.
Proof.
  apply (connect_button_toggles example_env (example_console None) (Some closed_client));
    reflexivity.
Defined.

(** Three deltas, then a transcript. *)
Lemma realtime_log_run_length_example :
  let stream :=
    [example_event "response.audio.delta"; example_event "response.audio.delta";
     example_event "response.audio.delta"; example_event "response.done"] in
  exists log,
    realtime_log [] stream = Some log /\
    expand log = map event_type stream /\
    merged (map event_type log) /\
    (length log <= length stream)%nat.
Proof.
  apply (realtime_log_run_length
           [example_event "response.audio.delta"; example_event "response.audio.delta";
            example_event "response.audio.delta"; example_event "response.done"]).
  repeat constructor; discriminate.
Defined.

(** A mount without a face id, then two deltas. *)
Lemma simli_needs_configuration_example :
  let c := example_console None in
  let evs := [audio_event (0%nat, example_delta); audio_event (0%nat, example_delta)] in
  let configured :=
    videoRef_current example_mount && audioRef_current example_mount &&
    (truthy (REACT_APP_SIMLI_API_KEY example_mount)
     && truthy (REACT_APP_SIMLI_FACE_ID example_mount)) in
  let c0 := snd (ConsolePage_effect example_mount c) in
  (configured = true ->
   simliClientRef c0 = Some (new_SimliClient example_mount) /\
   exists key face rest,
     REACT_APP_SIMLI_API_KEY example_mount = Some key /\
     REACT_APP_SIMLI_FACE_ID example_mount = Some face /\
     fst (ConsolePage_effect example_mount c) =
       SimliClient_new :: SimliClient_Initialize key face :: rest /\
     ~ In SimliClient_new rest) /\
  (configured = false ->
   simliClientRef c0 = None /\
   ~ In SimliClient_new (fst (ConsolePage_effect example_mount c)) /\
   simliAudioBufferRef (run example_env c0 evs) = simliAudioBufferRef c /\
   sent (calls (run example_env c0 evs)) = sent (calls c)).
Proof.
  apply (simli_needs_configuration example_mount example_env (example_console None)
           [audio_event (0%nat, example_delta); audio_event (0%nat, example_delta)]).
  - reflexivity.
  - repeat constructor.
Defined.

(** Seven samples: five come out. *)
Lemma resampleAudioData_24000_16000_length_example :
  let inputData := [10; 20; 30; -40; 50; 60; -7] in
  let n := Z.of_nat (length inputData) in
  exists outputData,
    resampleAudioData 4294967295 inputData 24000 16000 = Some outputData /\
    Z.of_nat (length outputData) = two_thirds n /\
    two_thirds n = exact_round_ratio n 24000 16000 /\
    Z.of_nat (length (TypedArray.buffer_bytes outputData)) = 2 * two_thirds n /\
    Forall (fun b => 0 <= b < 256) (TypedArray.buffer_bytes outputData).
Proof.
  apply (resampleAudioData_24000_16000_length 4294967295 [10; 20; 30; -40; 50; 60; -7]).
  - cbn. lia.
  - vm_compute. discriminate.
Defined.

Lemma resampleAudioData_24000_16000_samples_example :
  let inputData := [10; 20; 30; -40; 50; 60; -7] in
  resampleAudioData 4294967295 inputData 24000 16000 =
    Some (samples_3_2 inputData 0
            (Z.to_nat (two_thirds (Z.of_nat (length inputData))))).
Proof.
  apply (resampleAudioData_24000_16000_samples 4294967295 [10; 20; 30; -40; 50; 60; -7]).
  - repeat (apply Forall_cons; [unfold int16; lia|]). apply Forall_nil.
  - cbn. lia.
  - vm_compute. discriminate.
Defined.

(** The completed item of the example, with a delta, a channel that is
    closed and a decoder that throws. *)
Lemma conversation_updated_returns_example :
  let c := example_console (Some closed_client) in
  let delta := Some {| delta_audio := Some example_delta |} in
  fst (on_conversation_updated failing_env 0 delta c) = Normal tt /\
  items (step failing_env c (conversation_updated 0 delta)) = conversation c.
Proof.
  apply (conversation_updated_returns failing_env (example_console (Some closed_client))
           0 (Some {| delta_audio := Some example_delta |})).
  - discriminate.
  - vm_compute. discriminate.
  - intros a H. injection H as <-. vm_compute. discriminate.
Defined.
